(** * Notes application: state reducer, selectors and persistence layer

    A shallow embedding of the client-side state store and its selectors
    ([src/contexts/AppContext.tsx]), of the versioned import/export
    ([src/utils/storage.ts]) and of the local-storage persistence manager
    ([src/contexts/AppContext.tsx]), with the properties the specification
    states about them.

    Conventions of the embedding.
    - A timestamp field is a string.  The typed state (notes, tags) has two
      kinds of them: the ISO-8601 rendering of an instant
      ([new Date().toISOString()]), kept as the instant itself, in
      milliseconds since the epoch, which is what [new Date(s).getTime()]
      gives back; and a text that [Date] does not parse, whose time is
      [NaN].  Other strings that [Date] parses are not covered.  The clock
      is an input of every transition.
    - JavaScript strings are modelled by [string]: sequences of code units
      below 256.
    - A [string[]] that the code compares with [===] carries its identity.
    - What is stored, exported and imported is untyped JSON ([json]); the
      numbers of the model are the integers.  [JSON.stringify] is defined
      on these values.  [JSON.parse] has three answers: the value of a text
      of this fragment, a [SyntaxError] for a text that is not JSON, and no
      answer for JSON that the fragment does not have (a number with a
      fraction or an exponent, an escape of a code unit above 255).  Code
      that parses such a text is not followed any further
      ([NotModelled]), and the properties say nothing about it.
    - A parsed object keeps its members as they are written.  Reading a
      member takes the last one of that name, as in JavaScript; a text
      that writes a name twice, or an integer that a double does not hold
      exactly, is stored again as it was read, where the browser would
      store the last member only, or the rounded number.
    - Code that throws or writes to [localStorage] is a function from the
      state of the browser to an outcome (a result or an exception) and the
      new state; [async] functions are run to completion, one after the
      other.

    The file has two parts: the definitions (model, then the notions and the
    sample data used in the statements), and the properties. *)

From Stdlib Require Import ZArith List String Ascii Bool Lia Sorted Permutation.
From Stdlib Require Import DecimalString DecimalN DecimalPos.
From stdpp Require Import base option list gmap strings.

Local Open Scope Z_scope.

(** ** Data model ([src/types]) *)

(** An instant, in milliseconds since the epoch. *)
Definition Instant := Z.

(** A timestamp field is a string.  [iso t] is the ISO-8601 rendering of
    the instant [t], as [toISOString] writes it.  [noDate text] is a string
    that [Date] does not parse; which strings those are is not decided
    here, the text is kept for [===] and for truthiness. *)
Inductive Timestamp :=
| iso (t : Instant)
| noDate (text : string).

(** [new Date(s).getTime()]; [None] is [NaN]. *)
Definition getTime (s : Timestamp) : option Z :=
  match s with
  | iso t => Some t
  | noDate _ => None
  end.

(** [a === b] on timestamp fields: equality of strings. *)
Definition timestamp_same (a b : Timestamp) : bool :=
  match a, b with
  | iso x, iso y => Z.eqb x y
  | noDate s, noDate t => String.eqb s t
  | _, _ => false
  end.

(** An optional field of type [T | null]: absent ([undefined]), [null], or a
    value. *)
Inductive Nullable (A : Type) : Type :=
| undefined
| null
| defined (a : A).
Arguments undefined {A}.
Arguments null {A}.
Arguments defined {A} a.

(** A [string[]] object: its identity on the heap and its elements.  Strict
    equality on arrays compares identities, not contents. *)
Record StrArray := mkStrArray { arr_ref : nat; arr_items : list string }.

Record Note := mkNote {
  note_id : string;
  note_title : string;
  note_body : string;
  note_tagIds : StrArray;
  note_pinned : bool;
  note_archived : bool;
  note_createdAt : Timestamp;
  note_updatedAt : Timestamp;
  note_deletedAt : Nullable Timestamp
}.

Record Tag := mkTag {
  tag_id : string;
  tag_name : string;
  tag_color : option string;
  tag_createdAt : Timestamp;
  tag_updatedAt : Timestamp
}.

Inductive Theme := light | dark | system.
Inductive Density := comfortable | compact.
Inductive TagFilterMode := ANY | ALL.

Record Preferences := mkPreferences {
  theme : Theme;
  density : Density;
  tagFilterMode : TagFilterMode
}.

Inductive SortOption := sortUpdatedAt | sortCreatedAt | sortTitle.
Inductive SortDirection := asc | desc.

Record FilterState := mkFilterState {
  search : string;
  filter_tags : list string;
  showArchived : bool;
  showPinned : bool;
  showUntagged : bool;
  sortBy : SortOption;
  sortDirection : SortDirection
}.

Record AppState := mkAppState {
  notes : list Note;
  tags : list Tag;
  preferences : Preferences;
  filters : FilterState;
  selectedNoteId : option string;
  isEditing : bool
}.

(** *** Action payloads *)

(** [Omit<Note, 'id' | 'createdAt' | 'updatedAt'>] *)
Record NewNote := mkNewNote {
  nn_title : string;
  nn_body : string;
  nn_tagIds : StrArray;
  nn_pinned : bool;
  nn_archived : bool;
  nn_deletedAt : Nullable Timestamp
}.

(** [Partial<Note>] once [id] has been taken out of it: every key is either
    absent ([None]) or present with a value. *)
Record NoteChanges := mkNoteChanges {
  ch_title : option string;
  ch_body : option string;
  ch_tagIds : option StrArray;
  ch_pinned : option bool;
  ch_archived : option bool;
  ch_createdAt : option Timestamp;
  ch_updatedAt : option Timestamp;
  ch_deletedAt : option (Nullable Timestamp)
}.

(** [Omit<Tag, 'id' | 'createdAt' | 'updatedAt'>] *)
Record NewTag := mkNewTag { nt_name : string; nt_color : option string }.

(** [Partial<Tag>] without [id]. *)
Record TagChanges := mkTagChanges {
  tch_name : option string;
  tch_color : option (option string);
  tch_createdAt : option Timestamp;
  tch_updatedAt : option Timestamp
}.

Record PreferencesChanges := mkPreferencesChanges {
  pch_theme : option Theme;
  pch_density : option Density;
  pch_tagFilterMode : option TagFilterMode
}.

Record FilterChanges := mkFilterChanges {
  fch_search : option string;
  fch_tags : option (list string);
  fch_showArchived : option bool;
  fch_showPinned : option bool;
  fch_showUntagged : option bool;
  fch_sortBy : option SortOption;
  fch_sortDirection : option SortDirection
}.

Inductive AppAction :=
| ADD_NOTE (payload : NewNote)
| UPDATE_NOTE (id : string) (changes : NoteChanges)
| DELETE_NOTE (id : string)
| RESTORE_NOTE (id : string)
| ADD_TAG (payload : NewTag)
| UPDATE_TAG (id : string) (changes : TagChanges)
| DELETE_TAG (id : string)
| UPDATE_PREFERENCES (payload : PreferencesChanges)
| UPDATE_FILTERS (payload : FilterChanges)
| SELECT_NOTE (id : option string)
| SET_EDITING (isEditing : bool)
| IMPORT_DATA (notes : list Note) (tags : list Tag) (preferences : Preferences).

Definition defaultPreferences : Preferences :=
  {| theme := system; density := comfortable; tagFilterMode := ANY |}.

Definition defaultFilters : FilterState :=
  {| search := ""; filter_tags := []; showArchived := false;
     showPinned := true; showUntagged := false;
     sortBy := sortUpdatedAt; sortDirection := desc |}.

Definition defaultState : AppState :=
  {| notes := []; tags := []; preferences := defaultPreferences;
     filters := defaultFilters; selectedNoteId := None; isEditing := false |}.

(** ** What a reducer call reads from its environment

    [env_now] is the clock ([new Date()]); [env_heap] is the first unused
    array identity, from which the arrays the call allocates are numbered. *)

(** Modelled from the spec: [generateUUID] ([src/utils/uuid], not part of the
    sources at hand) is the identifier generator, which "produces unique
    string identifiers for notes/tags".  The identifier it returns during a
    call is [env_uuid]; that it is unused is a condition on the environment
    ([uuid_fresh] below). *)
Record Env := mkEnv { env_now : Instant; env_uuid : string; env_heap : nat }.

(** ** Strict equality [===] on the field types of a note *)

Definition array_same (a b : StrArray) : bool := Nat.eqb (arr_ref a) (arr_ref b).

Definition nullable_same (a b : Nullable Timestamp) : bool :=
  match a, b with
  | undefined, undefined => true
  | null, null => true
  | defined x, defined y => timestamp_same x y
  | _, _ => false
  end.

(** [targetNote[key] !== value] for a key of [changes]; an absent key
    contributes no entry to [Object.entries]. *)
Definition differs {A} (same : A -> A -> bool) (current : A) (change : option A) : bool :=
  match change with
  | None => false
  | Some v => negb (same current v)
  end.

(** [Object.entries(changes).some(([key, value]) => targetNote[key] !== value)] *)
Definition hasChanges (targetNote : Note) (changes : NoteChanges) : bool :=
  differs String.eqb (note_title targetNote) (ch_title changes)
  || differs String.eqb (note_body targetNote) (ch_body changes)
  || differs array_same (note_tagIds targetNote) (ch_tagIds changes)
  || differs Bool.eqb (note_pinned targetNote) (ch_pinned changes)
  || differs Bool.eqb (note_archived targetNote) (ch_archived changes)
  || differs timestamp_same (note_createdAt targetNote) (ch_createdAt changes)
  || differs timestamp_same (note_updatedAt targetNote) (ch_updatedAt changes)
  || differs nullable_same (note_deletedAt targetNote) (ch_deletedAt changes).

(** One key of a spread [{ ...note, ...changes }]. *)
Definition merged {A} (current : A) (change : option A) : A :=
  match change with
  | None => current
  | Some v => v
  end.

(** [{ ...note, ...changes, updatedAt: new Date().toISOString() }] *)
Definition applyNoteChanges (now : Timestamp) (note : Note) (changes : NoteChanges) : Note :=
  {| note_id := note_id note;
     note_title := merged (note_title note) (ch_title changes);
     note_body := merged (note_body note) (ch_body changes);
     note_tagIds := merged (note_tagIds note) (ch_tagIds changes);
     note_pinned := merged (note_pinned note) (ch_pinned changes);
     note_archived := merged (note_archived note) (ch_archived changes);
     note_createdAt := merged (note_createdAt note) (ch_createdAt changes);
     note_updatedAt := now;
     note_deletedAt := merged (note_deletedAt note) (ch_deletedAt changes) |}.

(** [{ ...tag, ...changes, updatedAt: new Date().toISOString() }] *)
Definition applyTagChanges (now : Timestamp) (tag : Tag) (changes : TagChanges) : Tag :=
  {| tag_id := tag_id tag;
     tag_name := merged (tag_name tag) (tch_name changes);
     tag_color := merged (tag_color tag) (tch_color changes);
     tag_createdAt := merged (tag_createdAt tag) (tch_createdAt changes);
     tag_updatedAt := now |}.

(** [{ ...note, deletedAt: d }] *)
Definition setDeletedAt (d : Nullable Timestamp) (note : Note) : Note :=
  {| note_id := note_id note; note_title := note_title note;
     note_body := note_body note; note_tagIds := note_tagIds note;
     note_pinned := note_pinned note; note_archived := note_archived note;
     note_createdAt := note_createdAt note; note_updatedAt := note_updatedAt note;
     note_deletedAt := d |}.

(** [{ ...note, tagIds: note.tagIds.filter((tagId) => tagId !== id) }]; the
    filtered array is a new object, allocated at [ref]. *)
Definition removeTagId (id : string) (ref : nat) (note : Note) : Note :=
  {| note_id := note_id note; note_title := note_title note;
     note_body := note_body note;
     note_tagIds :=
       {| arr_ref := ref;
          arr_items := List.filter (fun tagId => negb (String.eqb tagId id))
                                   (arr_items (note_tagIds note)) |};
     note_pinned := note_pinned note; note_archived := note_archived note;
     note_createdAt := note_createdAt note; note_updatedAt := note_updatedAt note;
     note_deletedAt := note_deletedAt note |}.

(** [notes.map(f)] where the [i]-th call of [f] allocates one array. *)
Fixpoint mapAlloc (f : nat -> Note -> Note) (ref : nat) (l : list Note) : list Note :=
  match l with
  | [] => []
  | note :: rest => f ref note :: mapAlloc f (S ref) rest
  end.

(** ** The reducer ([appReducer])

    In [ADD_NOTE] the payload is spread after [id], [createdAt] and
    [updatedAt]; its type has none of these three keys.  An array is truthy,
    so [action.payload.tagIds || []] is the payload's own array. *)

Definition appReducer (env : Env) (state : AppState) (action : AppAction) : AppState :=
  match action with
  | ADD_NOTE payload =>
      let now := iso (env_now env) in
      let newNote :=
        {| note_id := env_uuid env;
           note_createdAt := now;
           note_updatedAt := now;
           note_title := nn_title payload;
           note_body := nn_body payload;
           note_deletedAt := nn_deletedAt payload;
           note_tagIds := nn_tagIds payload;
           note_pinned := nn_pinned payload || false;
           note_archived := nn_archived payload || false |} in
      {| notes := newNote :: notes state;
         tags := tags state;
         preferences := preferences state;
         filters := filters state;
         selectedNoteId := Some (note_id newNote);
         isEditing := true |}
  | UPDATE_NOTE id changes =>
      match List.find (fun note => String.eqb (note_id note) id) (notes state) with
      | None => state
      | Some targetNote =>
          if negb (hasChanges targetNote changes) then state
          else
            {| notes :=
                 List.map (fun note =>
                             if String.eqb (note_id note) id
                             then applyNoteChanges (iso (env_now env)) note changes
                             else note)
                          (notes state);
               tags := tags state;
               preferences := preferences state;
               filters := filters state;
               selectedNoteId := selectedNoteId state;
               isEditing := isEditing state |}
      end
  | DELETE_NOTE id =>
      let now := iso (env_now env) in
      {| notes :=
           List.map (fun note =>
                       if String.eqb (note_id note) id
                       then setDeletedAt (defined now) note
                       else note)
                    (notes state);
         tags := tags state;
         preferences := preferences state;
         filters := filters state;
         selectedNoteId :=
           match selectedNoteId state with
           | Some sel => if String.eqb sel id then None else Some sel
           | None => None
           end;
         isEditing := isEditing state |}
  | RESTORE_NOTE id =>
      {| notes :=
           List.map (fun note =>
                       if String.eqb (note_id note) id
                       then setDeletedAt null note
                       else note)
                    (notes state);
         tags := tags state;
         preferences := preferences state;
         filters := filters state;
         selectedNoteId := selectedNoteId state;
         isEditing := isEditing state |}
  | ADD_TAG payload =>
      let now := iso (env_now env) in
      let newTag :=
        {| tag_id := env_uuid env;
           tag_createdAt := now;
           tag_updatedAt := now;
           tag_name := nt_name payload;
           tag_color := nt_color payload |} in
      {| notes := notes state;
         tags := tags state ++ [newTag];
         preferences := preferences state;
         filters := filters state;
         selectedNoteId := selectedNoteId state;
         isEditing := isEditing state |}
  | UPDATE_TAG id changes =>
      {| notes := notes state;
         tags :=
           List.map (fun tag =>
                       if String.eqb (tag_id tag) id
                       then applyTagChanges (iso (env_now env)) tag changes
                       else tag)
                    (tags state);
         preferences := preferences state;
         filters := filters state;
         selectedNoteId := selectedNoteId state;
         isEditing := isEditing state |}
  | DELETE_TAG id =>
      {| tags := List.filter (fun tag => negb (String.eqb (tag_id tag) id)) (tags state);
         notes := mapAlloc (removeTagId id) (env_heap env) (notes state);
         preferences := preferences state;
         filters := filters state;
         selectedNoteId := selectedNoteId state;
         isEditing := isEditing state |}
  | UPDATE_PREFERENCES payload =>
      {| notes := notes state;
         tags := tags state;
         preferences :=
           {| theme := merged (theme (preferences state)) (pch_theme payload);
              density := merged (density (preferences state)) (pch_density payload);
              tagFilterMode :=
                merged (tagFilterMode (preferences state)) (pch_tagFilterMode payload) |};
         filters := filters state;
         selectedNoteId := selectedNoteId state;
         isEditing := isEditing state |}
  | UPDATE_FILTERS payload =>
      {| notes := notes state;
         tags := tags state;
         preferences := preferences state;
         filters :=
           {| search := merged (search (filters state)) (fch_search payload);
              filter_tags := merged (filter_tags (filters state)) (fch_tags payload);
              showArchived := merged (showArchived (filters state)) (fch_showArchived payload);
              showPinned := merged (showPinned (filters state)) (fch_showPinned payload);
              showUntagged := merged (showUntagged (filters state)) (fch_showUntagged payload);
              sortBy := merged (sortBy (filters state)) (fch_sortBy payload);
              sortDirection :=
                merged (sortDirection (filters state)) (fch_sortDirection payload) |};
         selectedNoteId := selectedNoteId state;
         isEditing := isEditing state |}
  | SELECT_NOTE id =>
      {| notes := notes state;
         tags := tags state;
         preferences := preferences state;
         filters := filters state;
         selectedNoteId := id;
         isEditing := false |}
  | SET_EDITING editing =>
      {| notes := notes state;
         tags := tags state;
         preferences := preferences state;
         filters := filters state;
         selectedNoteId := selectedNoteId state;
         isEditing := editing |}
  | IMPORT_DATA notes' tags' preferences' =>
      {| notes := notes';
         tags := tags';
         preferences := preferences';
         filters := filters state;
         selectedNoteId := selectedNoteId state;
         isEditing := isEditing state |}
  end.

(** A run of the store: each dispatched action with the environment its
    reducer call reads. *)
Fixpoint dispatchAll (state : AppState) (trace : list (Env * AppAction)) : AppState :=
  match trace with
  | [] => state
  | (env, action) :: rest => dispatchAll (appReducer env state action) rest
  end.

(** *** Invariants of the note collection *)

(** [b] is a date not earlier than the date [a]; a text that is no date is
    neither earlier nor later than anything. *)
Definition notAfter (a b : Timestamp) : Prop :=
  match getTime a, getTime b with
  | Some x, Some y => x <= y
  | _, _ => False
  end.

Definition ids_unique (state : AppState) : Prop :=
  List.NoDup (List.map note_id (notes state)).

Definition updated_after_created (state : AppState) : Prop :=
  Forall (fun note => notAfter (note_createdAt note) (note_updatedAt note)) (notes state).

Definition note_invariant (state : AppState) : Prop :=
  ids_unique state /\ updated_after_created state.

Definition is_note_action (action : AppAction) : bool :=
  match action with
  | ADD_NOTE _ | UPDATE_NOTE _ _ | DELETE_NOTE _ | RESTORE_NOTE _ => true
  | _ => false
  end.

(** The identifier handed out by the generator is not in use. *)
Definition uuid_fresh (env : Env) (state : AppState) : Prop :=
  ~ In (env_uuid env) (List.map note_id (notes state)).

(** The clock does not read earlier than the creation of an existing note. *)
Definition clock_not_behind (env : Env) (state : AppState) : Prop :=
  Forall (fun note => notAfter (note_createdAt note) (iso (env_now env))) (notes state).

(** The environment behaves along a run: fresh identifiers, and a clock that
    is never behind the notes already created. *)
Fixpoint env_sound (state : AppState) (trace : list (Env * AppAction)) : Prop :=
  match trace with
  | [] => True
  | (env, action) :: rest =>
      uuid_fresh env state /\ clock_not_behind env state /\
      env_sound (appReducer env state action) rest
  end.

(** An update that leaves [createdAt] alone. *)
Definition keeps_createdAt (action : AppAction) : Prop :=
  match action with
  | UPDATE_NOTE _ changes => ch_createdAt changes = None
  | _ => True
  end.

(** ** Built-ins of the language used by the selectors *)

(** [s.startsWith(p)] *)
Definition startsWith (s p : string) : bool := String.prefix p s.

(** [s.includes(sub)]: [sub] occurs in [s] as a substring. *)
Fixpoint includes (s sub : string) : bool :=
  startsWith s sub ||
  match s with
  | EmptyString => false
  | String _ rest => includes rest sub
  end.

(** [c.toLowerCase()] on one code unit below 256: the letters [A-Z] and the
    upper-case letters of Latin-1. *)
Definition lowerChar (c : ascii) : ascii :=
  let n := nat_of_ascii c in
  if ((65 <=? n)%nat && (n <=? 90)%nat)
     || ((192 <=? n)%nat && (n <=? 222)%nat && negb (n =? 215)%nat)
  then ascii_of_nat (n + 32)
  else c.

Fixpoint toLowerCase (s : string) : string :=
  match s with
  | EmptyString => EmptyString
  | String c rest => String (lowerChar c) (toLowerCase rest)
  end.

(** [ids.includes(id)] on a [string[]]. *)
Definition arrayIncludes (ids : list string) (id : string) : bool :=
  existsb (String.eqb id) ids.

(** Truthiness of an optional timestamp string: [undefined], [null] and the
    empty string are falsy; the rendering of an instant is not empty. *)
Definition truthy (x : Nullable Timestamp) : bool :=
  match x with
  | defined (noDate text) => negb (String.eqb text "")
  | defined (iso _) => true
  | _ => false
  end.

(** [Array.prototype.sort(compare)]: a stable sort; the element [x] is placed
    before the first element [y] of the sorted remainder with
    [compare(x, y) <= 0].  For a consistent comparison function every stable
    sort returns this list. *)
Fixpoint insertSorted {A} (compare : A -> A -> Z) (x : A) (sorted : list A) : list A :=
  match sorted with
  | [] => [x]
  | y :: rest =>
      if compare x y <=? 0 then x :: y :: rest
      else y :: insertSorted compare x rest
  end.

Definition arraySort {A} (compare : A -> A -> Z) (l : list A) : list A :=
  List.fold_right (insertSorted compare) [] l.

(** A comparison function is consistent when it induces a total preorder. *)
Record Consistent {A} (compare : A -> A -> Z) : Prop := {
  consistent_total : forall a b, 0 < compare a b -> compare b a <= 0;
  consistent_trans : forall a b c, compare a b <= 0 -> compare b c <= 0 -> compare a c <= 0
}.

(** ** Selectors ([useAppSelectors]) *)

(** [new Date(a[filters.sortBy]).getTime()] for the two date fields; [None]
    is [NaN]. *)
Definition sortDate (field : SortOption) (note : Note) : option Z :=
  match field with
  | sortCreatedAt => getTime (note_createdAt note)
  | _ => getTime (note_updatedAt note)
  end.

(** [x - y] on numbers that may be [NaN]. *)
Definition minus (x y : option Z) : option Z :=
  match x, y with
  | Some a, Some b => Some (a - b)
  | _, _ => None
  end.

(** The comparison function passed to [filtered.sort]; its result is a
    number, [None] being [NaN].  [localeCompare] is
    [String.prototype.localeCompare], the collation of the host's locale. *)
Definition compareNotes (localeCompare : string -> string -> Z)
    (f : FilterState) (a b : Note) : option Z :=
  match sortBy f with
  | sortTitle =>
      match sortDirection f with
      | asc => Some (localeCompare (note_title a) (note_title b))
      | desc => Some (localeCompare (note_title b) (note_title a))
      end
  | field =>
      let aDate := sortDate field a in
      let bDate := sortDate field b in
      match sortDirection f with
      | asc => minus aDate bDate
      | desc => minus bDate aDate
      end
  end.

(** What [sort] reads from a call of its comparison function: a result
    [NaN] counts as [+0].  A date field that is no date makes the
    comparison function inconsistent; the order is then left to the
    implementation, and [arraySort] gives that of one stable sort. *)
Definition sortCompare {A} (comparefn : A -> A -> option Z) (x y : A) : Z :=
  match comparefn x y with
  | Some v => v
  | None => 0
  end.

(** The tag test of [getFilteredNotes]. *)
Definition matchesTags (mode : TagFilterMode) (filterTags : list string) (note : Note) : bool :=
  match mode with
  | ANY => existsb (fun id => arrayIncludes filterTags id) (arr_items (note_tagIds note))
  | ALL => forallb (fun id => arrayIncludes (arr_items (note_tagIds note)) id) filterTags
  end.

(** The search test of [getFilteredNotes], [search] already lower-cased. *)
Definition matchesSearch (search : string) (note : Note) : bool :=
  includes (toLowerCase (note_title note)) search
  || includes (toLowerCase (note_body note)) search.

Definition getFilteredNotes (localeCompare : string -> string -> Z)
    (state : AppState) : list Note :=
  let filters := filters state in
  let filtered := notes state in
  (* Handle deleted notes *)
  let filtered := List.filter (fun note => negb (truthy (note_deletedAt note))) filtered in
  (* Handle archived notes *)
  let filtered :=
    if negb (showArchived filters)
    then List.filter (fun note => negb (note_archived note)) filtered
    else filtered in
  (* Handle tag filters *)
  let filtered :=
    if (0 <? length (filter_tags filters))%nat
    then List.filter (matchesTags (tagFilterMode (preferences state)) (filter_tags filters))
                     filtered
    else filtered in
  (* Handle untagged filter *)
  let filtered :=
    if showUntagged filters
    then List.filter (fun note => (length (arr_items (note_tagIds note)) =? 0)%nat) filtered
    else filtered in
  (* Handle search *)
  let filtered :=
    if negb (String.eqb (search filters) "")
    then
      let search := toLowerCase (search filters) in
      List.filter (matchesSearch search) filtered
    else filtered in
  (* Handle sorting *)
  let filtered := arraySort (sortCompare (compareNotes localeCompare filters)) filtered in
  (* Pin notes to top within current sort *)
  if showPinned filters
  then
    let pinned := List.filter (fun note => note_pinned note) filtered in
    let unpinned := List.filter (fun note => negb (note_pinned note)) filtered in
    pinned ++ unpinned
  else filtered.

(** [getSelectedNote] *)
Definition getSelectedNote (state : AppState) : option Note :=
  match selectedNoteId state with
  | Some sel => List.find (fun note => String.eqb (note_id note) sel) (notes state)
  | None => None
  end.

(** Comparison of strings by code units, as a comparison function: the
    collation of a locale restricted to lower-case ASCII letters agrees with
    it. *)
Definition codeUnitCompare (a b : string) : Z :=
  match String.compare a b with
  | Lt => -1
  | Eq => 0
  | Gt => 1
  end.


(** ** JSON values

    The values [JSON.parse] produces and [JSON.stringify] consumes.  Numbers
    are the integers (the only numbers the application stores are the
    envelope version and a byte count); an object keeps its members in the
    order in which they were written. *)
Unset Elimination Schemes.
Inductive json :=
| JNull
| JBool (b : bool)
| JNumber (n : Z)
| JString (s : string)
| JArray (items : list json)
| JObject (members : list (string * json)).
Set Elimination Schemes.

(** Property access [value[key]]: [None] is [undefined].  Of members written
    twice the last one counts, as after [JSON.parse]. *)
Fixpoint lookupMember (key : string) (members : list (string * json)) : option json :=
  match members with
  | [] => None
  | (k, v) :: rest =>
      match lookupMember key rest with
      | Some later => Some later
      | None => if String.eqb k key then Some v else None
      end
  end.

Definition getField (value : json) (key : string) : option json :=
  match value with
  | JObject members => lookupMember key members
  | _ => None
  end.

(** Truthiness of a value, [undefined] included. *)
Definition isTruthy (value : option json) : bool :=
  match value with
  | None | Some JNull | Some (JBool false) | Some (JNumber 0) => false
  | Some (JString s) => negb (String.eqb s "")
  | Some _ => true
  end.

(** [typeof] and [Array.isArray]. *)
Definition isString (value : option json) : bool :=
  match value with Some (JString _) => true | _ => false end.
Definition isNumber (value : option json) : bool :=
  match value with Some (JNumber _) => true | _ => false end.
Definition isBoolean (value : option json) : bool :=
  match value with Some (JBool _) => true | _ => false end.
Definition isArray (value : option json) : bool :=
  match value with Some (JArray _) => true | _ => false end.
(** [typeof value === 'object'] for a truthy value: objects and arrays. *)
Definition isObject (value : option json) : bool :=
  match value with Some (JObject _) | Some (JArray _) => true | _ => false end.

(** *** [JSON.stringify]

    The serializers prepend their output to a continuation [k], the text that
    follows.  [gap] is the indentation step ([0] for [JSON.stringify(v)],
    [2] for [JSON.stringify(v, null, 2)]) and [indent] the current
    indentation. *)

Definition quoteMark : ascii := "034"%char.
Definition backslash : ascii := "092"%char.

Definition hexDigit (n : nat) : ascii :=
  if (n <? 10)%nat then ascii_of_nat (48 + n) else ascii_of_nat (87 + n).

(** One code unit of a quoted string ([QuoteJSONString]). *)
Definition quoteCharTo (c : ascii) (k : string) : string :=
  let n := nat_of_ascii c in
  if (n =? 34)%nat then String backslash (String quoteMark k)
  else if (n =? 92)%nat then String backslash (String backslash k)
  else if (n =? 8)%nat then String backslash (String "b" k)
  else if (n =? 9)%nat then String backslash (String "t" k)
  else if (n =? 10)%nat then String backslash (String "n" k)
  else if (n =? 12)%nat then String backslash (String "f" k)
  else if (n =? 13)%nat then String backslash (String "r" k)
  else if (n <? 32)%nat then
    String backslash
      (String "u" (String "0" (String "0"
         (String (hexDigit (n / 16)) (String (hexDigit (n mod 16)) k)))))
  else String c k.

Fixpoint quoteBodyTo (s : string) (k : string) : string :=
  match s with
  | EmptyString => k
  | String c rest => quoteCharTo c (quoteBodyTo rest k)
  end.

Definition quoteTo (s : string) (k : string) : string :=
  String quoteMark (quoteBodyTo s (String quoteMark k)).

(** Decimal numerals. *)
Definition naturalToString (n : N) : string := NilZero.string_of_uint (N.to_uint n).

Definition numberToString (n : Z) : string :=
  if n <? 0 then String "-" (naturalToString (Z.abs_N n))
  else naturalToString (Z.abs_N n).

Fixpoint spacesTo (n : nat) (k : string) : string :=
  match n with
  | O => k
  | S n' => String " " (spacesTo n' k)
  end.

(** The line break and indentation written when [gap] is not empty. *)
Definition newlineTo (gap indent : nat) (k : string) : string :=
  match gap with
  | O => k
  | S _ => String "010" (spacesTo indent k)
  end.

(** The elements after the first, each preceded by a comma. *)
Fixpoint restTo {A} (one : A -> string -> string) (separator : string -> string)
    (l : list A) (k : string) : string :=
  match l with
  | [] => k
  | x :: rest => String "," (separator (one x (restTo one separator rest k)))
  end.

Definition memberTo (value : json -> string -> string) (gap : nat)
    (member : string * json) (k : string) : string :=
  quoteTo (fst member)
    (String ":" (match gap with
                 | O => value (snd member) k
                 | S _ => String " " (value (snd member) k)
                 end)).

Fixpoint serializeTo (gap indent : nat) (value : json) (k : string) : string :=
  match value with
  | JNull => String "n" (String "u" (String "l" (String "l" k)))
  | JBool true => String "t" (String "r" (String "u" (String "e" k)))
  | JBool false => String "f" (String "a" (String "l" (String "s" (String "e" k))))
  | JNumber n => numberToString n +:+ k
  | JString s => quoteTo s k
  | JArray [] => String "[" (String "]" k)
  | JArray (first :: rest) =>
      let inner := (indent + gap)%nat in
      String "["
        (newlineTo gap inner
           (serializeTo gap inner first
              (restTo (serializeTo gap inner) (newlineTo gap inner) rest
                 (newlineTo gap indent (String "]" k)))))
  | JObject [] => String "{" (String "}" k)
  | JObject (first :: rest) =>
      let inner := (indent + gap)%nat in
      String "{"
        (newlineTo gap inner
           (memberTo (serializeTo gap inner) gap first
              (restTo (memberTo (serializeTo gap inner) gap) (newlineTo gap inner) rest
                 (newlineTo gap indent (String "}" k)))))
  end.

(** [JSON.stringify(value)] *)
Definition JSON_stringify (value : json) : string := serializeTo 0 0 value "".

(** [JSON.stringify(value, null, 2)] *)
Definition JSON_stringify_pretty (value : json) : string := serializeTo 2 0 value "".

(** *** [JSON.parse] *)

Definition isWhitespace (c : ascii) : bool :=
  let n := nat_of_ascii c in
  (n =? 32)%nat || (n =? 9)%nat || (n =? 10)%nat || (n =? 13)%nat.

Fixpoint skipWhitespace (s : string) : string :=
  match s with
  | EmptyString => EmptyString
  | String c rest => if isWhitespace c then skipWhitespace rest else s
  end.

Fixpoint stripPrefix (p s : string) : option string :=
  match p with
  | EmptyString => Some s
  | String c p' =>
      match s with
      | EmptyString => None
      | String d s' => if Ascii.eqb c d then stripPrefix p' s' else None
      end
  end.

Definition hexValue (c : ascii) : option nat :=
  let n := nat_of_ascii c in
  if (48 <=? n)%nat && (n <=? 57)%nat then Some (n - 48)%nat
  else if (97 <=? n)%nat && (n <=? 102)%nat then Some (n - 87)%nat
  else if (65 <=? n)%nat && (n <=? 70)%nat then Some (n - 55)%nat
  else None.

(** The character a one-letter escape stands for. *)
Definition unescape (e : ascii) : option ascii :=
  let n := nat_of_ascii e in
  if (n =? 34)%nat then Some quoteMark
  else if (n =? 92)%nat then Some backslash
  else if (n =? 47)%nat then Some "/"%char
  else if (n =? 98)%nat then Some "008"%char
  else if (n =? 102)%nat then Some "012"%char
  else if (n =? 110)%nat then Some "010"%char
  else if (n =? 114)%nat then Some "013"%char
  else if (n =? 116)%nat then Some "009"%char
  else None.

Definition consChar (c : ascii) (parsed : option (string * string)) : option (string * string) :=
  match parsed with
  | Some (s, rest) => Some (String c s, rest)
  | None => None
  end.

(** The characters of a string literal after its opening quote, up to and
    including the closing quote.  An escape [\uXXXX] of a code unit above 255
    is outside the strings of the model. *)
Fixpoint parseStringBody (s : string) : option (string * string) :=
  match s with
  | EmptyString => None
  | String c rest =>
      if Ascii.eqb c quoteMark then Some (EmptyString, rest)
      else if Ascii.eqb c backslash then
        match rest with
        | EmptyString => None
        | String e rest1 =>
            if Ascii.eqb e "u" then
              match rest1 with
              | String h1 (String h2 (String h3 (String h4 rest2))) =>
                  match hexValue h1, hexValue h2, hexValue h3, hexValue h4 with
                  | Some a, Some b, Some c', Some d =>
                      let code := (((a * 16 + b) * 16 + c') * 16 + d)%nat in
                      if (code <? 256)%nat
                      then consChar (ascii_of_nat code) (parseStringBody rest2)
                      else None
                  | _, _, _, _ => None
                  end
              | _ => None
              end
            else
              match unescape e with
              | Some ch => consChar ch (parseStringBody rest1)
              | None => None
              end
        end
      else if (nat_of_ascii c <? 32)%nat then None
      else consChar c (parseStringBody rest)
  end.

Definition isDigit (c : ascii) : bool :=
  let n := nat_of_ascii c in (48 <=? n)%nat && (n <=? 57)%nat.

Fixpoint spanDigits (s : string) : string * string :=
  match s with
  | EmptyString => (EmptyString, EmptyString)
  | String c rest =>
      if isDigit c
      then let (digits, after) := spanDigits rest in (String c digits, after)
      else (EmptyString, s)
  end.

(** The value of a numeral without sign; a numeral with a superfluous
    leading zero is not JSON. *)
Definition parseDigits (digits : string) : option N :=
  match NilZero.uint_of_string digits with
  | Some d =>
      let n := N.of_uint d in
      if String.eqb (naturalToString n) digits then Some n else None
  | None => None
  end.

Definition parseNumber (s : string) : option (json * string) :=
  match s with
  | EmptyString => None
  | String c rest =>
      if Ascii.eqb c "-" then
        let (digits, after) := spanDigits rest in
        match parseDigits digits with
        | Some n => Some (JNumber (- Z.of_N n), after)
        | None => None
        end
      else
        let (digits, after) := spanDigits s in
        match parseDigits digits with
        | Some n => Some (JNumber (Z.of_N n), after)
        | None => None
        end
  end.

(** The text after the next token, when that token is the character [c]. *)
Definition peekIs (c : ascii) (s : string) : option string :=
  match skipWhitespace s with
  | EmptyString => None
  | String d after => if Ascii.eqb d c then Some after else None
  end.

(** Recursive descent; [fuel] bounds the number of values and separators
    still to be read. *)
Fixpoint parseValue (fuel : nat) (s : string) : option (json * string) :=
  match fuel with
  | O => None
  | S fuel' =>
      match skipWhitespace s with
      | EmptyString => None
      | String c rest =>
          if Ascii.eqb c "n" then
            match stripPrefix "ull" rest with
            | Some after => Some (JNull, after)
            | None => None
            end
          else if Ascii.eqb c "t" then
            match stripPrefix "rue" rest with
            | Some after => Some (JBool true, after)
            | None => None
            end
          else if Ascii.eqb c "f" then
            match stripPrefix "alse" rest with
            | Some after => Some (JBool false, after)
            | None => None
            end
          else if Ascii.eqb c quoteMark then
            match parseStringBody rest with
            | Some (str, after) => Some (JString str, after)
            | None => None
            end
          else if Ascii.eqb c "[" then
            match peekIs "]" rest with
            | Some after => Some (JArray [], after)
            | None =>
                match parseElements fuel' rest with
                | Some (items, after) => Some (JArray items, after)
                | None => None
                end
            end
          else if Ascii.eqb c "{" then
            match peekIs "}" rest with
            | Some after => Some (JObject [], after)
            | None =>
                match parseMembers fuel' rest with
                | Some (members, after) => Some (JObject members, after)
                | None => None
                end
            end
          else parseNumber (String c rest)
      end
  end
with parseElements (fuel : nat) (s : string) : option (list json * string) :=
  match fuel with
  | O => None
  | S fuel' =>
      match parseValue fuel' s with
      | Some (item, after) =>
          match peekIs "," after with
          | Some more =>
              match parseElements fuel' more with
              | Some (items, rest) => Some (item :: items, rest)
              | None => None
              end
          | None =>
              match peekIs "]" after with
              | Some rest => Some ([item], rest)
              | None => None
              end
          end
      | None => None
      end
  end
with parseMembers (fuel : nat) (s : string) : option (list (string * json) * string) :=
  match fuel with
  | O => None
  | S fuel' =>
      match peekIs quoteMark s with
      | Some afterQuote =>
          match parseStringBody afterQuote with
          | Some (key, afterKey) =>
              match peekIs ":" afterKey with
              | Some afterColon =>
                  match parseValue fuel' afterColon with
                  | Some (value, after) =>
                      match peekIs "," after with
                      | Some more =>
                          match parseMembers fuel' more with
                          | Some (members, rest) => Some ((key, value) :: members, rest)
                          | None => None
                          end
                      | None =>
                          match peekIs "}" after with
                          | Some rest => Some ([(key, value)], rest)
                          | None => None
                          end
                      end
                  | None => None
                  end
              | None => None
              end
          | None => None
          end
      | None => None
      end
  end.

(** The value of a text of the fragment the model has values for: integer
    numerals, and strings of code units below 256. *)
Definition parseText (text : string) : option json :=
  match parseValue (S (String.length text)) text with
  | Some (value, rest) =>
      match skipWhitespace rest with
      | EmptyString => Some value
      | _ => None
      end
  | None => None
  end.

(** **** The JSON grammar

    [JSON.parse] accepts texts that have no value in the model: numbers with
    a fraction or an exponent, and strings with an escape of a code unit
    above 255.  The scanner follows the whole grammar without building a
    value; it tells these texts from the ones that are not JSON. *)

Inductive Scan :=
| Scanned (rest : string)   (* a value was read, [rest] follows it *)
| NotJSON
| OutOfFuel.

(** A string literal after its opening quote: the text after the closing
    quote. *)
Fixpoint scanStringBody (s : string) : option string :=
  match s with
  | EmptyString => None
  | String c rest =>
      if Ascii.eqb c quoteMark then Some rest
      else if Ascii.eqb c backslash then
        match rest with
        | EmptyString => None
        | String e rest1 =>
            if Ascii.eqb e "u" then
              match rest1 with
              | String h1 (String h2 (String h3 (String h4 rest2))) =>
                  match hexValue h1, hexValue h2, hexValue h3, hexValue h4 with
                  | Some _, Some _, Some _, Some _ => scanStringBody rest2
                  | _, _, _, _ => None
                  end
              | _ => None
              end
            else
              match unescape e with
              | Some _ => scanStringBody rest1
              | None => None
              end
        end
      else if (nat_of_ascii c <? 32)%nat then None
      else scanStringBody rest
  end.

(** One digit or more. *)
Definition scanDigits (s : string) : option string :=
  match spanDigits s with
  | (EmptyString, _) => None
  | (_, after) => Some after
  end.

(** [0], or a numeral that starts with another digit. *)
Definition scanInteger (s : string) : option string :=
  match s with
  | EmptyString => None
  | String c rest =>
      if Ascii.eqb c "0" then Some rest
      else if isDigit c then Some (snd (spanDigits rest))
      else None
  end.

Definition scanFraction (s : string) : option string :=
  match s with
  | String c rest => if Ascii.eqb c "." then scanDigits rest else Some s
  | EmptyString => Some s
  end.

Definition scanExponent (s : string) : option string :=
  match s with
  | String c rest =>
      if Ascii.eqb c "e" || Ascii.eqb c "E" then
        match rest with
        | String sign digits =>
            if Ascii.eqb sign "+" || Ascii.eqb sign "-" then scanDigits digits
            else scanDigits rest
        | EmptyString => None
        end
      else Some s
  | EmptyString => Some s
  end.

(** A number: an optional minus sign, an integer, an optional fraction and an
    optional exponent. *)
Definition scanNumber (s : string) : option string :=
  let unsigned :=
    match s with
    | String c rest => if Ascii.eqb c "-" then rest else s
    | EmptyString => s
    end in
  match scanInteger unsigned with
  | Some afterInteger =>
      match scanFraction afterInteger with
      | Some afterFraction => scanExponent afterFraction
      | None => None
      end
  | None => None
  end.

Definition scanned (result : option string) : Scan :=
  match result with
  | Some rest => Scanned rest
  | None => NotJSON
  end.

Fixpoint scanValue (fuel : nat) (s : string) : Scan :=
  match fuel with
  | O => OutOfFuel
  | S fuel' =>
      match skipWhitespace s with
      | EmptyString => NotJSON
      | String c rest =>
          if Ascii.eqb c "n" then scanned (stripPrefix "ull" rest)
          else if Ascii.eqb c "t" then scanned (stripPrefix "rue" rest)
          else if Ascii.eqb c "f" then scanned (stripPrefix "alse" rest)
          else if Ascii.eqb c quoteMark then scanned (scanStringBody rest)
          else if Ascii.eqb c "[" then
            match peekIs "]" rest with
            | Some after => Scanned after
            | None => scanElements fuel' rest
            end
          else if Ascii.eqb c "{" then
            match peekIs "}" rest with
            | Some after => Scanned after
            | None => scanMembers fuel' rest
            end
          else scanned (scanNumber (String c rest))
      end
  end
with scanElements (fuel : nat) (s : string) : Scan :=
  match fuel with
  | O => OutOfFuel
  | S fuel' =>
      match scanValue fuel' s with
      | Scanned after =>
          match peekIs "," after with
          | Some more => scanElements fuel' more
          | None => scanned (peekIs "]" after)
          end
      | failed => failed
      end
  end
with scanMembers (fuel : nat) (s : string) : Scan :=
  match fuel with
  | O => OutOfFuel
  | S fuel' =>
      match peekIs quoteMark s with
      | Some afterQuote =>
          match scanStringBody afterQuote with
          | Some afterKey =>
              match peekIs ":" afterKey with
              | Some afterColon =>
                  match scanValue fuel' afterColon with
                  | Scanned after =>
                      match peekIs "," after with
                      | Some more => scanMembers fuel' more
                      | None => scanned (peekIs "}" after)
                      end
                  | failed => failed
                  end
              | None => NotJSON
              end
          | None => NotJSON
          end
      | None => NotJSON
      end
  end.

(** Whether a text is not JSON: JSON is one value between white space.  Every
    two calls of the scanner read a character, so the fuel does not run out;
    if it did, the text would not be declared malformed. *)
Definition notJSON (text : string) : bool :=
  match scanValue (S (S (2 * String.length text))) text with
  | Scanned rest =>
      match skipWhitespace rest with
      | EmptyString => false
      | _ => true
      end
  | NotJSON => true
  | OutOfFuel => false
  end.

(** What [JSON.parse(text)] does, as far as the model can say. *)
Inductive ParseResult :=
| Parsed (value : json)   (* it returns this value *)
| Malformed               (* it throws a [SyntaxError] *)
| Unsupported.            (* it returns a value the model has no term for *)

(** [JSON.parse(text)].  In a parsed object the members are kept as they
    are written: a name written twice is looked up by its last member
    ([lookupMember]).  Integer numerals are kept exactly. *)
Definition JSON_parse (text : string) : ParseResult :=
  match parseText text with
  | Some value => Parsed value
  | None => if notJSON text then Malformed else Unsupported
  end.

(** A text the model can follow [JSON.parse] on: it has a value in the
    model, or it is not JSON. *)
Definition supported (text : string) : bool :=
  match JSON_parse text with
  | Unsupported => false
  | _ => true
  end.

(** Fuel that suffices to read a value back. *)
Fixpoint fuelFor (value : json) : nat :=
  match value with
  | JArray items => S (List.fold_right (fun item acc => S (fuelFor item + acc)) O items)
  | JObject members =>
      S (List.fold_right (fun member acc => S (fuelFor (snd member) + acc)) O members)
  | _ => 1
  end.

(** The text after a numeral must not go on with a digit. *)
Definition noDigitAhead (k : string) : Prop :=
  match k with
  | EmptyString => True
  | String c _ => isDigit c = false
  end.

(** The characters a serialized value can start with. *)
Definition startsValue (c : ascii) : bool :=
  isDigit c || Ascii.eqb c "-" || Ascii.eqb c "n" || Ascii.eqb c "t" || Ascii.eqb c "f"
  || Ascii.eqb c quoteMark || Ascii.eqb c "[" || Ascii.eqb c "{".

(** A value is read back from its serialization, whatever the indentation
    and whatever follows. *)
Definition readsBack (value : json) : Prop :=
  forall gap indent k fuel,
    (fuelFor value <= fuel)%nat -> noDigitAhead k ->
    parseValue fuel (serializeTo gap indent value k) = Some (value, k).

Definition elementsFuel (items : list json) : nat :=
  List.fold_right (fun item acc => S (fuelFor item + acc)) O items.

Definition membersFuel (members : list (string * json)) : nat :=
  List.fold_right (fun member acc => S (fuelFor (snd member) + acc)) O members.

(** ** The browser: local storage, clock and event channel

    [localStorage] is a map from keys to strings with a capacity: a write
    that would bring the stored keys and values over [ls_quota] code units is
    refused with a [QuotaExceededError] and changes nothing.  [dispatched] records the events
    handed to [window.dispatchEvent], latest first. *)

Inductive Event :=
| StorageQuotaEvent (key : string)              (* detail: { type: 'quota_exceeded', message, key } *)
| StorageSaveFailedEvent (key : string) (data : json).  (* detail: { key, data } *)

Record World := mkWorld {
  ls_entries : gmap string string;
  ls_quota : N;
  dispatched : list Event
}.

(** One reading of the clock: [Date.now()] and [new Date().toISOString()]. *)
Record Clock := mkClock { now_ms : N; now_iso : string }.

Inductive StorageErrorType := quota_exceeded | parse_error | write_error.

(** [StorageError]; the text of [message] is not modelled. *)
Record StorageError := mkStorageError {
  se_type : StorageErrorType;
  se_key : option string
}.

(** What the code throws and catches.  [NotModelled] is none of these: it
    marks a run that has read a text whose value the model has no term for
    ([Unsupported]); the model says nothing about how such a run goes on,
    and no handler gets to see it. *)
Inductive Exception :=
| QuotaExceededError                      (* the DOMException of a refused write *)
| SyntaxError                             (* JSON.parse *)
| TypeError                               (* a property read on null *)
| InvalidDataStructure                    (* new Error('Invalid data structure') *)
| UnsupportedDataVersion (version : option json)
| InvalidDataFormat                       (* new Error('Invalid data format') *)
| ThrownStorageError (e : StorageError)
| NotModelled.

Inductive Outcome (A : Type) : Type :=
| Returned (a : A)
| Threw (e : Exception).
Arguments Returned {A} a.
Arguments Threw {A} e.

(** A computation on the browser: it returns or throws, and in both cases
    leaves the world as its writes made it. *)
Definition Effect (A : Type) : Type := World -> Outcome A * World.

Definition ret {A} (a : A) : Effect A := fun w => (Returned a, w).

Definition throw {A} (e : Exception) : Effect A := fun w => (Threw e, w).

Definition bind {A B} (m : Effect A) (k : A -> Effect B) : Effect B :=
  fun w =>
    match m w with
    | (Returned a, w') => k a w'
    | (Threw e, w') => (Threw e, w')
    end.

Definition tryCatch {A} (body : Effect A) (handler : Exception -> Effect A) : Effect A :=
  fun w =>
    match body w with
    | (Returned a, w') => (Returned a, w')
    | (Threw NotModelled, w') => (Threw NotModelled, w')
    | (Threw e, w') => handler e w'
    end.

(** [JSON.parse(text)] in a computation. *)
Definition parse (text : string) : Effect json :=
  match JSON_parse text with
  | Parsed value => ret value
  | Malformed => throw SyntaxError
  | Unsupported => throw NotModelled
  end.

Notation "'let*' x ':=' m 'in' k" := (bind m (fun x => k))
  (at level 10, x name, m at level 100, k at level 200, only parsing).

Fixpoint forEach {A} (f : A -> Effect unit) (l : list A) : Effect unit :=
  match l with
  | [] => ret tt
  | x :: rest => let* _ := f x in forEach f rest
  end.

(** [s.length] *)
Definition size (s : string) : N := N.of_nat (String.length s).

(** The space the entries occupy. *)
Definition storageSize (entries : gmap string string) : N :=
  map_fold (fun key value acc => (size key + size value + acc)%N) 0%N entries.

Definition localStorage_getItem (key : string) : Effect (option string) :=
  fun w => (Returned (ls_entries w !! key), w).

Definition localStorage_setItem (key value : string) : Effect unit :=
  fun w =>
    let entries := <[key := value]> (ls_entries w) in
    if (storageSize entries <=? ls_quota w)%N
    then (Returned tt,
          {| ls_entries := entries; ls_quota := ls_quota w; dispatched := dispatched w |})
    else (Threw QuotaExceededError, w).

Definition localStorage_removeItem (key : string) : Effect unit :=
  fun w =>
    (Returned tt,
     {| ls_entries := delete key (ls_entries w); ls_quota := ls_quota w;
        dispatched := dispatched w |}).

(** [Object.keys(localStorage)]; the code sorts the keys or treats them one
    by one, so their order here does not matter. *)
Definition Object_keys : Effect (list string) :=
  fun w => (Returned (List.map fst (map_to_list (ls_entries w))), w).

Definition dispatchEvent (e : Event) : Effect unit :=
  fun w =>
    (Returned tt,
     {| ls_entries := ls_entries w; ls_quota := ls_quota w;
        dispatched := e :: dispatched w |}).

(** [keys.sort()]: by code units. *)
Definition sortStrings (l : list string) : list string := arraySort codeUnitCompare l.

(** [value ?? fallback] on the result of a read, where [null] is [JNull]. *)
Definition orElse (value fallback : json) : json :=
  match value with
  | JNull => fallback
  | _ => value
  end.

(** A field read after validation has established it. *)
Definition field (value : json) (key : string) : json :=
  match getField value key with
  | Some v => v
  | None => JNull
  end.

(** ** Versioned import and export ([src/utils/storage.ts]) *)

Module Storage.

Module STORAGE_KEYS.
Definition NOTES : string := "app.notes.v1".
Definition TAGS : string := "app.tags.v1".
Definition PREFERENCES : string := "app.preferences.v1".
Definition META : string := "app.meta.v1".
End STORAGE_KEYS.

(** [LocalStorageAdapter.getItem]; a missing or empty item is [null]. *)
Definition getItem (key : string) : Effect json :=
  tryCatch
    (let* item := localStorage_getItem key in
     match item with
     | None => ret JNull
     | Some text =>
         if String.eqb text "" then ret JNull
         else parse text
     end)
    (fun _ => throw (ThrownStorageError {| se_type := parse_error; se_key := Some key |})).

(** [LocalStorageAdapter.setItem] *)
Definition setItem (key : string) (value : json) : Effect unit :=
  tryCatch
    (let serialized := JSON_stringify value in
     localStorage_setItem key serialized)
    (fun error =>
       match error with
       | QuotaExceededError =>
           throw (ThrownStorageError {| se_type := quota_exceeded; se_key := Some key |})
       | _ => throw (ThrownStorageError {| se_type := write_error; se_key := Some key |})
       end).

Definition getStorageItem (key : string) : Effect json := getItem key.
Definition setStorageItem (key : string) (value : json) : Effect unit := setItem key value.

Definition isValidNote (note : json) : bool :=
  if negb (isTruthy (Some note)) || negb (isObject (Some note)) then false
  else
    isString (getField note "id") &&
    isString (getField note "title") &&
    isString (getField note "body") &&
    isArray (getField note "tagIds") &&
    isBoolean (getField note "pinned") &&
    isBoolean (getField note "archived") &&
    isString (getField note "createdAt") &&
    isString (getField note "updatedAt").

Definition isValidTag (tag : json) : bool :=
  if negb (isTruthy (Some tag)) || negb (isObject (Some tag)) then false
  else
    isString (getField tag "id") &&
    isString (getField tag "name") &&
    isString (getField tag "createdAt") &&
    isString (getField tag "updatedAt") &&
    (match getField tag "color" with
     | None => true
     | color => isString color
     end).

(** [options.includes(value)] for a list of string constants. *)
Definition oneOf (options : list string) (value : option json) : bool :=
  match value with
  | Some (JString s) => existsb (String.eqb s) options
  | _ => false
  end.

Definition isValidPreferences (prefs : option json) : bool :=
  if negb (isTruthy prefs) || negb (isObject prefs) then false
  else
    match prefs with
    | Some p =>
        oneOf ["light"; "dark"; "system"] (getField p "theme") &&
        oneOf ["comfortable"; "compact"] (getField p "density") &&
        oneOf ["ANY"; "ALL"] (getField p "tagFilterMode")
    | None => false
    end.

(** [Array.isArray(a) && a.every(valid)] *)
Definition everyElement (valid : json -> bool) (value : option json) : bool :=
  match value with
  | Some (JArray items) => forallb valid items
  | _ => false
  end.

Definition isValidAppData (data : json) : bool :=
  if negb (isTruthy (Some data)) || negb (isObject (Some data)) then false
  else
    isNumber (getField data "version") &&
    everyElement isValidNote (getField data "notes") &&
    everyElement isValidTag (getField data "tags") &&
    isValidPreferences (getField data "preferences").

Definition defaultPreferencesJson : json :=
  JObject [("theme", JString "system"); ("density", JString "comfortable");
           ("tagFilterMode", JString "ANY")].

(** The envelope [{ version: 1, notes, tags, preferences }]. *)
Definition envelope (notes tags preferences : json) : json :=
  JObject [("version", JNumber 1); ("notes", notes); ("tags", tags);
           ("preferences", preferences)].

Definition exportData : Effect string :=
  let* notes := getStorageItem STORAGE_KEYS.NOTES in
  let notes := orElse notes (JArray []) in
  let* tags := getStorageItem STORAGE_KEYS.TAGS in
  let tags := orElse tags (JArray []) in
  let* preferences := getStorageItem STORAGE_KEYS.PREFERENCES in
  let preferences := orElse preferences defaultPreferencesJson in
  let data := envelope notes tags preferences in
  if negb (isValidAppData data)
  then throw (ThrownStorageError {| se_type := parse_error; se_key := None |})
  else ret (JSON_stringify_pretty data).

Definition importData (json : string) (clock : Clock) : Effect bool :=
  tryCatch
    (let* data := parse json in
     if negb (isValidAppData data) then throw InvalidDataStructure
     else
       match getField data "version" with
       | Some (JNumber 1) =>
           let* _ := setStorageItem STORAGE_KEYS.NOTES (field data "notes") in
           let* _ := setStorageItem STORAGE_KEYS.TAGS (field data "tags") in
           let* _ := setStorageItem STORAGE_KEYS.PREFERENCES (field data "preferences") in
           let* _ := setStorageItem STORAGE_KEYS.META
                       (JObject [("lastBackupAt", JString (now_iso clock))]) in
           ret true
       | version => throw (UnsupportedDataVersion version)
       end)
    (fun _ => throw (ThrownStorageError {| se_type := parse_error; se_key := None |})).

(** [isStorageAvailable], and [LocalStorageAdapter.isAvailable], which has
    the same body. *)
Definition isStorageAvailable : Effect bool :=
  tryCatch
    (let test := "__storage_test__" in
     let* _ := localStorage_setItem test test in
     let* _ := localStorage_removeItem test in
     ret true)
    (fun _ => ret false).

End Storage.

(** ** The persistence manager ([src/contexts/AppContext.tsx]) *)

Module STORAGE_KEYS.
Definition NOTES : string := "notes-app-data".
Definition TAGS : string := "notes-app-tags".
Definition PREFERENCES : string := "notes-app-prefs".
Definition BACKUP_PREFIX : string := "notes-backup-".
Definition METADATA : string := "notes-metadata".
End STORAGE_KEYS.

(** [Math.round((used / total) * 100)] *)
Definition percentageOf (used total : N) : N :=
  ((200 * used + total) / (2 * total))%N.

(** [getStorageUsage]: the lengths of the stored values against 5 MB. *)
Definition getStorageUsage : Effect (N * N * N) :=
  fun w =>
    let used := map_fold (fun _ value acc => (size value + acc)%N) 0%N (ls_entries w) in
    let total := (5 * 1024 * 1024)%N in
    (Returned (used, total, percentageOf used total), w).

(** The template literal [`${n}`] of a non-negative integer. *)
Definition decimal (n : N) : string := naturalToString n.

(** [`${STORAGE_KEYS.BACKUP_PREFIX}${key}-`] *)
Definition backupKeyPrefix (key : string) : string :=
  STORAGE_KEYS.BACKUP_PREFIX +:+ key +:+ "-".

(** [keys.slice(n)] *)
Definition slice {A} (n : nat) (l : list A) : list A := List.skipn n l.

Definition createBackup (key : string) (data : json) (clock : Clock) : Effect unit :=
  tryCatch
    (let backupKey := backupKeyPrefix key +:+ decimal (now_ms clock) in
     let* _ := localStorage_setItem backupKey
                 (JSON_stringify
                    (JObject [("timestamp", JString (now_iso clock));
                              ("data", data);
                              ("originalKey", JString key)])) in
     (* Keep only the 3 most recent backups for each key *)
     let* allKeys := Object_keys in
     let backupKeys :=
       List.rev (sortStrings
                   (List.filter (fun k => startsWith k (backupKeyPrefix key)) allKeys)) in
     forEach localStorage_removeItem (slice 3 backupKeys))
    (fun _ => ret tt).

(** [backupKey.split('-').slice(0, -1).join('-')]: the key up to its last
    dash. *)
Fixpoint beforeLastDash (s : string) : option string :=
  match s with
  | EmptyString => None
  | String c rest =>
      match beforeLastDash rest with
      | Some prefix => Some (String c prefix)
      | None => if Ascii.eqb c "-" then Some EmptyString else None
      end
  end.

Definition baseKeyOf (backupKey : string) : string :=
  match beforeLastDash backupKey with
  | Some base => base
  | None => EmptyString
  end.

(** [backupsByKey.get(baseKey).push(backupKey)], creating the entry of the
    [Map] when it is missing. *)
Fixpoint pushBackup (baseKey backupKey : string) (groups : list (string * list string))
    : list (string * list string) :=
  match groups with
  | [] => [(baseKey, [backupKey])]
  | (base, keys) :: rest =>
      if String.eqb base baseKey then (base, keys ++ [backupKey]) :: rest
      else (base, keys) :: pushBackup baseKey backupKey rest
  end.

Definition groupBackups (backupKeys : list string) : list (string * list string) :=
  List.fold_left (fun groups backupKey => pushBackup (baseKeyOf backupKey) backupKey groups)
                 backupKeys [].

Definition handleQuotaExceeded (key : string) (data : json) : Effect bool :=
  tryCatch
    ((* Step 1: Clear old versioned keys *)
     let oldKeys := ["app.notes.v1"; "app.tags.v1"; "app.preferences.v1"] in
     let* _ := forEach (fun oldKey =>
                          let* item := localStorage_getItem oldKey in
                          match item with
                          | Some text =>
                              if negb (String.eqb text "")
                              then localStorage_removeItem oldKey
                              else ret tt
                          | None => ret tt
                          end) oldKeys in
     (* Step 2: Clear old backups (keep only 1 most recent per key) *)
     let* allKeys := Object_keys in
     let backupKeys :=
       List.filter (fun k => startsWith k STORAGE_KEYS.BACKUP_PREFIX) allKeys in
     let backupsByKey := groupBackups backupKeys in
     let* _ := forEach (fun group =>
                          let sorted := List.rev (sortStrings (snd group)) in
                          forEach localStorage_removeItem (slice 1 sorted))
                       backupsByKey in
     (* Step 3: Try to save again *)
     let* _ := localStorage_setItem key (JSON_stringify data) in
     ret true)
    (fun _ =>
       let* _ := dispatchEvent (StorageQuotaEvent key) in
       ret false).

(** [StorageMetadata] *)
Definition metadataOf (clock : Clock) (serialized : string) : json :=
  JObject [("lastSaved", JString (now_iso clock));
           ("version", JString "1.0.0");
           ("dataSize", JNumber (Z.of_N (size serialized)))].

Definition saveToLocalStorage (key : string) (data : json) (clock : Clock) : Effect bool :=
  tryCatch
    (let serialized := JSON_stringify data in
     (* Check storage usage before saving *)
     let* usage := getStorageUsage in
     let percentage := snd usage in
     let* _ :=
       if (80 <? percentage)%N then
         (* Clean up old backups if storage is getting full *)
         if (90 <? percentage)%N then
           let* allKeys := Object_keys in
           let backupKeys :=
             List.filter (fun k => startsWith k STORAGE_KEYS.BACKUP_PREFIX) allKeys in
           forEach localStorage_removeItem backupKeys
         else ret tt
       else ret tt in
     (* Create backup before overwriting (only for notes and tags) *)
     let* _ :=
       if String.eqb key STORAGE_KEYS.NOTES || String.eqb key STORAGE_KEYS.TAGS
       then createBackup key data clock
       else ret tt in
     let* _ := localStorage_setItem key serialized in
     (* Update metadata *)
     let metadata := metadataOf clock serialized in
     let* _ := localStorage_setItem STORAGE_KEYS.METADATA (JSON_stringify metadata) in
     ret true)
    (fun error =>
       match error with
       | QuotaExceededError => handleQuotaExceeded key data
       | _ => ret false
       end).

(** The test a note passes in [validateData]. *)
Definition looksLikeNote (note : json) : bool :=
  isTruthy (Some note) &&
  isString (getField note "id") &&
  isString (getField note "title") &&
  isString (getField note "body") &&
  isArray (getField note "tagIds") &&
  isString (getField note "createdAt") &&
  isString (getField note "updatedAt").

Definition looksLikeTag (tag : json) : bool :=
  isTruthy (Some tag) &&
  isString (getField tag "id") &&
  isString (getField tag "name") &&
  isString (getField tag "createdAt") &&
  isString (getField tag "updatedAt").

(** [validateData(data, key)], as a truth value. *)
Definition validateData (data : json) (key : string) : bool :=
  if String.eqb key STORAGE_KEYS.NOTES then
    match data with
    | JArray items => forallb looksLikeNote items
    | _ => false
    end
  else if String.eqb key STORAGE_KEYS.TAGS then
    match data with
    | JArray items => forallb looksLikeTag items
    | _ => false
    end
  else if String.eqb key STORAGE_KEYS.PREFERENCES then
    isTruthy (Some data) &&
    isObject (Some data) &&
    isString (getField data "theme") &&
    isString (getField data "density") &&
    isString (getField data "tagFilterMode")
  else true.

(** [s.replace(pattern, replacement)] for a string pattern: the first
    occurrence only. *)
Fixpoint replaceFirst (pattern replacement s : string) : string :=
  match stripPrefix pattern s with
  | Some rest => replacement +:+ rest
  | None =>
      match s with
      | EmptyString => EmptyString
      | String c rest => String c (replaceFirst pattern replacement rest)
      end
  end.

(** The prefix under which [attemptDataRecovery] looks for backups. *)
Definition recoveryPrefix (key : string) : string :=
  STORAGE_KEYS.BACKUP_PREFIX +:+ replaceFirst "notes-app-" "" key +:+ "-".

(** One turn of the loop over the backup keys: [Some data] when the loop
    returns from this backup, [None] when it goes on to the next. *)
Definition tryBackup (key backupKey : string) (clock : Clock) : Effect (option json) :=
  tryCatch
    (let* item := localStorage_getItem backupKey in
     let text := match item with
                 | Some t => t
                 | None => EmptyString
                 end in
     let* backup := parse text in
     match backup with
     | JNull => throw TypeError
     | _ =>
         let data := getField backup "data" in
         match data with
         | Some d =>
             if isTruthy data && validateData d key then
               (* Restore the data *)
               let* _ := saveToLocalStorage key d clock in
               ret (Some d)
             else ret None
         | None => ret None
         end
     end)
    (fun _ => ret None).

Fixpoint firstValidBackup (key : string) (backupKeys : list string) (clock : Clock)
    (defaultValue : json) : Effect json :=
  match backupKeys with
  | [] => ret defaultValue
  | backupKey :: rest =>
      let* found := tryBackup key backupKey clock in
      match found with
      | Some data => ret data
      | None => firstValidBackup key rest clock defaultValue
      end
  end.

Definition attemptDataRecovery (key : string) (defaultValue : json) (clock : Clock)
    : Effect json :=
  tryCatch
    ((* Try to find the most recent backup *)
     let* allKeys := Object_keys in
     let backupKeys :=
       List.rev (sortStrings
                   (List.filter (fun k => startsWith k (recoveryPrefix key)) allKeys)) in
     firstValidBackup key backupKeys clock defaultValue)
    (fun _ => ret defaultValue).

Definition loadFromLocalStorage (key : string) (defaultValue : json) (clock : Clock)
    : Effect json :=
  tryCatch
    (let* item := localStorage_getItem key in
     match item with
     | None => ret defaultValue
     | Some text =>
         if String.eqb text "" then ret defaultValue
         else
           let* parsed := parse text in
           (* Validate the loaded data *)
           if negb (validateData parsed key)
           then attemptDataRecovery key defaultValue clock
           else ret parsed
     end)
    (fun _ => attemptDataRecovery key defaultValue clock).

(** *** Debounced saving ([AppProvider])

    [saveTimeoutRef] holds the one pending timer, with the key and data its
    callback closes over. *)
Record Provider := mkProvider { saveTimeout : option (string * json) }.

(** [debouncedSave(key, data)]: a pending timer is cleared and a new one
    set. *)
Definition debouncedSave (key : string) (data : json) (provider : Provider) : Provider :=
  {| saveTimeout := Some (key, data) |}.

(** The 300 ms have passed: the callback of the pending timer runs. *)
Definition timerFires (clock : Clock) (provider : Provider) : Effect Provider :=
  match saveTimeout provider with
  | None => ret provider
  | Some (key, data) =>
      let* success := saveToLocalStorage key data clock in
      let* _ := if negb success
                then dispatchEvent (StorageSaveFailedEvent key data)
                else ret tt in
      ret {| saveTimeout := None |}
  end.

(** *** [StorageUtils] *)

Module StorageUtils.

Definition exportData (clock : Clock) : Effect string :=
  let* notes := loadFromLocalStorage STORAGE_KEYS.NOTES (JArray []) clock in
  let* tags := loadFromLocalStorage STORAGE_KEYS.TAGS (JArray []) clock in
  let* preferences :=
    loadFromLocalStorage STORAGE_KEYS.PREFERENCES Storage.defaultPreferencesJson clock in
  ret (JSON_stringify_pretty
         (JObject [("version", JString "1.0.0");
                   ("exportDate", JString (now_iso clock));
                   ("data", JObject [("notes", notes); ("tags", tags);
                                     ("preferences", preferences)])])).

Definition importData (jsonString : string) (clock : Clock) : Effect bool :=
  tryCatch
    (let* imported := parse jsonString in
     match imported with
     | JNull => throw TypeError
     | _ =>
         if negb (isTruthy (getField imported "data")) then throw InvalidDataFormat
         else
           let data := field imported "data" in
           let notes := getField data "notes" in
           let tags := getField data "tags" in
           let preferences := getField data "preferences" in
           (* Validate and save *)
           let* _ := match notes with
                     | Some (JArray items) =>
                         let* _ := saveToLocalStorage STORAGE_KEYS.NOTES (JArray items) clock in
                         ret tt
                     | _ => ret tt
                     end in
           let* _ := match tags with
                     | Some (JArray items) =>
                         let* _ := saveToLocalStorage STORAGE_KEYS.TAGS (JArray items) clock in
                         ret tt
                     | _ => ret tt
                     end in
           let* _ := match preferences with
                     | Some p =>
                         if isTruthy preferences
                         then let* _ := saveToLocalStorage STORAGE_KEYS.PREFERENCES p clock in
                              ret tt
                         else ret tt
                     | None => ret tt
                     end in
           ret true
     end)
    (fun _ => ret false).

(** [clearData]; [Object.values(STORAGE_KEYS)] lists the five values in
    the order of the literal. *)
Definition clearData : Effect unit :=
  let* _ := forEach localStorage_removeItem
              [STORAGE_KEYS.NOTES; STORAGE_KEYS.TAGS; STORAGE_KEYS.PREFERENCES;
               STORAGE_KEYS.BACKUP_PREFIX; STORAGE_KEYS.METADATA] in
  (* Clear backups too *)
  let* allKeys := Object_keys in
  forEach localStorage_removeItem
          (List.filter (fun key => startsWith key STORAGE_KEYS.BACKUP_PREFIX) allKeys).

End StorageUtils.

(** ** Notions used in the statements *)

(** *** The reducer *)

(** The payload of an [UPDATE_NOTE] repeats the current value of every field
    it carries; for [tagIds] the value is the array object itself. *)
Definition repeats {A} (current : A) (change : option A) : Prop :=
  forall v, change = Some v -> v = current.

Definition identical_to (target : Note) (changes : NoteChanges) : Prop :=
  repeats (note_title target) (ch_title changes) /\
  repeats (note_body target) (ch_body changes) /\
  repeats (note_tagIds target) (ch_tagIds changes) /\
  repeats (note_pinned target) (ch_pinned changes) /\
  repeats (note_archived target) (ch_archived changes) /\
  repeats (note_createdAt target) (ch_createdAt changes) /\
  repeats (note_updatedAt target) (ch_updatedAt changes) /\
  repeats (note_deletedAt target) (ch_deletedAt changes).

(** The specification's invariant claim for the note actions, as it is
    written: along every run of note actions in a sound environment the
    invariant is kept. *)
Definition note_invariant_kept_by_all_runs : Prop :=
  forall state trace,
    Forall (fun step => is_note_action (snd step) = true) trace ->
    env_sound state trace ->
    note_invariant state ->
    note_invariant (dispatchAll state trace).

(** *** The selectors *)

(** What the tag filter asks of a note, in words of the specification. *)
Definition tag_condition (mode : TagFilterMode) (filterTags : list string) (note : Note) : Prop :=
  match mode with
  | ANY => exists id, In id (arr_items (note_tagIds note)) /\ In id filterTags
  | ALL => forall id, In id filterTags -> In id (arr_items (note_tagIds note))
  end.

(** The state with [filters.showPinned] set to [b]. *)
Definition withShowPinned (b : bool) (state : AppState) : AppState :=
  {| notes := notes state; tags := tags state; preferences := preferences state;
     filters :=
       {| search := search (filters state);
          filter_tags := filter_tags (filters state);
          showArchived := showArchived (filters state);
          showPinned := b;
          showUntagged := showUntagged (filters state);
          sortBy := sortBy (filters state);
          sortDirection := sortDirection (filters state) |};
     selectedNoteId := selectedNoteId state; isEditing := isEditing state |}.

(** [a] may stand before [b] in the collation order of titles. *)
Definition titleOrder (localeCompare : string -> string -> Z) (a b : Note) : Prop :=
  localeCompare (note_title a) (note_title b) <= 0.

(** A collation that ignores case, as the collations of the host's locales
    do at their first level: it puts [a] before [B], where the order of
    the code units puts [B] first. *)
Definition caseBlindCompare (a b : string) : Z :=
  codeUnitCompare (toLowerCase a) (toLowerCase b).

(** The specification's claim about the title sort, as it is written:
    sorted by title, ascending, the notes come out in the lexicographic
    order of their titles, the order of the code units, on every host. *)
Definition title_sort_is_lexicographic : Prop :=
  forall (localeCompare : string -> string -> Z) (state : AppState),
    Consistent localeCompare ->
    sortBy (filters state) = sortTitle -> sortDirection (filters state) = asc ->
    StronglySorted (titleOrder codeUnitCompare)
                   (getFilteredNotes localeCompare (withShowPinned false state)).

(** *** Import and export *)

(** The error every failure of [importData] is turned into. *)
Definition parseError : Exception :=
  ThrownStorageError {| se_type := parse_error; se_key := None |}.



(** The world after [key] was set to the serialization of [value]. *)
Definition putJson (key : string) (value : json) (w : World) : World :=
  {| ls_entries := <[key := JSON_stringify value]> (ls_entries w);
     ls_quota := ls_quota w; dispatched := dispatched w |}.

(** Reading the three keys of [storage.ts] gives these values. *)
Definition holds (w : World) (notes tags preferences : json) : Prop :=
  Storage.getStorageItem Storage.STORAGE_KEYS.NOTES w = (Returned notes, w) /\
  Storage.getStorageItem Storage.STORAGE_KEYS.TAGS w = (Returned tags, w) /\
  Storage.getStorageItem Storage.STORAGE_KEYS.PREFERENCES w = (Returned preferences, w).

(** The collection [exportData] assembles from the store: what the three
    keys hold, with the defaults for what is missing. *)
Definition storedCollection (w : World) (notes tags preferences : json) : Prop :=
  exists notes0 tags0 preferences0,
    holds w notes0 tags0 preferences0 /\
    notes = orElse notes0 (JArray []) /\
    tags = orElse tags0 (JArray []) /\
    preferences = orElse preferences0 Storage.defaultPreferencesJson.

(** The record [importData] leaves under the metadata key. *)
Definition importStamp (clock : Clock) : json :=
  JObject [("lastBackupAt", JString (now_iso clock))].

(** The space the four writes of an import can take. *)
Definition importCost (notes tags preferences : json) (clock : Clock) : N :=
  (size Storage.STORAGE_KEYS.NOTES + size (JSON_stringify notes)
   + (size Storage.STORAGE_KEYS.TAGS + size (JSON_stringify tags))
   + (size Storage.STORAGE_KEYS.PREFERENCES + size (JSON_stringify preferences))
   + (size Storage.STORAGE_KEYS.META + size (JSON_stringify (importStamp clock))))%N.

(** The specification's round-trip claim, as it is written: for every valid
    stored collection, exporting and importing the export succeeds and the
    store holds the collection. *)
Definition roundtrip_always_succeeds : Prop :=
  forall w clock notes tags preferences,
    storedCollection w notes tags preferences ->
    Storage.isValidAppData (Storage.envelope notes tags preferences) = true ->
    exists text w',
      Storage.exportData w = (Returned text, w) /\
      Storage.importData text clock w = (Returned true, w') /\
      holds w' notes tags preferences.

(** *** Saving *)

(** [w'] differs from [w] at most in backup entries, and takes at most [n]
    more space. *)
Definition onlyBackupsChanged (n : N) (w w' : World) : Prop :=
  ls_quota w' = ls_quota w /\
  dispatched w' = dispatched w /\
  (storageSize (ls_entries w') <= storageSize (ls_entries w) + n)%N /\
  forall k, startsWith k STORAGE_KEYS.BACKUP_PREFIX = false ->
            ls_entries w' !! k = ls_entries w !! k.

(** The snapshot [createBackup] writes. *)
Definition backupSnapshot (key : string) (data : json) (clock : Clock) : json :=
  JObject [("timestamp", JString (now_iso clock)); ("data", data);
           ("originalKey", JString key)].

(** The key [createBackup] writes the snapshot of [key] under. *)
Definition backupKeyAt (key : string) (clock : Clock) : string :=
  backupKeyPrefix key +:+ decimal (now_ms clock).

(** No stored snapshot of [key] has a key that sorts after the one written
    at [clock]: the snapshot written now is the most recent one, so the
    pruning of [createBackup] keeps it. *)
Definition newestSnapshot (key : string) (clock : Clock) (w : World) : bool :=
  forallb (fun k => codeUnitCompare k (backupKeyAt key clock) <=? 0)
          (List.filter (fun k => startsWith k (backupKeyPrefix key))
                       (List.map fst (map_to_list (ls_entries w)))).

(** The space a save can take: the snapshot, the value and the metadata. *)
Definition saveCost (key : string) (data : json) (clock : Clock) : N :=
  (size (backupKeyPrefix key +:+ decimal (now_ms clock))
   + size (JSON_stringify (backupSnapshot key data clock))
   + (size key + size (JSON_stringify data))
   + (size STORAGE_KEYS.METADATA
      + size (JSON_stringify (metadataOf clock (JSON_stringify data)))))%N.

(** The specification's short-circuit claim, as it is written: when the
    value to save serializes to what the key already holds, the scheduled
    save leaves the store alone. *)
Definition equal_value_save_is_skipped : Prop :=
  forall key data provider clock w provider' w',
    ls_entries w !! key = Some (JSON_stringify data) ->
    timerFires clock (debouncedSave key data provider) w = (Returned provider', w') ->
    ls_entries w' = ls_entries w.

(** ** Sample data of the worked examples *)

Definition sampleNote (id title : string) (tagIds : StrArray) (at_ : Instant) : Note :=
  {| note_id := id; note_title := title; note_body := ""; note_tagIds := tagIds;
     note_pinned := false; note_archived := false; note_createdAt := iso at_;
     note_updatedAt := iso at_; note_deletedAt := undefined |}.

Definition oneNoteState : AppState :=
  {| notes := [sampleNote "n1" "first" (mkStrArray 0 []) 5];
     tags := []; preferences := defaultPreferences; filters := defaultFilters;
     selectedNoteId := None; isEditing := false |}.

Definition backdatedChanges : NoteChanges :=
  {| ch_title := None; ch_body := None; ch_tagIds := None; ch_pinned := None;
     ch_archived := None; ch_createdAt := Some (iso 100); ch_updatedAt := None;
     ch_deletedAt := None |}.

Definition renameChanges (title : string) : NoteChanges :=
  {| ch_title := Some title; ch_body := None; ch_tagIds := None; ch_pinned := None;
     ch_archived := None; ch_createdAt := None; ch_updatedAt := None;
     ch_deletedAt := None |}.

Definition blankNote : NewNote :=
  {| nn_title := ""; nn_body := ""; nn_tagIds := mkStrArray 1 [];
     nn_pinned := false; nn_archived := false; nn_deletedAt := undefined |}.

Definition sampleRun : list (Env * AppAction) :=
  [ (mkEnv 10 "n2" 2, ADD_NOTE blankNote);
    (mkEnv 11 "u3" 2, UPDATE_NOTE "n2" (renameChanges "second"));
    (mkEnv 12 "u4" 2, DELETE_NOTE "n1");
    (mkEnv 13 "u5" 2, RESTORE_NOTE "n1") ].

Definition noteA : Note := sampleNote "A" "note a" (mkStrArray 1 ["x"]) 1.
Definition noteB : Note := sampleNote "B" "note b" (mkStrArray 2 ["y"]) 2.
Definition noteC : Note := sampleNote "C" "note c" (mkStrArray 3 ["x"; "y"]) 3.

Definition tagExample (mode : TagFilterMode) (filterTags : list string) : AppState :=
  {| notes := [noteA; noteB; noteC]; tags := [];
     preferences := {| theme := system; density := comfortable; tagFilterMode := mode |};
     filters :=
       {| search := ""; filter_tags := filterTags; showArchived := false;
          showPinned := true; showUntagged := false;
          sortBy := sortUpdatedAt; sortDirection := desc |};
     selectedNoteId := None; isEditing := false |}.

Definition titleExample (pinnedToTop : bool) : AppState :=
  {| notes := [sampleNote "1" "b" (mkStrArray 1 []) 1;
               sampleNote "2" "a" (mkStrArray 2 []) 2;
               sampleNote "3" "c" (mkStrArray 3 []) 3];
     tags := []; preferences := defaultPreferences;
     filters :=
       {| search := ""; filter_tags := []; showArchived := false;
          showPinned := pinnedToTop; showUntagged := false;
          sortBy := sortTitle; sortDirection := asc |};
     selectedNoteId := None; isEditing := false |}.

(** Two notes whose titles differ in case. *)
Definition caseExample : AppState :=
  {| notes := [sampleNote "1" "B" (mkStrArray 1 []) 1;
               sampleNote "2" "a" (mkStrArray 2 []) 2];
     tags := []; preferences := defaultPreferences;
     filters :=
       {| search := ""; filter_tags := []; showArchived := false;
          showPinned := false; showUntagged := false;
          sortBy := sortTitle; sortDirection := asc |};
     selectedNoteId := None; isEditing := false |}.

Definition sampleNoteJson : json :=
  JObject [("id", JString "n1"); ("title", JString "Groceries");
           ("body", JString "milk"); ("tagIds", JArray [JString "t1"]);
           ("pinned", JBool false); ("archived", JBool false);
           ("createdAt", JString "2024-01-01T00:00:00.000Z");
           ("updatedAt", JString "2024-01-01T00:00:00.000Z")].

Definition sampleTagJson : json :=
  JObject [("id", JString "t1"); ("name", JString "home");
           ("createdAt", JString "2024-01-01T00:00:00.000Z");
           ("updatedAt", JString "2024-01-01T00:00:00.000Z")].

(** The export of one note and one tag, with the given version. *)
Definition samplePayload (version : Z) : string :=
  JSON_stringify_pretty
    (JObject [("version", JNumber version); ("notes", JArray [sampleNoteJson]);
              ("tags", JArray [sampleTagJson]);
              ("preferences", Storage.defaultPreferencesJson)]).

Definition emptyWorld (quota : N) : World :=
  {| ls_entries := ∅; ls_quota := quota; dispatched := [] |}.

Definition clockAt (ms : N) (text : string) : Clock :=
  {| now_ms := ms; now_iso := text |}.

Definition firstClock : Clock := clockAt 1700000000000 "2023-11-14T22:13:20.000Z".
Definition laterClock : Clock := clockAt 1700000060000 "2023-11-14T22:14:20.000Z".

(** A store the application has used: the notes were saved once. *)
Definition savedWorld : World :=
  snd (saveToLocalStorage STORAGE_KEYS.NOTES (JArray [sampleNoteJson]) firstClock
         (emptyWorld 5000000)).

(** The same store after the value under the notes key was damaged. *)
Definition corruptedWorld : World :=
  {| ls_entries := <[STORAGE_KEYS.NOTES := "{oops"]> (ls_entries savedWorld);
     ls_quota := ls_quota savedWorld; dispatched := dispatched savedWorld |}.

(** The key under which [createBackup] stored the snapshot of that save. *)
Definition savedBackupKey : string :=
  backupKeyPrefix STORAGE_KEYS.NOTES +:+ decimal (now_ms firstClock).

(** A store holding one note, one tag and the default preferences. *)
Definition sampleEntries : gmap string string :=
  <[Storage.STORAGE_KEYS.NOTES := JSON_stringify (JArray [sampleNoteJson])]>
    (<[Storage.STORAGE_KEYS.TAGS := JSON_stringify (JArray [sampleTagJson])]>
       (<[Storage.STORAGE_KEYS.PREFERENCES := JSON_stringify Storage.defaultPreferencesJson]>
          ∅)).

Definition roomyWorld : World :=
  {| ls_entries := sampleEntries; ls_quota := 5000000; dispatched := [] |}.

(** The same store, filled to its capacity. *)
Definition fullWorld : World :=
  {| ls_entries := sampleEntries; ls_quota := storageSize sampleEntries;
     dispatched := [] |}.

(** A damaged store in which a snapshot sits under the prefix that
    [attemptDataRecovery] searches. *)
Definition recoverableWorld : World :=
  {| ls_entries :=
       <[recoveryPrefix STORAGE_KEYS.NOTES +:+ decimal (now_ms firstClock) :=
           JSON_stringify
             (backupSnapshot STORAGE_KEYS.NOTES (JArray [sampleNoteJson]) firstClock)]>
         (<[STORAGE_KEYS.NOTES := "{oops"]> ∅);
     ls_quota := 5000000; dispatched := [] |}.

(** An export in the wrapped format of [StorageUtils], marked version 2. *)
Definition wrappedPayload : string :=
  JSON_stringify_pretty
    (JObject [("version", JNumber 2);
              ("exportDate", JString "2023-11-14T22:13:20.000Z");
              ("data", JObject [("notes", JArray [sampleNoteJson]);
                                ("tags", JNumber 5)])]).

Definition meetingNote : Note :=
  {| note_id := "m"; note_title := "Monday"; note_body := "Meeting Notes";
     note_tagIds := mkStrArray 1 []; note_pinned := false; note_archived := false;
     note_createdAt := iso 1; note_updatedAt := iso 1; note_deletedAt := undefined |}.

Definition searchExample (query : string) : AppState :=
  {| notes := [meetingNote; sampleNote "o" "Other" (mkStrArray 2 []) 2];
     tags := []; preferences := defaultPreferences;
     filters :=
       {| search := query; filter_tags := []; showArchived := false;
          showPinned := true; showUntagged := false;
          sortBy := sortUpdatedAt; sortDirection := desc |};
     selectedNoteId := None; isEditing := false |}.


(** ** Further selectors and the handlers of the components *)

(** [getTagsForNote] *)
Definition getTagsForNote (state : AppState) (noteId : string) : list Tag :=
  match List.find (fun n => String.eqb (note_id n) noteId) (notes state) with
  | None => []
  | Some note =>
      List.filter (fun tag => arrayIncludes (arr_items (note_tagIds note)) (tag_id tag))
                  (tags state)
  end.

(** [isNoteSelected] *)
Definition isNoteSelected (state : AppState) (noteId : string) : bool :=
  match selectedNoteId state with
  | Some sel => String.eqb sel noteId
  | None => false
  end.

(** [ids.includes(id) ? ids.filter((x) => x !== id) : [...ids, id]], the
    expression both [toggleTag] ([NoteEditor]) and [handleTagClick]
    ([TagFilter]) compute. *)
Definition toggled (ids : list string) (id : string) : list string :=
  if arrayIncludes ids id
  then List.filter (fun x => negb (String.eqb x id)) ids
  else ids ++ [id].

(** [toggleTag] of [NoteEditor], through [handleChange]: the action it
    dispatches for the selected note; the new array is allocated at [ref]. *)
Definition toggleTag (selectedNote : Note) (tagId : string) (ref : nat) : AppAction :=
  let newTagIds := toggled (arr_items (note_tagIds selectedNote)) tagId in
  UPDATE_NOTE (note_id selectedNote)
    {| ch_title := None; ch_body := None;
       ch_tagIds := Some {| arr_ref := ref; arr_items := newTagIds |};
       ch_pinned := None; ch_archived := None; ch_createdAt := None;
       ch_updatedAt := None; ch_deletedAt := None |}.

(** [handleTagClick] of [TagFilter]. *)
Definition handleTagClick (filters : FilterState) (tagId : string) : AppAction :=
  let selectedTags := toggled (filter_tags filters) tagId in
  UPDATE_FILTERS
    {| fch_search := None; fch_tags := Some selectedTags; fch_showArchived := None;
       fch_showPinned := None; fch_showUntagged := None; fch_sortBy := None;
       fch_sortDirection := None |}.

(** The code units below 256 that [String.prototype.trim] strips. *)
Definition isTrimSpace (c : ascii) : bool :=
  let n := nat_of_ascii c in
  ((9 <=? n)%nat && (n <=? 13)%nat) || (n =? 32)%nat || (n =? 160)%nat.

Fixpoint trimStart (s : string) : string :=
  match s with
  | EmptyString => EmptyString
  | String c rest => if isTrimSpace c then trimStart rest else s
  end.

Fixpoint trimEnd (s : string) : string :=
  match s with
  | EmptyString => EmptyString
  | String c rest =>
      match trimEnd rest with
      | EmptyString => if isTrimSpace c then EmptyString else String c EmptyString
      | kept => String c kept
      end
  end.

(** [s.trim()] *)
Definition trim (s : string) : string := trimEnd (trimStart s).

(** [generateRandomColor], [hue] being [Math.floor(Math.random() * 360)]. *)
Definition generateRandomColor (hue : N) : string :=
  "hsl(" +:+ decimal hue +:+ ", 60%, 45%)".

(** [handleCreateTag] of [TagFilter]: the action it dispatches, if any. *)
Definition handleCreateTag (tags : list Tag) (newTagName : string) (hue : N)
    : option AppAction :=
  let trimmedName := trim newTagName in
  if String.eqb trimmedName "" then None
  else if existsb (fun tag => String.eqb (toLowerCase (tag_name tag))
                                         (toLowerCase trimmedName)) tags
  then None
  else Some (ADD_TAG {| nt_name := trimmedName;
                        nt_color := Some (generateRandomColor hue) |}).

(** [handleModeToggle] of [TagFilter]. *)
Definition handleModeToggle (preferences : Preferences) : AppAction :=
  UPDATE_PREFERENCES
    {| pch_theme := None; pch_density := None;
       pch_tagFilterMode := Some (match tagFilterMode preferences with
                                  | ANY => ALL
                                  | ALL => ANY
                                  end) |}.

(** [handleToggleArchive] of [NoteListItem]. *)
Definition handleToggleArchive (note : Note) : AppAction :=
  UPDATE_NOTE (note_id note)
    {| ch_title := None; ch_body := None; ch_tagIds := None; ch_pinned := None;
       ch_archived := Some (negb (note_archived note));
       ch_createdAt := None; ch_updatedAt := None; ch_deletedAt := None |}.

(** ** The [useLocalStorage] hook *)

(** [typeof value === 'object'], which holds of [null] too. *)
Definition typeofObject (value : json) : bool :=
  match value with
  | JNull | JArray _ | JObject _ => true
  | _ => false
  end.

Definition isNull (value : json) : bool :=
  match value with
  | JNull => true
  | _ => false
  end.

(** [key in value] for an object or an array, and a key that is neither an
    index nor [length]. *)
Definition hasKey (value : json) (key : string) : bool :=
  match getField value key with
  | Some _ => true
  | None => false
  end.

Definition isNote (value : json) : bool :=
  typeofObject value &&
  negb (isNull value) &&
  hasKey value "id" &&
  hasKey value "title" &&
  hasKey value "body" &&
  hasKey value "tagIds" &&
  hasKey value "pinned" &&
  hasKey value "archived" &&
  hasKey value "createdAt" &&
  hasKey value "updatedAt" &&
  isArray (getField value "tagIds").

Definition isTag (value : json) : bool :=
  typeofObject value &&
  negb (isNull value) &&
  hasKey value "id" &&
  hasKey value "name" &&
  hasKey value "createdAt" &&
  hasKey value "updatedAt".

Definition isPreferences (value : json) : bool :=
  typeofObject value &&
  negb (isNull value) &&
  hasKey value "theme" &&
  hasKey value "density" &&
  hasKey value "tagFilterMode".

(** [UseLocalStorageOptions]; [debounceMs] is the delay of the one pending
    timer and has no part in what is saved. *)
Record Options := mkOptions {
  validate : option (json -> bool);
  serialize : json -> string;
  skipEqual : bool
}.

(** The defaults of the destructured options. *)
Definition defaultOptions : Options :=
  {| validate := None; serialize := JSON_stringify; skipEqual := true |}.

(** The value of [error]: a caught [Error], or the [Error] made in its
    place when what was caught is not one. *)
Inductive HookError :=
| Caught (e : Exception)
| FailedToParse        (* new Error('Failed to parse stored value') *)
| FailedToSync         (* new Error('Failed to sync from storage event') *)
| FailedToSave.        (* new Error('Failed to save to localStorage') *)

(** [error instanceof Error]: the storage errors are plain objects. *)
Definition instanceofError (e : Exception) : bool :=
  match e with
  | ThrownStorageError _ => false
  | _ => true
  end.

Definition errorOr (fallback : HookError) (e : Exception) : HookError :=
  if instanceofError e then Caught e else fallback.

(** What the hook holds: [state], [error], the value the pending
    [saveOperation] closes over ([debounceTimerRef]) and [mountedRef]. *)
Record Hook := mkHook {
  hk_state : json;
  hk_error : option HookError;
  debounceTimer : option json;
  mounted : bool
}.

Definition setState (value : json) (hook : Hook) : Hook :=
  {| hk_state := value; hk_error := hk_error hook;
     debounceTimer := debounceTimer hook; mounted := mounted hook |}.

Definition setError (error : option HookError) (hook : Hook) : Hook :=
  {| hk_state := hk_state hook; hk_error := error;
     debounceTimer := debounceTimer hook; mounted := mounted hook |}.

(** [loadInitialValue]; [mounted] is read when the stored item has
    arrived. *)
Definition loadInitialValue (key : string) (initialValue : json) (options : Options)
    (hook : Hook) : Effect Hook :=
  let* available := Storage.isStorageAvailable in
  if negb available then ret hook
  else
    tryCatch
      (let* item := Storage.getStorageItem key in
       if negb (mounted hook) then ret hook
       else if isNull item then ret (setState initialValue hook)
       else
         (* Type-specific validation based on storage key *)
         let rejected :=
           if String.eqb key "app.notes.v1"
           then negb (Storage.everyElement isNote (Some item))
           else if String.eqb key "app.tags.v1"
           then negb (Storage.everyElement isTag (Some item))
           else if String.eqb key "app.preferences.v1" then negb (isPreferences item)
           else isArray (Some initialValue) && negb (isArray (Some item)) in
         if rejected then ret (setState initialValue hook)
         else
           (* Run custom validation if provided *)
           match validate options with
           | Some valid =>
               if negb (valid item) then ret (setState initialValue hook)
               else ret (setError None (setState item hook))
           | None => ret (setError None (setState item hook))
           end)
      (fun error =>
         ret (setState initialValue (setError (Some (errorOr FailedToParse error)) hook))).

(** [handleStorageChange] for an event with [e.key] and [e.newValue]. *)
Definition handleStorageChange (key : string) (options : Options)
    (eventKey newValue : option string) (hook : Hook) : Effect Hook :=
  match eventKey, newValue with
  | Some changed, Some _ =>
      if negb (String.eqb changed key) then ret hook
      else if negb (mounted hook) then ret hook
      else
        tryCatch
          (let* item := Storage.getStorageItem key in
           if negb (mounted hook) then ret hook
           else if isNull item then ret hook
           else
             let isValid :=
               if String.eqb key "app.notes.v1" then Storage.everyElement isNote (Some item)
               else if String.eqb key "app.tags.v1"
               then Storage.everyElement isTag (Some item)
               else if String.eqb key "app.preferences.v1" then isPreferences item
               else match validate options with
                    | Some valid => valid item
                    | None => true
                    end in
             if isValid then ret (setError None (setState item hook)) else ret hook)
          (fun error =>
             if mounted hook
             then ret (setError (Some (errorOr FailedToSync error)) hook)
             else ret hook)
  | _, _ => ret hook
  end.

(** [setValue]: the argument is a value or a function of the previous
    state.  A change replaces the pending timer by one for the new value. *)
Definition setValue (options : Options) (value : json + (json -> json)) (hook : Hook)
    : Hook :=
  let prevState := hk_state hook in
  let newValue := match value with
                  | inl v => v
                  | inr f => f prevState
                  end in
  (* Skip if value hasn't changed and skipEqual is true *)
  if skipEqual options
     && String.eqb (serialize options prevState) (serialize options newValue)
  then hook
  else {| hk_state := newValue; hk_error := hk_error hook;
          debounceTimer := Some newValue; mounted := mounted hook |}.

(** [saveOperation] for the value it closes over. *)
Definition saveOperation (key : string) (newValue : json) (hook : Hook) : Effect Hook :=
  if negb (mounted hook) then ret hook
  else
    tryCatch
      (let* _ := Storage.setStorageItem key newValue in
       if mounted hook then ret (setError None hook) else ret hook)
      (fun error =>
         if mounted hook
         then ret (setError (Some (errorOr FailedToSave error)) hook)
         else ret hook).

(** The delay has passed: the pending [saveOperation] runs. *)
Definition debounceElapsed (key : string) (hook : Hook) : Effect Hook :=
  match debounceTimer hook with
  | None => ret hook
  | Some newValue =>
      let* saved := saveOperation key newValue hook in
      ret {| hk_state := hk_state saved; hk_error := hk_error saved;
             debounceTimer := None; mounted := mounted saved |}
  end.

(** Calls of [setValue] one after the other. *)
Definition setValues (options : Options) (values : list (json + (json -> json)))
    (hook : Hook) : Hook :=
  List.fold_left (fun h value => setValue options value h) values hook.

(** *** Notions used in the statements about the store *)

(** Every tag id a note carries is the id of a tag of the state. *)
Definition tags_resolved (state : AppState) : Prop :=
  forall note tagId,
    In note (notes state) -> In tagId (arr_items (note_tagIds note)) ->
    In tagId (List.map tag_id (tags state)).

(** The tag ids an action brings in are ids of tags of the state; an import
    brings its own tags. *)
Definition action_tags_resolved (state : AppState) (action : AppAction) : Prop :=
  match action with
  | ADD_NOTE payload =>
      forall tagId, In tagId (arr_items (nn_tagIds payload)) ->
                    In tagId (List.map tag_id (tags state))
  | UPDATE_NOTE _ changes =>
      forall a tagId, ch_tagIds changes = Some a -> In tagId (arr_items a) ->
                      In tagId (List.map tag_id (tags state))
  | IMPORT_DATA notes' tags' _ =>
      forall note tagId, In note notes' -> In tagId (arr_items (note_tagIds note)) ->
                         In tagId (List.map tag_id tags')
  | _ => True
  end.

Definition tag_ids_unique (state : AppState) : Prop :=
  List.NoDup (List.map tag_id (tags state)).

(** The identifier handed out by the generator is not the id of a tag. *)
Definition uuid_fresh_for_tags (env : Env) (state : AppState) : Prop :=
  ~ In (env_uuid env) (List.map tag_id (tags state)).

(** No two tags have the same name up to case. *)
Definition tag_names_distinct (state : AppState) : Prop :=
  List.NoDup (List.map (fun tag => toLowerCase (tag_name tag)) (tags state)).

(** The test a note passes to be listed, all stages of [getFilteredNotes]
    in one. *)
Definition isListed (state : AppState) (note : Note) : bool :=
  let f := filters state in
  negb (truthy (note_deletedAt note))
  && (showArchived f || negb (note_archived note))
  && (match filter_tags f with
      | [] => true
      | _ => matchesTags (tagFilterMode (preferences state)) (filter_tags f) note
      end)
  && (negb (showUntagged f) || (length (arr_items (note_tagIds note)) =? 0)%nat)
  && (String.eqb (search f) "" || matchesSearch (toLowerCase (search f)) note).

(** The order of the dates of two notes in the direction of the sort; a
    field that is no date is in no order with anything. *)
Definition dateOrder (f : FilterState) (a b : Note) : Prop :=
  match sortDate (sortBy f) a, sortDate (sortBy f) b with
  | Some x, Some y =>
      match sortDirection f with
      | asc => x <= y
      | desc => y <= x
      end
  | _, _ => False
  end.

(** The sort field of every note of the state is a date. *)
Definition sortDates_valid (state : AppState) : Prop :=
  Forall (fun note => sortDate (sortBy (filters state)) note <> None) (notes state).

(** *** Notions used in the statements about the persistence manager *)

(** The three keys the application saves under. *)
Definition isDataKey (key : string) : Prop :=
  key = STORAGE_KEYS.NOTES \/ key = STORAGE_KEYS.TAGS \/ key = STORAGE_KEYS.PREFERENCES.

(** The keys of the earlier layout, which [handleQuotaExceeded] gives up. *)
Definition oldVersionedKeys : list string :=
  ["app.notes.v1"; "app.tags.v1"; "app.preferences.v1"].

(** What a save may remove to make room: backup snapshots and the keys of
    the earlier layout. *)
Definition expendable (k : string) : bool :=
  startsWith k STORAGE_KEYS.BACKUP_PREFIX || arrayIncludes oldVersionedKeys k.

(** [w'] is [w] with some expendable keys removed: nothing else differs,
    and no write takes more room than it did. *)
Definition pruned (w w' : World) : Prop :=
  ls_quota w' = ls_quota w /\
  dispatched w' = dispatched w /\
  (forall k, expendable k = false -> ls_entries w' !! k = ls_entries w !! k) /\
  (forall k v, (storageSize (<[k := v]> (ls_entries w'))
                <= storageSize (<[k := v]> (ls_entries w)))%N).

(** Every stored text is one the model can follow [JSON.parse] on. *)
Definition readable (w : World) : Prop :=
  forallb (fun entry => supported (snd entry)) (map_to_list (ls_entries w)) = true.

(** The world after [window.dispatchEvent(e)]. *)
Definition withEvent (e : Event) (w : World) : World :=
  {| ls_entries := ls_entries w; ls_quota := ls_quota w; dispatched := e :: dispatched w |}.

(** Calls of [debouncedSave] that follow each other within the delay. *)
Definition burst (calls : list (string * json)) (provider : Provider) : Provider :=
  List.fold_left (fun p call => debouncedSave (fst call) (snd call) p) calls provider.

(** The stored keys that are snapshots of [key]. *)
Definition backupsOf (key : string) (w : World) : list string :=
  List.filter (fun k => startsWith k (backupKeyPrefix key))
              (List.map fst (map_to_list (ls_entries w))).

(** The values of [STORAGE_KEYS] of the persistence manager. *)
Definition managerKeys : list string :=
  [STORAGE_KEYS.NOTES; STORAGE_KEYS.TAGS; STORAGE_KEYS.PREFERENCES;
   STORAGE_KEYS.BACKUP_PREFIX; STORAGE_KEYS.METADATA].

(** The hook after [saveOperation] has run for [pending]. *)
Definition afterSave (pending : json) (error : option HookError) : Hook :=
  {| hk_state := pending; hk_error := error; debounceTimer := None; mounted := true |}.

(** *** Sample data of the worked examples *)

Definition datedNotes : list Note :=
  [sampleNote "1" "x" (mkStrArray 1 []) 20;
   sampleNote "2" "y" (mkStrArray 2 []) 30;
   sampleNote "3" "z" (mkStrArray 3 []) 10].

Definition dateExample (field : SortOption) (direction : SortDirection) : AppState :=
  {| notes := datedNotes; tags := []; preferences := defaultPreferences;
     filters :=
       {| search := ""; filter_tags := []; showArchived := false;
          showPinned := true; showUntagged := false;
          sortBy := field; sortDirection := direction |};
     selectedNoteId := None; isEditing := false |}.

(** A note whose [updatedAt] is no date, as an import can bring in: the
    validators ask for a string only. *)
Definition undatedNote : Note :=
  {| note_id := "4"; note_title := "w"; note_body := ""; note_tagIds := mkStrArray 4 [];
     note_pinned := false; note_archived := false; note_createdAt := iso 5;
     note_updatedAt := noDate "yesterday"; note_deletedAt := undefined |}.

Definition homeTag : Tag :=
  {| tag_id := "x"; tag_name := "Home"; tag_color := None;
     tag_createdAt := iso 1; tag_updatedAt := iso 1 |}.

Definition workTag : Tag :=
  {| tag_id := "y"; tag_name := "Work"; tag_color := None;
     tag_createdAt := iso 1; tag_updatedAt := iso 1 |}.

(** Notes A (tags x), B (tags y) and C (tags x, y) with the two tags. *)
Definition taggedState : AppState :=
  {| notes := [noteA; noteB; noteC]; tags := [homeTag; workTag];
     preferences := defaultPreferences; filters := defaultFilters;
     selectedNoteId := Some "A"; isEditing := false |}.

Definition sampleEnvelope : json :=
  Storage.envelope (JArray [sampleNoteJson]) (JArray [sampleTagJson])
                   Storage.defaultPreferencesJson.

Definition freshHook (state : json) : Hook :=
  {| hk_state := state; hk_error := None; debounceTimer := None; mounted := true |}.

(** A store that holds the sample notes under the key of the versioned
    layout. *)
Definition versionedWorld : World :=
  putJson "app.notes.v1" (JArray [sampleNoteJson]) (emptyWorld 5000000).


(** * Properties *)

(** ** The reducer *)

Lemma mapAlloc_elem f ref l note :
  In note (mapAlloc f ref l) -> exists r original, In original l /\ note = f r original.
Proof.
  revert ref. induction l as [|x l IH]; intros ref; simpl; [tauto|].
  intros [<-|Hin].
  - exists ref, x. auto.
  - destruct (IH _ Hin) as (r & o & Ho & ->). exists r, o. auto.
Qed.

Lemma mapAlloc_ids f ref l :
  (forall r note, note_id (f r note) = note_id note) ->
  List.map note_id (mapAlloc f ref l) = List.map note_id l.
Proof.
  intros Hf. revert ref. induction l as [|x l IH]; intros ref; simpl; [reflexivity|].
  now rewrite Hf, IH.
Qed.

(** C1.  Dispatching [DELETE_TAG] yields, in the one reducer call, a state
    with no tag of that id and no note whose [tagIds] mentions it; the other
    tags are kept, and so are the notes (by id, in order) with their other
    tag ids. *)
Theorem delete_tag_cascades (env : Env) (state : AppState) (id : string) :
  let state' := appReducer env state (DELETE_TAG id) in
  (forall tag, In tag (tags state') -> tag_id tag <> id) /\
  (forall note, In note (notes state') -> ~ In id (arr_items (note_tagIds note))) /\
  (forall tag, In tag (tags state) -> tag_id tag <> id -> In tag (tags state')) /\
  List.map note_id (notes state') = List.map note_id (notes state).
Proof.
  simpl. repeat split.
  - intros tag Hin. apply filter_In in Hin as [_ Hne].
    apply negb_true_iff, String.eqb_neq in Hne. exact Hne.
  - intros note Hin Hid.
    apply mapAlloc_elem in Hin as (r & original & _ & ->).
    simpl in Hid. apply filter_In in Hid as [_ Hne].
    apply negb_true_iff, String.eqb_neq in Hne. now apply Hne.
  - intros tag Hin Hne. apply filter_In. split; [exact Hin|].
    apply negb_true_iff, String.eqb_neq. exact Hne.
  - apply mapAlloc_ids. reflexivity.
Qed.

Lemma find_none_by_id id (l : list Note) :
  (forall note, In note l -> note_id note <> id) ->
  List.find (fun note => String.eqb (note_id note) id) l = None.
Proof.
  induction l as [|x l IH]; simpl; intros H; [reflexivity|].
  destruct (String.eqb_spec (note_id x) id) as [Heq|_].
  - exfalso. apply (H x); auto.
  - apply IH. intros note Hin. apply H. auto.
Qed.

(** C10.  An [UPDATE_NOTE] whose id matches no note returns the very state it
    was given. *)
Theorem update_unknown_note_is_noop (env : Env) (state : AppState)
    (id : string) (changes : NoteChanges) :
  (forall note, In note (notes state) -> note_id note <> id) ->
  appReducer env state (UPDATE_NOTE id changes) = state.
Proof.
  intros Hnone. simpl. now rewrite find_none_by_id.
Qed.

Lemma update_unknown_note_is_noop_witness :
  appReducer (mkEnv 10 "u" 1) oneNoteState
    (UPDATE_NOTE "n2"
       {| ch_title := Some "renamed"; ch_body := None; ch_tagIds := None;
          ch_pinned := None; ch_archived := None; ch_createdAt := None;
          ch_updatedAt := None; ch_deletedAt := None |})
  = oneNoteState.
Proof.
  apply update_unknown_note_is_noop.
  intros note [<-|[]]. simpl. discriminate.
Defined.

Lemma differs_repeats {A} (same : A -> A -> bool) (current : A) (change : option A) :
  (forall a, same a a = true) ->
  repeats current change -> differs same current change = false.
Proof.
  intros Hrefl Hrep. destruct change as [v|]; simpl; [|reflexivity].
  rewrite (Hrep v eq_refl), Hrefl. reflexivity.
Qed.

Lemma timestamp_same_refl (a : Timestamp) : timestamp_same a a = true.
Proof. destruct a; simpl; [apply Z.eqb_refl | apply String.eqb_refl]. Qed.

Lemma nullable_same_refl (a : Nullable Timestamp) : nullable_same a a = true.
Proof. destruct a; simpl; auto using timestamp_same_refl. Qed.

Lemma hasChanges_identical target changes :
  identical_to target changes -> hasChanges target changes = false.
Proof.
  intros (Ht & Hb & Ha & Hp & Hr & Hc & Hu & Hd). unfold hasChanges.
  rewrite (differs_repeats _ _ _ String.eqb_refl Ht).
  rewrite (differs_repeats _ _ _ String.eqb_refl Hb).
  rewrite (differs_repeats array_same _ _ (fun a => Nat.eqb_refl _) Ha).
  rewrite (differs_repeats Bool.eqb _ _ Bool.eqb_reflx Hp).
  rewrite (differs_repeats Bool.eqb _ _ Bool.eqb_reflx Hr).
  rewrite (differs_repeats _ _ _ timestamp_same_refl Hc).
  rewrite (differs_repeats _ _ _ timestamp_same_refl Hu).
  rewrite (differs_repeats _ _ _ nullable_same_refl Hd).
  reflexivity.
Qed.

(** C5.  When the note found for the id has, for every field the payload
    carries, the identical value, [UPDATE_NOTE] returns the state it was
    given: the same notes collection, in which that note keeps its
    [updatedAt]. *)
Theorem update_identical_is_noop (env : Env) (state : AppState) (id : string)
    (target : Note) (changes : NoteChanges) :
  List.find (fun note => String.eqb (note_id note) id) (notes state) = Some target ->
  identical_to target changes ->
  let state' := appReducer env state (UPDATE_NOTE id changes) in
  state' = state /\
  notes state' = notes state /\
  exists kept,
    List.find (fun note => String.eqb (note_id note) id) (notes state') = Some kept /\
    note_updatedAt kept = note_updatedAt target.
Proof.
  intros Hfind Hsame. simpl. rewrite Hfind, (hasChanges_identical _ _ Hsame). simpl.
  repeat split. exists target. auto.
Qed.

Lemma update_identical_is_noop_witness :
  let state' :=
    appReducer (mkEnv 10 "u" 1) oneNoteState (UPDATE_NOTE "n1" (renameChanges "first")) in
  state' = oneNoteState /\
  notes state' = notes oneNoteState /\
  exists kept,
    List.find (fun note => String.eqb (note_id note) "n1") (notes state') = Some kept /\
    note_updatedAt kept = iso 5.
Proof.
  apply (update_identical_is_noop (mkEnv 10 "u" 1) oneNoteState "n1"
           (sampleNote "n1" "first" (mkStrArray 0 []) 5) (renameChanges "first")).
  - reflexivity.
  - repeat split; intros v Hv; simpl in Hv; simpl; congruence.
Defined.

(** The comparison is [!==]: a payload whose [tagIds] is another array with
    the same elements counts as a change, and the note's [updatedAt] moves. *)
Lemma update_with_copied_tagIds_bumps :
  notes (appReducer (mkEnv 10 "u" 1) oneNoteState
           (UPDATE_NOTE "n1"
              {| ch_title := None; ch_body := None;
                 ch_tagIds := Some (mkStrArray 7 []); ch_pinned := None;
                 ch_archived := None; ch_createdAt := None; ch_updatedAt := None;
                 ch_deletedAt := None |}))
  = [ {| note_id := "n1"; note_title := "first"; note_body := "";
         note_tagIds := mkStrArray 7 []; note_pinned := false;
         note_archived := false; note_createdAt := iso 5; note_updatedAt := iso 10;
         note_deletedAt := undefined |} ].
Proof. reflexivity. Qed.

(** *** The note invariant along runs *)

Lemma map_ids_preserved (f : Note -> Note) (l : list Note) :
  (forall note, note_id (f note) = note_id note) ->
  List.map note_id (List.map f l) = List.map note_id l.
Proof.
  intros Hf. rewrite List.map_map. apply List.map_ext. exact Hf.
Qed.

Lemma note_step_keeps_invariant env state action :
  is_note_action action = true ->
  keeps_createdAt action ->
  uuid_fresh env state ->
  clock_not_behind env state ->
  note_invariant state ->
  note_invariant (appReducer env state action).
Proof.
  intros Hact Hkeep Hfresh Hclock [Hids Hts].
  unfold note_invariant, ids_unique, updated_after_created in *.
  destruct action; try discriminate; simpl.
  - split.
    + simpl. constructor; [exact Hfresh | exact Hids].
    + constructor; [unfold notAfter; simpl; lia | exact Hts].
  - destruct (List.find _ (notes state)); [|split; assumption].
    destruct (hasChanges n changes); simpl; [|split; assumption].
    split.
    + rewrite map_ids_preserved; [assumption|].
      intros note. now destruct (String.eqb (note_id note) id).
    + simpl in Hkeep. unfold clock_not_behind in Hclock.
      rewrite List.Forall_forall in *. intros note Hin.
      apply List.in_map_iff in Hin as (original & <- & Hin).
      destruct (String.eqb (note_id original) id); [|auto].
      simpl. rewrite Hkeep. simpl. auto.
  - split.
    + rewrite map_ids_preserved; [assumption|].
      intros note. now destruct (String.eqb (note_id note) id).
    + rewrite List.Forall_forall in *. intros note Hin.
      apply List.in_map_iff in Hin as (original & <- & Hin).
      destruct (String.eqb (note_id original) id); simpl; auto.
  - split.
    + rewrite map_ids_preserved; [assumption|].
      intros note. now destruct (String.eqb (note_id note) id).
    + rewrite List.Forall_forall in *. intros note Hin.
      apply List.in_map_iff in Hin as (original & <- & Hin).
      destruct (String.eqb (note_id original) id); simpl; auto.
Qed.

(** C2, amended.  Along every run of Add/Update/Delete/Restore actions in
    which the generated ids are fresh, the clock is never behind the creation
    time of an existing note and no update payload carries [createdAt], the
    note ids stay pairwise distinct and every note keeps
    [createdAt <= updatedAt]. *)
Theorem note_invariant_along_runs (state : AppState) (trace : list (Env * AppAction)) :
  Forall (fun step => is_note_action (snd step) = true) trace ->
  Forall (fun step => keeps_createdAt (snd step)) trace ->
  env_sound state trace ->
  note_invariant state ->
  note_invariant (dispatchAll state trace).
Proof.
  revert state. induction trace as [|[env action] trace IH]; intros state Hact Hkeep Henv Hinv.
  - exact Hinv.
  - inversion Hact; inversion Hkeep; subst. destruct Henv as (Hfresh & Hclock & Henv).
    simpl. apply IH; try assumption.
    now apply note_step_keeps_invariant.
Qed.

Lemma note_invariant_along_runs_witness :
  note_invariant (dispatchAll oneNoteState sampleRun).
Proof.
  apply note_invariant_along_runs.
  - repeat constructor.
  - repeat constructor.
  - simpl. unfold uuid_fresh, clock_not_behind. simpl.
    repeat split; try (repeat constructor; unfold notAfter; simpl; lia);
      intros H; repeat (destruct H as [H|H]; [discriminate H|]); exact H.
  - split.
    + unfold ids_unique. simpl. repeat constructor. simpl. tauto.
    + unfold updated_after_created. simpl. repeat constructor. unfold notAfter. simpl. lia.
Defined.

(** C2, as written, fails: an update may carry a [createdAt] later than the
    clock, after which the note has [updatedAt < createdAt]. *)
Lemma note_invariant_broken_by_backdating : ~ note_invariant_kept_by_all_runs.
Proof.
  intros Hclaim.
  assert (Hbad : note_invariant
                   (dispatchAll oneNoteState
                      [(mkEnv 10 "u" 1, UPDATE_NOTE "n1" backdatedChanges)])).
  { apply Hclaim.
    - repeat constructor.
    - simpl. unfold uuid_fresh, clock_not_behind. simpl.
      repeat split; try (repeat constructor; unfold notAfter; simpl; lia).
      intros [H|[]]. discriminate H.
    - split.
      + unfold ids_unique. simpl. repeat constructor. simpl. tauto.
      + unfold updated_after_created. simpl. repeat constructor. unfold notAfter. simpl. lia. }
  destruct Hbad as [_ Hts]. unfold updated_after_created in Hts. simpl in Hts.
  inversion Hts as [|? ? Hle _]. unfold notAfter in Hle. simpl in Hle. lia.
Qed.

(** ** Sorting *)

Lemma insertSorted_perm {A} (compare : A -> A -> Z) x l :
  Permutation (insertSorted compare x l) (x :: l).
Proof.
  induction l as [|y l IH]; simpl; [reflexivity|].
  destruct (compare x y <=? 0); [reflexivity|].
  rewrite IH. apply perm_swap.
Qed.

Lemma arraySort_perm {A} (compare : A -> A -> Z) l :
  Permutation (arraySort compare l) l.
Proof.
  induction l as [|x l IH]; simpl; [reflexivity|].
  unfold arraySort in *. simpl. rewrite insertSorted_perm. now constructor.
Qed.

Lemma arraySort_In {A} (compare : A -> A -> Z) l x :
  In x (arraySort compare l) <-> In x l.
Proof.
  split; apply Permutation_in; [|symmetry]; apply arraySort_perm.
Qed.

Lemma insertSorted_sorted {A} (compare : A -> A -> Z) x l :
  Consistent compare ->
  StronglySorted (fun a b => compare a b <= 0) l ->
  StronglySorted (fun a b => compare a b <= 0) (insertSorted compare x l).
Proof.
  intros [Htotal Htrans]. induction l as [|y l IH]; intros Hsorted; simpl.
  - repeat constructor.
  - apply StronglySorted_inv in Hsorted as [Hl Hy].
    destruct (Z.leb_spec (compare x y) 0) as [Hle|Hgt].
    + constructor; [constructor; assumption|].
      constructor; [exact Hle|].
      rewrite List.Forall_forall in *. intros z Hz. eapply Htrans; eauto.
    + constructor; [auto|].
      rewrite List.Forall_forall in *. intros z Hz.
      apply (Permutation_in _ (insertSorted_perm compare x l)) in Hz.
      destruct Hz as [<-|Hz]; auto.
Qed.

Lemma arraySort_sorted {A} (compare : A -> A -> Z) l :
  Consistent compare ->
  StronglySorted (fun a b => compare a b <= 0) (arraySort compare l).
Proof.
  intros Hc. induction l as [|x l IH]; simpl; [constructor|].
  now apply insertSorted_sorted.
Qed.

(** ** Selectors *)

Lemma arrayIncludes_In ids id : arrayIncludes ids id = true <-> In id ids.
Proof.
  unfold arrayIncludes. rewrite List.existsb_exists. split.
  - intros (x & Hin & Heq). apply String.eqb_eq in Heq. now subst.
  - intros Hin. exists id. split; [exact Hin | apply String.eqb_refl].
Qed.

Lemma matchesTags_spec mode filterTags note :
  matchesTags mode filterTags note = true <-> tag_condition mode filterTags note.
Proof.
  destruct mode; simpl.
  - rewrite List.existsb_exists. split.
    + intros (id & Hin & Hf). exists id. split; [exact Hin | now apply arrayIncludes_In].
    + intros (id & Hin & Hf). exists id. split; [exact Hin | now apply arrayIncludes_In].
  - rewrite List.forallb_forall. split.
    + intros H id Hin. apply arrayIncludes_In. auto.
    + intros H id Hin. apply arrayIncludes_In. auto.
Qed.

(** C7.  With a non-empty set of filter tags, the notes [getFilteredNotes]
    returns are exactly the notes that pass the other stages of the pipeline
    (not deleted, not archived unless shown, untagged and search filters) and
    that, under [ANY], have at least one of the filter tags and, under [ALL],
    have every filter tag. *)
Theorem filtered_notes_match_tags (localeCompare : string -> string -> Z)
    (state : AppState) (note : Note) :
  filter_tags (filters state) <> [] ->
  (In note (getFilteredNotes localeCompare state) <->
   In note (notes state) /\
   truthy (note_deletedAt note) = false /\
   (showArchived (filters state) = false -> note_archived note = false) /\
   tag_condition (tagFilterMode (preferences state)) (filter_tags (filters state)) note /\
   (showUntagged (filters state) = true -> arr_items (note_tagIds note) = []) /\
   (search (filters state) <> ""%string ->
    matchesSearch (toLowerCase (search (filters state))) note = true)).
Proof.
  intros Hne. unfold getFilteredNotes.
  destruct state as [ns ts prefs [srch ftags sArch sPin sUnt sBy sDir] sel ed]; simpl in *.
  assert (Hlen : (0 <? length ftags)%nat = true).
  { destruct ftags; [congruence | reflexivity]. }
  rewrite Hlen.
  set (sorted := arraySort _ _).
  assert (Hpin : In note (if sPin
                          then List.filter (fun n => note_pinned n) sorted
                               ++ List.filter (fun n => negb (note_pinned n)) sorted
                          else sorted) <-> In note sorted).
  { destruct sPin; [|reflexivity].
    rewrite List.in_app_iff, !List.filter_In.
    destruct (note_pinned note); simpl; intuition congruence. }
  rewrite Hpin. unfold sorted. rewrite arraySort_In. clear Hpin sorted.
  rewrite <- matchesTags_spec.
  destruct (String.eqb_spec srch ""); destruct sUnt; destruct sArch; simpl;
    rewrite ?List.filter_In, ?negb_true_iff, ?Nat.eqb_eq, ?length_zero_iff_nil;
    intuition (try congruence).
Qed.

Lemma filtered_notes_match_tags_witness :
  In noteA (getFilteredNotes codeUnitCompare (tagExample ANY ["x"])) /\
  In noteC (getFilteredNotes codeUnitCompare (tagExample ANY ["x"])) /\
  ~ In noteB (getFilteredNotes codeUnitCompare (tagExample ANY ["x"])).
Proof.
  assert (Hne : filter_tags (filters (tagExample ANY ["x"])) <> []) by discriminate.
  repeat split.
  - apply (filtered_notes_match_tags codeUnitCompare _ noteA Hne). simpl.
    repeat split; try tauto; try congruence. exists "x"%string. simpl. tauto.
  - apply (filtered_notes_match_tags codeUnitCompare _ noteC Hne). simpl.
    repeat split; try tauto; try congruence. exists "x"%string. simpl. tauto.
  - intros Hin.
    apply (filtered_notes_match_tags codeUnitCompare _ noteB Hne) in Hin.
    destruct Hin as (_ & _ & _ & (id & Hid & Hf) & _). simpl in Hid, Hf.
    destruct Hid as [<-|[]]. destruct Hf as [Hf|[]]. discriminate Hf.
Defined.

(** The example of the specification: notes A (tags x), B (tags y) and
    C (tags x, y), in the default order (most recently updated first). *)
Lemma filter_any_example localeCompare :
  getFilteredNotes localeCompare (tagExample ANY ["x"]) = [noteC; noteA].
Proof. reflexivity. Qed.

Lemma filter_all_example localeCompare :
  getFilteredNotes localeCompare (tagExample ALL ["x"; "y"]) = [noteC].
Proof. reflexivity. Qed.

(** Search ignores case: the body "Meeting Notes" matches the query "notes". *)
Lemma search_example localeCompare :
  getFilteredNotes localeCompare (searchExample "notes") = [meetingNote].
Proof. reflexivity. Qed.

(** *** Code-unit comparison is a consistent comparison function *)

Lemma string_compare_trans (a b c : string) :
  String.compare a b <> Gt -> String.compare b c <> Gt -> String.compare a c <> Gt.
Proof.
  revert b c. induction a as [|x a IH]; intros [|y b] [|z c]; simpl; try congruence.
  destruct (Ascii.compare x y) eqn:Hxy; [| |congruence];
    destruct (Ascii.compare y z) eqn:Hyz; try congruence.
  - apply Ascii.compare_eq_iff in Hxy, Hyz. subst.
    assert (Hzz : Ascii.compare z z = Eq) by apply N.compare_refl.
    rewrite Hzz. apply IH.
  - apply Ascii.compare_eq_iff in Hxy. subst. rewrite Hyz. congruence.
  - apply Ascii.compare_eq_iff in Hyz. subst. rewrite Hxy. congruence.
  - unfold Ascii.compare in *. rewrite N.compare_lt_iff in Hxy, Hyz.
    assert (Hxz : (N_of_ascii x ?= N_of_ascii z)%N = Lt).
    { apply N.compare_lt_iff. eapply N.lt_trans; eauto. }
    rewrite Hxz. congruence.
Qed.

Lemma codeUnitCompare_consistent : Consistent codeUnitCompare.
Proof.
  split; unfold codeUnitCompare.
  - intros a b. rewrite (String.compare_antisym b a).
    destruct (String.compare a b); simpl; lia.
  - intros a b c Hab Hbc.
    assert (H := string_compare_trans a b c).
    destruct (String.compare a b); destruct (String.compare b c);
      destruct (String.compare a c); try lia; exfalso; apply H; congruence.
Qed.

Lemma titleCompare_consistent (localeCompare : string -> string -> Z) (f : FilterState) :
  Consistent localeCompare ->
  sortBy f = sortTitle -> sortDirection f = asc ->
  Consistent (sortCompare (compareNotes localeCompare f)).
Proof.
  intros [Htotal Htrans] Hby Hdir. unfold sortCompare, compareNotes. rewrite Hby, Hdir.
  split.
  - intros a b. apply Htotal.
  - intros a b c. apply Htrans.
Qed.

Lemma filter_strongly_sorted {A} (R : A -> A -> Prop) (p : A -> bool) (l : list A) :
  StronglySorted R l -> StronglySorted R (List.filter p l).
Proof.
  induction 1 as [|x l Hl IH Hx]; simpl; [constructor|].
  destruct (p x); [|exact IH].
  constructor; [exact IH|].
  rewrite List.Forall_forall in *. intros y Hy. apply List.filter_In in Hy as [Hy _]. auto.
Qed.

Lemma strongly_sorted_weaken {A} (R R' : A -> A -> Prop) (l : list A) :
  (forall a b, R a b -> R' a b) -> StronglySorted R l -> StronglySorted R' l.
Proof.
  intros Himpl. induction 1 as [|x l Hl IH Hx]; constructor; [exact IH|].
  eapply List.Forall_impl; [|exact Hx]. intros y. apply Himpl.
Qed.

(** C8, amended.  For a consistent collation [localeCompare]:
    - sorted by title, ascending, the notes come out in collation order of
      their titles (shown on the sequence before pinned notes are moved, and
      on each of the two partitions);
    - when [showPinned] is set, the result is the pinned notes of that sorted
      sequence followed by its unpinned notes, each group in the order of the
      sorted sequence, whatever the sort field and direction;
    - titles b, a, c come out as a, b, c in every collation that puts
      a before b and b before c. *)
Theorem filtered_notes_sorted_and_pinned (localeCompare : string -> string -> Z)
    (state : AppState) :
  Consistent localeCompare ->
  let sorted := getFilteredNotes localeCompare (withShowPinned false state) in
  let pinned := List.filter (fun note => note_pinned note) sorted in
  let unpinned := List.filter (fun note => negb (note_pinned note)) sorted in
  (sortBy (filters state) = sortTitle -> sortDirection (filters state) = asc ->
   StronglySorted (titleOrder localeCompare) sorted /\
   StronglySorted (titleOrder localeCompare) pinned /\
   StronglySorted (titleOrder localeCompare) unpinned) /\
  getFilteredNotes localeCompare (withShowPinned true state) = pinned ++ unpinned /\
  Forall (fun note => note_pinned note = true) pinned /\
  Forall (fun note => note_pinned note = false) unpinned /\
  (0 < localeCompare "b" "a" -> localeCompare "a" "c" <= 0 -> localeCompare "b" "c" <= 0 ->
   forall pinnedToTop,
     List.map note_title (getFilteredNotes localeCompare (titleExample pinnedToTop))
     = ["a"; "b"; "c"]%string).
Proof.
  intros Hc sorted pinned unpinned. split; [|split; [|split; [|split]]].
  - intros Hby Hdir.
    assert (Hsorted : StronglySorted (titleOrder localeCompare) sorted).
    { unfold sorted, getFilteredNotes. simpl.
      set (f := mkFilterState _ _ _ false _ _ _).
      apply (strongly_sorted_weaken
               (fun a b => sortCompare (compareNotes localeCompare f) a b <= 0)).
      - intros a b. unfold sortCompare, compareNotes, titleOrder, f. simpl.
        now rewrite Hby, Hdir.
      - apply arraySort_sorted. apply titleCompare_consistent; assumption. }
    repeat split; [exact Hsorted | |]; now apply filter_strongly_sorted.
  - reflexivity.
  - apply List.Forall_forall. intros note Hin.
    apply List.filter_In in Hin as [_ Hp]. exact Hp.
  - apply List.Forall_forall. intros note Hin.
    apply List.filter_In in Hin as [_ Hp]. now apply negb_true_iff.
  - intros Hba Hac Hbc pinnedToTop.
    unfold getFilteredNotes, titleExample, arraySort, sortCompare, compareNotes. simpl.
    destruct (Z.leb_spec (localeCompare "a" "c") 0) as [_|Hgt]; [|lia]. simpl.
    destruct (Z.leb_spec (localeCompare "b" "a") 0) as [Hle|_]; [lia|]. simpl.
    destruct (Z.leb_spec (localeCompare "b" "c") 0) as [_|Hgt]; [|lia].
    destruct pinnedToTop; reflexivity.
Qed.

Lemma filtered_notes_sorted_and_pinned_witness :
  List.map note_title (getFilteredNotes codeUnitCompare (titleExample true))
  = ["a"; "b"; "c"]%string.
Proof.
  destruct (filtered_notes_sorted_and_pinned codeUnitCompare (titleExample true)
              codeUnitCompare_consistent) as (_ & _ & _ & _ & Hexample).
  apply Hexample; vm_compute; congruence.
Defined.

Lemma caseBlindCompare_consistent : Consistent caseBlindCompare.
Proof.
  destruct codeUnitCompare_consistent as [Htotal Htrans].
  split; unfold caseBlindCompare.
  - intros a b. apply Htotal.
  - intros a b c. apply Htrans.
Qed.

(** Under the collation that ignores case the titles B, a are listed as
    a, B. *)
Lemma case_blind_title_order :
  List.map note_title (getFilteredNotes caseBlindCompare caseExample) = ["a"; "B"]%string.
Proof. vm_compute. reflexivity. Qed.

(** C8, as written, fails: the order of the titles is the collation of
    the host, and a collation that ignores case lists a before B, which
    the lexicographic order of the code units puts after it. *)
Lemma title_sort_not_lexicographic : ~ title_sort_is_lexicographic.
Proof.
  intros Hclaim.
  specialize (Hclaim caseBlindCompare caseExample caseBlindCompare_consistent
                eq_refl eq_refl).
  assert (Hlist : getFilteredNotes caseBlindCompare (withShowPinned false caseExample)
                  = [sampleNote "2" "a" (mkStrArray 2 []) 2;
                     sampleNote "1" "B" (mkStrArray 1 []) 1])
    by (vm_compute; reflexivity).
  rewrite Hlist in Hclaim. apply StronglySorted_inv in Hclaim as [_ Hfirst].
  apply Forall_inv in Hfirst. vm_compute in Hfirst. apply Hfirst. reflexivity.
Qed.

(** ** The JSON codec: what is written is read back *)

Lemma json_ind (P : json -> Prop) :
  P JNull ->
  (forall b, P (JBool b)) ->
  (forall n, P (JNumber n)) ->
  (forall s, P (JString s)) ->
  (forall items, Forall P items -> P (JArray items)) ->
  (forall members, Forall (fun member => P (snd member)) members -> P (JObject members)) ->
  forall value, P value.
Proof.
  intros Hnull Hbool Hnum Hstr Harr Hobj.
  fix IH 1. intros [| b | n | s | items | members].
  - exact Hnull.
  - apply Hbool.
  - apply Hnum.
  - apply Hstr.
  - apply Harr. induction items as [|item items IHitems]; constructor.
    + apply IH.
    + exact IHitems.
  - apply Hobj. induction members as [|[key value] members IHmembers]; constructor.
    + apply IH.
    + exact IHmembers.
Qed.

Lemma parseStringBody_quoteCharTo (c : ascii) (rest : string) :
  parseStringBody (quoteCharTo c rest) = consChar c (parseStringBody rest).
Proof.
  destruct c as [[] [] [] [] [] [] [] []]; reflexivity.
Qed.

Lemma parseStringBody_quoteBodyTo (s k : string) :
  parseStringBody (quoteBodyTo s (String quoteMark k)) = Some (s, k).
Proof.
  induction s as [|c s IH]; simpl; [reflexivity|].
  now rewrite parseStringBody_quoteCharTo, IH.
Qed.

Lemma append_String (c : ascii) (s k : string) : String c s +:+ k = String c (s +:+ k).
Proof. reflexivity. Qed.

Lemma append_length (s k : string) :
  String.length (s +:+ k) = (String.length s + String.length k)%nat.
Proof.
  induction s as [|c s IH]; [reflexivity|].
  rewrite append_String. simpl. now rewrite IH.
Qed.

Lemma spanDigits_uint (d : Decimal.uint) (k : string) :
  noDigitAhead k ->
  spanDigits (NilEmpty.string_of_uint d +:+ k) = (NilEmpty.string_of_uint d, k).
Proof.
  intros Hk. induction d; simpl NilEmpty.string_of_uint;
    rewrite ?append_String; simpl; rewrite ?IHd; try reflexivity.
  destruct k as [|c k]; simpl in *; [reflexivity|]. now rewrite Hk.
Qed.

Lemma N_to_uint_nonnil (n : N) : N.to_uint n <> Decimal.Nil.
Proof.
  destruct n; simpl; [discriminate | apply Unsigned.to_uint_nonnil].
Qed.

Lemma naturalToString_digits (n : N) :
  naturalToString n = NilEmpty.string_of_uint (N.to_uint n).
Proof.
  unfold naturalToString, NilZero.string_of_uint.
  destruct (N.to_uint n) eqn:Hn; try reflexivity.
  now apply N_to_uint_nonnil in Hn.
Qed.

Lemma parseDigits_naturalToString (n : N) : parseDigits (naturalToString n) = Some n.
Proof.
  unfold parseDigits, naturalToString at 1.
  rewrite NilZero.usu by apply N_to_uint_nonnil.
  rewrite DecimalN.Unsigned.of_to, String.eqb_refl. reflexivity.
Qed.

Lemma naturalToString_head (n : N) :
  exists c rest, naturalToString n = String c rest /\ isDigit c = true.
Proof.
  rewrite naturalToString_digits.
  destruct (N.to_uint n) eqn:Hn; simpl; eauto.
  now apply N_to_uint_nonnil in Hn.
Qed.

Lemma spanDigits_natural (n : N) (k : string) :
  noDigitAhead k -> spanDigits (naturalToString n +:+ k) = (naturalToString n, k).
Proof.
  intros Hk. rewrite naturalToString_digits. now apply spanDigits_uint.
Qed.

Lemma parseNumber_numberToString (n : Z) (k : string) :
  noDigitAhead k -> parseNumber (numberToString n +:+ k) = Some (JNumber n, k).
Proof.
  intros Hk. unfold numberToString.
  destruct (Z.ltb_spec n 0) as [Hneg|Hpos].
  - rewrite append_String. simpl.
    rewrite spanDigits_natural, parseDigits_naturalToString by exact Hk.
    do 3 f_equal. lia.
  - destruct (naturalToString_head (Z.abs_N n)) as (c & rest & Heq & Hc).
    pose proof (spanDigits_natural (Z.abs_N n) k Hk) as Hspan.
    pose proof (parseDigits_naturalToString (Z.abs_N n)) as Hparse.
    rewrite Heq in *. rewrite append_String in *. unfold parseNumber.
    assert (Hminus : Ascii.eqb c "-" = false).
    { destruct (Ascii.eqb_spec c "-") as [->|]; [discriminate Hc | reflexivity]. }
    rewrite Hminus, Hspan, Hparse. do 3 f_equal. lia.
Qed.

Lemma numberToString_head (n : Z) :
  exists c rest,
    numberToString n = String c rest /\ (isDigit c = true \/ c = "-"%char).
Proof.
  unfold numberToString. destruct (n <? 0).
  - eauto.
  - destruct (naturalToString_head (Z.abs_N n)) as (c & rest & -> & Hc). eauto.
Qed.

(** *** Whitespace *)

Lemma skipWhitespace_idempotent (s : string) :
  skipWhitespace (skipWhitespace s) = skipWhitespace s.
Proof.
  induction s as [|c s IH]; simpl; [reflexivity|].
  destruct (isWhitespace c) eqn:Hc; [exact IH|]. simpl. now rewrite Hc.
Qed.

Lemma skipWhitespace_spacesTo (n : nat) (k : string) :
  skipWhitespace (spacesTo n k) = skipWhitespace k.
Proof. induction n as [|n IH]; [reflexivity | exact IH]. Qed.

Lemma skipWhitespace_newlineTo (gap indent : nat) (k : string) :
  skipWhitespace (newlineTo gap indent k) = skipWhitespace k.
Proof.
  destruct gap; [reflexivity|]. simpl. apply skipWhitespace_spacesTo.
Qed.

Lemma peekIs_ws (c : ascii) (s s' : string) :
  skipWhitespace s = skipWhitespace s' -> peekIs c s = peekIs c s'.
Proof. unfold peekIs. now intros ->. Qed.

Lemma parseValue_ws (fuel : nat) (s s' : string) :
  skipWhitespace s = skipWhitespace s' -> parseValue fuel s = parseValue fuel s'.
Proof. destruct fuel; simpl; [reflexivity|]. now intros ->. Qed.

Lemma parseElements_ws (fuel : nat) (s s' : string) :
  skipWhitespace s = skipWhitespace s' -> parseElements fuel s = parseElements fuel s'.
Proof.
  destruct fuel; simpl; [reflexivity|]. intros H. now rewrite (parseValue_ws _ _ _ H).
Qed.

Lemma parseMembers_ws (fuel : nat) (s s' : string) :
  skipWhitespace s = skipWhitespace s' -> parseMembers fuel s = parseMembers fuel s'.
Proof.
  destruct fuel; simpl; [reflexivity|]. intros H. now rewrite (peekIs_ws _ _ _ H).
Qed.

Lemma startsValue_facts (c : ascii) :
  startsValue c = true ->
  isWhitespace c = false /\ Ascii.eqb c "]" = false /\ Ascii.eqb c "}" = false /\
  Ascii.eqb c "," = false.
Proof.
  destruct c as [[] [] [] [] [] [] [] []]; vm_compute; intuition congruence.
Qed.

Lemma parseValue_number (fuel : nat) (c : ascii) (rest : string) :
  isDigit c = true \/ c = "-"%char ->
  parseValue (S fuel) (String c rest) = parseNumber (String c rest).
Proof.
  intros [Hc| ->]; [|reflexivity].
  destruct c as [[] [] [] [] [] [] [] []]; try discriminate Hc; reflexivity.
Qed.

Lemma serializeTo_head (gap indent : nat) (value : json) (k : string) :
  exists c rest, serializeTo gap indent value k = String c rest /\ startsValue c = true.
Proof.
  destruct value as [| [] | n | s | [|first items] | [|first members]]; simpl; eauto.
  destruct (numberToString_head n) as (c & rest & -> & Hc).
  rewrite append_String. exists c, (rest +:+ k). split; [reflexivity|].
  unfold startsValue. destruct Hc as [-> | ->]; reflexivity.
Qed.

Lemma skipWhitespace_serializeTo (gap indent : nat) (value : json) (k : string) :
  skipWhitespace (serializeTo gap indent value k) = serializeTo gap indent value k.
Proof.
  destruct (serializeTo_head gap indent value k) as (c & rest & -> & Hc).
  apply startsValue_facts in Hc as (Hws & _). simpl. now rewrite Hws.
Qed.

Lemma peekIs_serializeTo_miss (d : ascii) (gap indent : nat) (value : json) (k : string) :
  d = "]"%char \/ d = "}"%char \/ d = ","%char ->
  peekIs d (serializeTo gap indent value k) = None.
Proof.
  intros Hd. unfold peekIs. rewrite skipWhitespace_serializeTo.
  destruct (serializeTo_head gap indent value k) as (c & rest & -> & Hc).
  apply startsValue_facts in Hc as (_ & H1 & H2 & H3).
  destruct Hd as [->|[->| ->]]; now rewrite ?H1, ?H2, ?H3.
Qed.

Lemma noDigitAhead_newlineTo (gap indent : nat) (c : ascii) (k : string) :
  isDigit c = false -> noDigitAhead (newlineTo gap indent (String c k)).
Proof. intros Hc. destruct gap; simpl; [exact Hc | reflexivity]. Qed.

Lemma noDigitAhead_restTo {A} (one : A -> string -> string) separator l
    (gap indent : nat) (c : ascii) (k : string) :
  isDigit c = false ->
  noDigitAhead (restTo one separator l (newlineTo gap indent (String c k))).
Proof.
  intros Hc. destruct l; simpl; [now apply noDigitAhead_newlineTo | reflexivity].
Qed.

(** *** Reading back arrays and objects *)

Lemma parseValue_array (fuel : nat) (rest : string) :
  parseValue (S fuel) (String "[" rest) =
  match peekIs "]" rest with
  | Some after => Some (JArray [], after)
  | None =>
      match parseElements fuel rest with
      | Some (items, after) => Some (JArray items, after)
      | None => None
      end
  end.
Proof. reflexivity. Qed.

Lemma parseValue_object (fuel : nat) (rest : string) :
  parseValue (S fuel) (String "{" rest) =
  match peekIs "}" rest with
  | Some after => Some (JObject [], after)
  | None =>
      match parseMembers fuel rest with
      | Some (members, after) => Some (JObject members, after)
      | None => None
      end
  end.
Proof. reflexivity. Qed.

Lemma parseElements_step (fuel : nat) (s : string) :
  parseElements (S fuel) s =
  match parseValue fuel s with
  | Some (item, after) =>
      match peekIs "," after with
      | Some more =>
          match parseElements fuel more with
          | Some (items, rest) => Some (item :: items, rest)
          | None => None
          end
      | None =>
          match peekIs "]" after with
          | Some rest => Some ([item], rest)
          | None => None
          end
      end
  | None => None
  end.
Proof. reflexivity. Qed.

Lemma parseMembers_step (fuel : nat) (s : string) :
  parseMembers (S fuel) s =
  match peekIs quoteMark s with
  | Some afterQuote =>
      match parseStringBody afterQuote with
      | Some (key, afterKey) =>
          match peekIs ":" afterKey with
          | Some afterColon =>
              match parseValue fuel afterColon with
              | Some (value, after) =>
                  match peekIs "," after with
                  | Some more =>
                      match parseMembers fuel more with
                      | Some (members, rest) => Some ((key, value) :: members, rest)
                      | None => None
                      end
                  | None =>
                      match peekIs "}" after with
                      | Some rest => Some ([(key, value)], rest)
                      | None => None
                      end
                  end
              | None => None
              end
          | None => None
          end
      | None => None
      end
  | None => None
  end.
Proof. reflexivity. Qed.

Lemma peekIs_newlineTo (c : ascii) (gap indent : nat) (k : string) :
  peekIs c (newlineTo gap indent k) = peekIs c k.
Proof. apply peekIs_ws, skipWhitespace_newlineTo. Qed.

Lemma parseElements_serialized (items : list json) :
  Forall readsBack items ->
  forall first gap inner indent k fuel,
    readsBack first ->
    (S (fuelFor first + elementsFuel items) <= fuel)%nat ->
    parseElements fuel
      (serializeTo gap inner first
         (restTo (serializeTo gap inner) (newlineTo gap inner) items
            (newlineTo gap indent (String "]" k))))
    = Some (first :: items, k).
Proof.
  induction 1 as [|item items Hitem _ IH]; intros first gap inner indent k fuel Hfirst Hfuel;
    (destruct fuel as [|fuel]; [lia|]); rewrite parseElements_step; simpl restTo.
  - rewrite Hfirst; [|lia | now apply noDigitAhead_newlineTo].
    rewrite !peekIs_newlineTo. reflexivity.
  - rewrite Hfirst; [|simpl in Hfuel; lia | reflexivity].
    assert (Hpeek : forall s, peekIs "," (String "," s) = Some s) by reflexivity.
    rewrite Hpeek.
    rewrite (parseElements_ws _ _ _ (skipWhitespace_newlineTo gap inner _)).
    rewrite IH; [reflexivity | exact Hitem | simpl in Hfuel; unfold elementsFuel in *; lia].
Qed.

Lemma parseMembers_serialized (members : list (string * json)) :
  Forall (fun member => readsBack (snd member)) members ->
  forall first gap inner indent k fuel,
    readsBack (snd first) ->
    (S (fuelFor (snd first) + membersFuel members) <= fuel)%nat ->
    parseMembers fuel
      (memberTo (serializeTo gap inner) gap first
         (restTo (memberTo (serializeTo gap inner) gap) (newlineTo gap inner) members
            (newlineTo gap indent (String "}" k))))
    = Some (first :: members, k).
Proof.
  assert (Hquote : forall s, peekIs quoteMark (String quoteMark s) = Some s) by reflexivity.
  assert (Hcolon : forall s, peekIs ":" (String ":" s) = Some s) by reflexivity.
  assert (Hcomma : forall s, peekIs "," (String "," s) = Some s) by reflexivity.
  assert (Hvalue : forall fuel gap inner value tail,
             readsBack value -> (fuelFor value <= fuel)%nat -> noDigitAhead tail ->
             parseValue fuel
               match gap with
               | O => serializeTo gap inner value tail
               | S _ => String " " (serializeTo gap inner value tail)
               end = Some (value, tail)).
  { intros fuel gap inner value tail Hread Hfuel Htail. destruct gap.
    - now apply Hread.
    - rewrite (parseValue_ws _ _ (serializeTo (S gap) inner value tail)) by reflexivity.
      now apply Hread. }
  induction 1 as [|member members Hmember _ IH];
    intros [key value] gap inner indent k fuel Hfirst Hfuel;
    (destruct fuel as [|fuel]; [lia|]); rewrite parseMembers_step;
    unfold memberTo at 1, quoteTo; simpl fst; simpl snd; simpl restTo;
    rewrite Hquote, parseStringBody_quoteBodyTo, Hcolon.
  - rewrite Hvalue; [|exact Hfirst | simpl in *; lia | now apply noDigitAhead_newlineTo].
    rewrite !peekIs_newlineTo. reflexivity.
  - rewrite Hvalue; [|exact Hfirst | simpl in *; lia | reflexivity].
    rewrite Hcomma.
    rewrite (parseMembers_ws _ _ _ (skipWhitespace_newlineTo gap inner _)).
    rewrite IH; [reflexivity | exact Hmember | simpl in *; unfold membersFuel in *; lia].
Qed.

Lemma fuelFor_positive (value : json) : (1 <= fuelFor value)%nat.
Proof. destruct value; simpl; lia. Qed.

Theorem serialized_reads_back (value : json) : readsBack value.
Proof.
  induction value as [| b | n | s | items IH | members IH] using json_ind;
    intros gap indent k fuel Hfuel Hk;
    (destruct fuel as [|fuel]; [pose proof (fuelFor_positive) as Hp; simpl in Hfuel; lia|]).
  - reflexivity.
  - destruct b; reflexivity.
  - simpl serializeTo.
    destruct (numberToString_head n) as (c & rest & Heq & Hc).
    pose proof (parseNumber_numberToString n k Hk) as Hparse.
    rewrite Heq in *. rewrite append_String in *.
    rewrite <- Hparse. now apply parseValue_number.
  - simpl serializeTo. unfold quoteTo.
    change (parseValue (S fuel) (String quoteMark ?body))
      with (match parseStringBody body with
            | Some (str, after) => Some (JString str, after)
            | None => None
            end).
    now rewrite parseStringBody_quoteBodyTo.
  - destruct items as [|first items]; [reflexivity|].
    simpl serializeTo. rewrite parseValue_array, peekIs_newlineTo.
    rewrite peekIs_serializeTo_miss by auto.
    rewrite (parseElements_ws _ _ _ (skipWhitespace_newlineTo gap _ _)).
    inversion IH; subst.
    rewrite parseElements_serialized; [reflexivity | assumption | assumption |].
    simpl in Hfuel. unfold elementsFuel. lia.
  - destruct members as [|first members]; [reflexivity|].
    simpl serializeTo. rewrite parseValue_object, peekIs_newlineTo.
    assert (Hmiss : peekIs "}" (memberTo (serializeTo gap (indent + gap)) gap first
                      (restTo (memberTo (serializeTo gap (indent + gap)) gap)
                         (newlineTo gap (indent + gap)) members
                         (newlineTo gap indent (String "}" k)))) = None) by reflexivity.
    rewrite Hmiss.
    rewrite (parseMembers_ws _ _ _ (skipWhitespace_newlineTo gap _ _)).
    inversion IH; subst.
    rewrite parseMembers_serialized; [reflexivity | assumption | assumption |].
    simpl in Hfuel. unfold membersFuel. lia.
Qed.

(** *** The text is long enough to serve as fuel *)

Lemma quoteCharTo_length (c : ascii) (k : string) :
  (S (String.length k) <= String.length (quoteCharTo c k))%nat.
Proof.
  unfold quoteCharTo.
  repeat match goal with |- context [if ?b then _ else _] => destruct b end; simpl; lia.
Qed.

Lemma quoteBodyTo_length (s k : string) :
  (String.length k <= String.length (quoteBodyTo s k))%nat.
Proof.
  induction s as [|c s IH]; simpl; [lia|].
  pose proof (quoteCharTo_length c (quoteBodyTo s k)). lia.
Qed.

Lemma quoteTo_length (s k : string) :
  (2 + String.length k <= String.length (quoteTo s k))%nat.
Proof.
  unfold quoteTo. simpl.
  pose proof (quoteBodyTo_length s (String quoteMark k)) as H. simpl in H. lia.
Qed.

Lemma spacesTo_length (n : nat) (k : string) :
  (String.length k <= String.length (spacesTo n k))%nat.
Proof. induction n as [|n IH]; simpl; lia. Qed.

Lemma newlineTo_length (gap indent : nat) (k : string) :
  (String.length k <= String.length (newlineTo gap indent k))%nat.
Proof.
  destruct gap; simpl; [lia|]. pose proof (spacesTo_length indent k). lia.
Qed.

Lemma numberToString_length (n : Z) : (1 <= String.length (numberToString n))%nat.
Proof.
  destruct (numberToString_head n) as (c & rest & -> & _). simpl. lia.
Qed.

Lemma memberTo_length (value : json -> string -> string) (gap : nat)
    (member : string * json) (k : string) (m : nat) :
  (m + String.length k <= String.length (value (snd member) k))%nat ->
  (m + String.length k <= String.length (memberTo value gap member k))%nat.
Proof.
  intros H. unfold memberTo.
  pose proof (quoteTo_length (fst member)
                (String ":" match gap with
                            | O => value (snd member) k
                            | S _ => String " " (value (snd member) k)
                            end)) as Hq.
  destruct gap; unfold quoteTo in *; simpl in *; lia.
Qed.

Lemma serializeTo_length (value : json) :
  forall gap indent k,
    (fuelFor value + String.length k <= String.length (serializeTo gap indent value k))%nat.
Proof.
  induction value as [| b | n | s | items IH | members IH] using json_ind;
    intros gap indent k.
  - simpl. lia.
  - destruct b; simpl; lia.
  - simpl. rewrite append_length. pose proof (numberToString_length n). lia.
  - pose proof (quoteTo_length s k) as H. unfold quoteTo in H. simpl in *. lia.
  - destruct items as [|first items]; [simpl; lia|].
    inversion IH as [|? ? Hfirst Hitems]; subst.
    simpl serializeTo. simpl fuelFor.
    set (inner := (indent + gap)%nat).
    assert (Hrest : forall tail,
               (elementsFuel items + String.length tail
                <= String.length (restTo (serializeTo gap inner) (newlineTo gap inner)
                                         items tail))%nat).
    { intros tail. clear Hfirst IH. induction Hitems as [|item items Hitem _ IHitems];
        simpl; [lia|].
      pose proof (newlineTo_length gap inner
                    (serializeTo gap inner item
                       (restTo (serializeTo gap inner) (newlineTo gap inner) items tail))).
      pose proof (Hitem gap inner
                    (restTo (serializeTo gap inner) (newlineTo gap inner) items tail)).
      unfold elementsFuel in *. lia. }
    pose proof (Hrest (newlineTo gap indent (String "]" k))) as H1.
    pose proof (newlineTo_length gap indent (String "]" k)) as H2.
    pose proof (Hfirst gap inner
                  (restTo (serializeTo gap inner) (newlineTo gap inner) items
                     (newlineTo gap indent (String "]" k)))) as H3.
    pose proof (newlineTo_length gap inner
                  (serializeTo gap inner first
                     (restTo (serializeTo gap inner) (newlineTo gap inner) items
                        (newlineTo gap indent (String "]" k))))) as H4.
    simpl String.length in *. unfold elementsFuel in *. lia.
  - destruct members as [|first members]; [simpl; lia|].
    inversion IH as [|? ? Hfirst Hmembers]; subst.
    simpl serializeTo. simpl fuelFor.
    set (inner := (indent + gap)%nat).
    assert (Hrest : forall tail,
               (membersFuel members + String.length tail
                <= String.length (restTo (memberTo (serializeTo gap inner) gap)
                                         (newlineTo gap inner) members tail))%nat).
    { intros tail. clear Hfirst IH. induction Hmembers as [|member members Hmember _ IHm];
        simpl; [lia|].
      pose proof (newlineTo_length gap inner
                    (memberTo (serializeTo gap inner) gap member
                       (restTo (memberTo (serializeTo gap inner) gap)
                          (newlineTo gap inner) members tail))).
      pose proof (memberTo_length (serializeTo gap inner) gap member
                    (restTo (memberTo (serializeTo gap inner) gap)
                       (newlineTo gap inner) members tail) _ (Hmember gap inner _)).
      unfold membersFuel in *. lia. }
    pose proof (Hrest (newlineTo gap indent (String "}" k))) as H1.
    pose proof (newlineTo_length gap indent (String "}" k)) as H2.
    pose proof (memberTo_length (serializeTo gap inner) gap first
                  (restTo (memberTo (serializeTo gap inner) gap) (newlineTo gap inner)
                     members (newlineTo gap indent (String "}" k))) _
                  (Hfirst gap inner _)) as H3.
    pose proof (newlineTo_length gap inner
                  (memberTo (serializeTo gap inner) gap first
                     (restTo (memberTo (serializeTo gap inner) gap) (newlineTo gap inner)
                        members (newlineTo gap indent (String "}" k))))) as H4.
    simpl String.length in *. unfold membersFuel in *. lia.
Qed.

Lemma parseText_serialized (gap : nat) (value : json) :
  parseText (serializeTo gap 0 value "") = Some value.
Proof.
  unfold parseText.
  rewrite serialized_reads_back; [reflexivity | | exact I].
  pose proof (serializeTo_length value gap 0%nat "") as H. simpl in H. lia.
Qed.

Lemma JSON_parse_serialized (gap : nat) (value : json) :
  JSON_parse (serializeTo gap 0 value "") = Parsed value.
Proof. unfold JSON_parse. now rewrite parseText_serialized. Qed.

(** [JSON.parse(JSON.stringify(value))] is [value]. *)
Lemma JSON_parse_stringify (value : json) : JSON_parse (JSON_stringify value) = Parsed value.
Proof. apply JSON_parse_serialized. Qed.

Lemma JSON_parse_stringify_pretty (value : json) :
  JSON_parse (JSON_stringify_pretty value) = Parsed value.
Proof. apply JSON_parse_serialized. Qed.

Lemma parse_stringify (value : json) (w : World) :
  parse (JSON_stringify value) w = (Returned value, w).
Proof. unfold parse. now rewrite JSON_parse_stringify. Qed.

Lemma parse_stringify_pretty (value : json) (w : World) :
  parse (JSON_stringify_pretty value) w = (Returned value, w).
Proof. unfold parse. now rewrite JSON_parse_stringify_pretty. Qed.

(** The three answers of [JSON.parse]: values of the fragment, JSON
    outside of it, and texts that are not JSON. *)
Lemma JSON_parse_answers :
  JSON_parse "[1, -2]" = Parsed (JArray [JNumber 1; JNumber (-2)]) /\
  JSON_parse "-0" = Parsed (JNumber 0) /\
  JSON_parse "1.0" = Unsupported /\
  JSON_parse "[1e3]" = Unsupported /\
  JSON_parse (String quoteMark ("\u0100" +:+ String quoteMark "")) = Unsupported /\
  JSON_parse "[1,]" = Malformed /\
  JSON_parse "01" = Malformed /\
  JSON_parse "" = Malformed.
Proof.
  split; [vm_compute; reflexivity|]. split; [vm_compute; reflexivity|].
  split; [vm_compute; reflexivity|]. split; [vm_compute; reflexivity|].
  split; [vm_compute; reflexivity|]. split; [vm_compute; reflexivity|].
  split; vm_compute; reflexivity.
Qed.

(** [parse] only reads its text. *)
Lemma parse_effect (text : string) (w : World) :
  parse text w
  = match JSON_parse text with
    | Parsed value => (Returned value, w)
    | Malformed => (Threw SyntaxError, w)
    | Unsupported => (Threw NotModelled, w)
    end.
Proof. unfold parse. now destruct (JSON_parse text). Qed.

(** ** Local storage *)

Lemma storageSize_insert_fresh (m : gmap string string) (k v : string) :
  m !! k = None -> storageSize (<[k := v]> m) = (size k + size v + storageSize m)%N.
Proof.
  intros Hk. unfold storageSize.
  apply (map_fold_insert_L (fun key value acc => (size key + size value + acc)%N));
    [|exact Hk].
  intros. lia.
Qed.

Lemma storageSize_delete_some (m : gmap string string) (k v : string) :
  m !! k = Some v -> storageSize m = (size k + size v + storageSize (delete k m))%N.
Proof.
  intros Hk. unfold storageSize.
  apply (map_fold_delete_L (fun key value acc => (size key + size value + acc)%N));
    [|exact Hk].
  intros. lia.
Qed.

Lemma storageSize_delete_le (m : gmap string string) (k : string) :
  (storageSize (delete k m) <= storageSize m)%N.
Proof.
  destruct (m !! k) as [v|] eqn:Hk.
  - rewrite (storageSize_delete_some m k v Hk). lia.
  - rewrite delete_id by exact Hk. lia.
Qed.

Lemma storageSize_insert_le (m : gmap string string) (k v : string) :
  (storageSize (<[k := v]> m) <= storageSize m + size k + size v)%N.
Proof.
  rewrite <- insert_delete_eq.
  rewrite storageSize_insert_fresh by apply lookup_delete_eq.
  pose proof (storageSize_delete_le m k). lia.
Qed.

Lemma localStorage_setItem_fits (k v : string) (w : World) :
  (storageSize (ls_entries w) + size k + size v <= ls_quota w)%N ->
  localStorage_setItem k v w =
  (Returned tt,
   {| ls_entries := <[k := v]> (ls_entries w); ls_quota := ls_quota w;
      dispatched := dispatched w |}).
Proof.
  intros Hfits. unfold localStorage_setItem.
  pose proof (storageSize_insert_le (ls_entries w) k v) as Hle.
  destruct (N.leb_spec (storageSize (<[k := v]> (ls_entries w))) (ls_quota w));
    [reflexivity | lia].
Qed.

(** ** Import ([storage.ts]) *)

(** Whatever makes [importData] fail, it throws the parse error; a payload
    the model has no value for is not followed. *)
Lemma import_failure_is_parse_error (json : string) (clock : Clock) (w w' : World)
    (e : Exception) :
  Storage.importData json clock w = (Threw e, w') -> e = parseError \/ e = NotModelled.
Proof.
  unfold Storage.importData, tryCatch.
  match goal with |- context [match ?body w with _ => _ end] => destruct (body w) as [[ok|e0] w0] end.
  - discriminate.
  - unfold throw. destruct e0; intros [= <- _]; auto.
Qed.




(** ** Loading with recovery *)

(** A snapshot written by [createBackup] for the notes or the tags is not
    among the keys [attemptDataRecovery] looks at. *)
Lemma backup_key_outside_recovery_prefix (key suffix : string) :
  key = STORAGE_KEYS.NOTES \/ key = STORAGE_KEYS.TAGS ->
  startsWith (backupKeyPrefix key +:+ suffix) (recoveryPrefix key) = false.
Proof. intros [-> | ->]; reflexivity. Qed.

(** C4 fails on the code.  The notes key holds damaged JSON and the snapshot
    [createBackup] wrote at the last save is valid, yet loading returns the
    caller's default and leaves the damaged value in place. *)
Theorem load_ignores_backup_snapshot :
  (exists snapshot backup,
      ls_entries corruptedWorld !! savedBackupKey = Some snapshot /\
      JSON_parse snapshot = Parsed backup /\
      getField backup "data" = Some (JArray [sampleNoteJson]) /\
      validateData (JArray [sampleNoteJson]) STORAGE_KEYS.NOTES = true) /\
  JSON_parse "{oops" = Malformed /\
  loadFromLocalStorage STORAGE_KEYS.NOTES (JArray []) laterClock corruptedWorld
  = (Returned (JArray []), corruptedWorld).
Proof.
  split; [|split].
  - eexists _, _. split; [vm_compute; reflexivity|].
    split; [vm_compute; reflexivity|]. split; vm_compute; reflexivity.
  - vm_compute. reflexivity.
  - vm_compute. reflexivity.
Qed.

(** ** Export and import ([storage.ts]) *)

Lemma Returned_inj {A} (a b : A) (w w' : World) :
  (Returned a, w) = (Returned b, w') -> a = b.
Proof. intros H. inversion H. reflexivity. Qed.

Lemma JSON_stringify_nonempty (value : json) :
  String.eqb (JSON_stringify value) "" = false.
Proof.
  unfold JSON_stringify.
  destruct (serializeTo_head 0 0 value "") as (c & rest & -> & _). reflexivity.
Qed.

Lemma Storage_getItem_stored (key : string) (value : json) (w : World) :
  ls_entries w !! key = Some (JSON_stringify value) ->
  Storage.getStorageItem key w = (Returned value, w).
Proof.
  intros Hk.
  unfold Storage.getStorageItem, Storage.getItem, tryCatch, bind, localStorage_getItem.
  rewrite Hk, JSON_stringify_nonempty, parse_stringify. reflexivity.
Qed.

Lemma Storage_setItem_fits (key : string) (value : json) (w : World) :
  (storageSize (ls_entries w) + size key + size (JSON_stringify value) <= ls_quota w)%N ->
  Storage.setStorageItem key value w = (Returned tt, putJson key value w).
Proof.
  intros Hfits. unfold Storage.setStorageItem, Storage.setItem, tryCatch.
  now rewrite localStorage_setItem_fits.
Qed.

Lemma storageSize_putJson (key : string) (value : json) (w : World) :
  (storageSize (ls_entries (putJson key value w))
   <= storageSize (ls_entries w) + size key + size (JSON_stringify value))%N.
Proof. apply storageSize_insert_le. Qed.

Lemma orElse_again (value fallback : json) :
  fallback <> JNull -> orElse (orElse value fallback) fallback = orElse value fallback.
Proof.
  intros Hf. destruct value; simpl; try reflexivity.
  destruct fallback; simpl; congruence.
Qed.

Lemma exportData_of_holds (w : World) (notes0 tags0 preferences0 : json) :
  holds w notes0 tags0 preferences0 ->
  let data := Storage.envelope (orElse notes0 (JArray [])) (orElse tags0 (JArray []))
                               (orElse preferences0 Storage.defaultPreferencesJson) in
  Storage.isValidAppData data = true ->
  Storage.exportData w = (Returned (JSON_stringify_pretty data), w).
Proof.
  intros (Hn & Ht & Hp) data Hvalid. unfold Storage.exportData, bind.
  rewrite Hn, Ht, Hp. fold data. rewrite Hvalid. reflexivity.
Qed.

(** C6, amended.  For every valid stored collection, [exportData] succeeds
    without touching the store and, when the store has room for the four
    writes of an import, importing the exported text succeeds; afterwards the
    three keys hold the exported notes, tags and preferences, in the same
    order, and exporting again gives the same text. *)
Theorem export_import_roundtrip (w : World) (clock : Clock)
    (notes tags preferences : json) :
  storedCollection w notes tags preferences ->
  Storage.isValidAppData (Storage.envelope notes tags preferences) = true ->
  (storageSize (ls_entries w) + importCost notes tags preferences clock <= ls_quota w)%N ->
  exists text w',
    Storage.exportData w = (Returned text, w) /\
    Storage.importData text clock w = (Returned true, w') /\
    holds w' notes tags preferences /\
    Storage.exportData w' = (Returned text, w').
Proof.
  intros (notes0 & tags0 & preferences0 & Hholds & -> & -> & ->) Hvalid Hroom.
  set (notes := orElse notes0 (JArray [])) in *.
  set (tags := orElse tags0 (JArray [])) in *.
  set (preferences := orElse preferences0 Storage.defaultPreferencesJson) in *.
  set (data := Storage.envelope notes tags preferences) in *.
  set (w1 := putJson Storage.STORAGE_KEYS.NOTES notes w).
  set (w2 := putJson Storage.STORAGE_KEYS.TAGS tags w1).
  set (w3 := putJson Storage.STORAGE_KEYS.PREFERENCES preferences w2).
  set (w4 := putJson Storage.STORAGE_KEYS.META (importStamp clock) w3).
  pose proof (storageSize_putJson Storage.STORAGE_KEYS.NOTES notes w) as S1.
  pose proof (storageSize_putJson Storage.STORAGE_KEYS.TAGS tags w1) as S2.
  pose proof (storageSize_putJson Storage.STORAGE_KEYS.PREFERENCES preferences w2) as S3.
  fold w1 in S1. fold w2 in S2. fold w3 in S3. unfold importCost in Hroom.
  assert (Hholds' : holds w4 notes tags preferences).
  { repeat split; apply Storage_getItem_stored; unfold w4, w3, w2, w1, putJson; simpl;
      repeat (rewrite lookup_insert_ne by discriminate); apply lookup_insert_eq. }
  exists (JSON_stringify_pretty data), w4. split; [|split; [|split]].
  - now apply exportData_of_holds.
  - unfold Storage.importData, tryCatch, bind.
    rewrite parse_stringify_pretty, Hvalid.
    change (getField data "version") with (Some (JNumber 1)).
    cbv beta iota delta [negb].
    change (field data "notes") with notes.
    change (field data "tags") with tags.
    change (field data "preferences") with preferences.
    rewrite (Storage_setItem_fits _ notes w) by lia. fold w1.
    rewrite (Storage_setItem_fits _ tags w1) by (simpl ls_quota; lia). fold w2.
    rewrite (Storage_setItem_fits _ preferences w2) by (simpl ls_quota; lia). fold w3.
    rewrite (Storage_setItem_fits _ (importStamp clock) w3) by (simpl ls_quota; lia).
    reflexivity.
  - exact Hholds'.
  - pose proof (exportData_of_holds w4 notes tags preferences Hholds') as Hexport.
    assert (Hn : orElse notes (JArray []) = notes) by (apply orElse_again; discriminate).
    assert (Ht : orElse tags (JArray []) = tags) by (apply orElse_again; discriminate).
    assert (Hp : orElse preferences Storage.defaultPreferencesJson = preferences)
      by (apply orElse_again; discriminate).
    cbv zeta in Hexport. rewrite Hn, Ht, Hp in Hexport.
    apply Hexport. exact Hvalid.
Qed.

Lemma export_import_roundtrip_witness :
  exists text w',
    Storage.exportData roomyWorld = (Returned text, roomyWorld) /\
    Storage.importData text laterClock roomyWorld = (Returned true, w') /\
    holds w' (JArray [sampleNoteJson]) (JArray [sampleTagJson]) Storage.defaultPreferencesJson /\
    Storage.exportData w' = (Returned text, w').
Proof.
  apply (export_import_roundtrip roomyWorld laterClock (JArray [sampleNoteJson])
           (JArray [sampleTagJson]) Storage.defaultPreferencesJson).
  - exists (JArray [sampleNoteJson]), (JArray [sampleTagJson]), Storage.defaultPreferencesJson.
    split; [split; [|split] | split; [|split]]; vm_compute; reflexivity.
  - vm_compute. reflexivity.
  - vm_compute. discriminate.
Defined.

(** C6, as written, fails: in a store filled to its capacity the import of
    the exported text is refused when it writes its metadata record. *)
Lemma roundtrip_fails_in_full_store : ~ roundtrip_always_succeeds.
Proof.
  intros Hclaim.
  destruct (Hclaim fullWorld laterClock (JArray [sampleNoteJson]) (JArray [sampleTagJson])
              Storage.defaultPreferencesJson) as (text & w' & Hexport & Himport & _).
  - exists (JArray [sampleNoteJson]), (JArray [sampleTagJson]), Storage.defaultPreferencesJson.
    split; [split; [|split] | split; [|split]]; vm_compute; reflexivity.
  - vm_compute. reflexivity.
  - assert (Htext : Storage.exportData fullWorld = (Returned (samplePayload 1), fullWorld))
      by (vm_compute; reflexivity).
    rewrite Htext in Hexport. apply Returned_inj in Hexport. subst text.
    vm_compute in Himport. discriminate Himport.
Qed.

(** ** Saving *)

Lemma prefix_of_append (a b s : string) :
  String.prefix (a +:+ b) s = true -> String.prefix a s = true.
Proof.
  revert s. induction a as [|c a IH]; intros s; [destruct s; reflexivity|].
  rewrite append_String. destruct s as [|d s]; simpl; [discriminate|].
  destruct (ascii_dec c d); [apply IH | discriminate].
Qed.

Lemma backup_key_has_prefix (key suffix : string) :
  startsWith (backupKeyPrefix key +:+ suffix) STORAGE_KEYS.BACKUP_PREFIX = true.
Proof. destruct key; reflexivity. Qed.

Lemma onlyBackupsChanged_refl (n : N) (w : World) : onlyBackupsChanged n w w.
Proof. repeat split; auto. lia. Qed.

Lemma onlyBackupsChanged_trans (n m : N) (w1 w2 w3 : World) :
  onlyBackupsChanged n w1 w2 -> onlyBackupsChanged m w2 w3 ->
  onlyBackupsChanged (n + m) w1 w3.
Proof.
  intros (Hq1 & Hd1 & Hs1 & Hk1) (Hq2 & Hd2 & Hs2 & Hk2). repeat split.
  - congruence.
  - congruence.
  - lia.
  - intros k Hk. rewrite Hk2, Hk1 by exact Hk. reflexivity.
Qed.

Lemma removeItem_backup (k : string) (w : World) :
  startsWith k STORAGE_KEYS.BACKUP_PREFIX = true ->
  exists w', localStorage_removeItem k w = (Returned tt, w') /\ onlyBackupsChanged 0 w w'.
Proof.
  intros Hk. eexists. split; [reflexivity|]. repeat split; simpl.
  - pose proof (storageSize_delete_le (ls_entries w) k). lia.
  - intros k' Hk'. apply lookup_delete_ne. congruence.
Qed.

Lemma forEach_remove_backups (keys : list string) (w : World) :
  Forall (fun k => startsWith k STORAGE_KEYS.BACKUP_PREFIX = true) keys ->
  exists w',
    forEach localStorage_removeItem keys w = (Returned tt, w') /\
    onlyBackupsChanged 0 w w'.
Proof.
  intros Hkeys. revert w. induction Hkeys as [|k keys Hk _ IH]; intros w.
  - exists w. split; [reflexivity | apply onlyBackupsChanged_refl].
  - destruct (removeItem_backup k w Hk) as (w1 & Hremove & H1).
    destruct (IH w1) as (w2 & Hrest & H2).
    exists w2. split.
    + simpl. unfold bind. rewrite Hremove. exact Hrest.
    + apply (onlyBackupsChanged_trans 0 0 w w1 w2); assumption.
Qed.

Lemma In_slice {A} (n : nat) (l : list A) (x : A) : In x (slice n l) -> In x l.
Proof.
  unfold slice. intros Hin. rewrite <- (List.firstn_skipn n l).
  apply List.in_or_app. now right.
Qed.

Lemma pruned_keys_are_backups (key : string) (n : nat) (allKeys : list string) :
  Forall (fun k => startsWith k STORAGE_KEYS.BACKUP_PREFIX = true)
         (slice n (List.rev (sortStrings
                    (List.filter (fun k => startsWith k (backupKeyPrefix key)) allKeys)))).
Proof.
  apply List.Forall_forall. intros k Hin.
  apply In_slice, List.in_rev in Hin. apply arraySort_In in Hin.
  apply List.filter_In in Hin as [_ Hk].
  unfold startsWith, backupKeyPrefix in *. now apply prefix_of_append in Hk.
Qed.

Lemma createBackup_effect (key : string) (data : json) (clock : Clock) (w : World) :
  exists w',
    createBackup key data clock w = (Returned tt, w') /\
    onlyBackupsChanged
      (size (backupKeyPrefix key +:+ decimal (now_ms clock))
       + size (JSON_stringify (backupSnapshot key data clock))) w w'.
Proof.
  unfold createBackup, tryCatch, bind. fold (backupSnapshot key data clock).
  set (backupKey := backupKeyPrefix key +:+ decimal (now_ms clock)).
  set (snapshot := JSON_stringify (backupSnapshot key data clock)).
  unfold localStorage_setItem at 1.
  destruct (N.leb_spec (storageSize (<[backupKey := snapshot]> (ls_entries w))) (ls_quota w))
    as [Hfits|Hfull].
  - set (w1 := {| ls_entries := <[backupKey := snapshot]> (ls_entries w);
                  ls_quota := ls_quota w; dispatched := dispatched w |}).
    assert (H1 : onlyBackupsChanged (size backupKey + size snapshot) w w1).
    { repeat split; simpl.
      - pose proof (storageSize_insert_le (ls_entries w) backupKey snapshot). lia.
      - intros k Hk. apply lookup_insert_ne. intros <-.
        unfold backupKey in Hk. rewrite backup_key_has_prefix in Hk. discriminate Hk. }
    unfold Object_keys at 1. cbv beta iota.
    destruct (forEach_remove_backups _ w1
                (pruned_keys_are_backups key 3 (List.map fst (map_to_list (ls_entries w1)))))
      as (w2 & Hprune & H2).
    exists w2. split.
    + fold w1. rewrite Hprune. reflexivity.
    + replace (size backupKey + size snapshot)%N
        with (size backupKey + size snapshot + 0)%N by lia.
      eapply onlyBackupsChanged_trans; eassumption.
  - exists w. split; [reflexivity|]. apply onlyBackupsChanged_refl.
Qed.

Lemma cleanup_effect (percentage : N) (w : World) :
  exists w',
    (if (80 <? percentage)%N then
       if (90 <? percentage)%N then
         let* allKeys := Object_keys in
         let backupKeys :=
           List.filter (fun k => startsWith k STORAGE_KEYS.BACKUP_PREFIX) allKeys in
         forEach localStorage_removeItem backupKeys
       else ret tt
     else ret tt) w = (Returned tt, w') /\
    onlyBackupsChanged 0 w w'.
Proof.
  destruct (80 <? percentage)%N;
    [destruct (90 <? percentage)%N|];
    try (exists w; split; [reflexivity | apply onlyBackupsChanged_refl]).
  unfold bind, Object_keys. cbv beta iota zeta.
  apply forEach_remove_backups.
  apply List.Forall_forall. intros k Hin. now apply List.filter_In in Hin as [_ Hk].
Qed.

Lemma bind_returned {A B} (m : Effect A) (k : A -> Effect B) (w w' : World) (a : A)
    (r : Outcome B * World) :
  m w = (Returned a, w') -> k a w' = r -> bind m k w = r.
Proof. intros Hm Hk. unfold bind. now rewrite Hm. Qed.

Lemma tryCatch_returned {A} (body : Effect A) (handler : Exception -> Effect A)
    (w w' : World) (a : A) :
  body w = (Returned a, w') -> tryCatch body handler w = (Returned a, w').
Proof. intros Hbody. unfold tryCatch. now rewrite Hbody. Qed.

Lemma backup_step_effect (doBackup : bool) (key : string) (data : json) (clock : Clock)
    (w : World) :
  exists w',
    (if doBackup then createBackup key data clock else ret tt) w = (Returned tt, w') /\
    onlyBackupsChanged
      (size (backupKeyPrefix key +:+ decimal (now_ms clock))
       + size (JSON_stringify (backupSnapshot key data clock))) w w'.
Proof.
  destruct doBackup; [apply createBackup_effect|].
  exists w. split; [reflexivity | apply onlyBackupsChanged_refl].
Qed.

(** Removing keys one after the other: the keys are gone, the others
    stay. *)
Lemma forEach_removeItem_effect (keys : list string) (w : World) :
  exists w',
    forEach localStorage_removeItem keys w = (Returned tt, w') /\
    ls_quota w' = ls_quota w /\ dispatched w' = dispatched w /\
    forall k, ls_entries w' !! k
              = if arrayIncludes keys k then None else ls_entries w !! k.
Proof.
  revert w. induction keys as [|key keys IH]; intros w.
  - exists w. repeat split; auto.
  - destruct (IH {| ls_entries := delete key (ls_entries w); ls_quota := ls_quota w;
                    dispatched := dispatched w |}) as (w' & Hrest & Hq & Hd & Hk).
    exists w'. split; [exact Hrest|]. split; [exact Hq|]. split; [exact Hd|].
    intros k. rewrite Hk. simpl. unfold arrayIncludes. simpl.
    fold (arrayIncludes keys k).
    destruct (arrayIncludes keys k); [now rewrite orb_true_r|].
    rewrite orb_false_r.
    destruct (String.eqb_spec k key) as [->|Hne].
    + apply lookup_delete_eq.
    + apply lookup_delete_ne. congruence.
Qed.

Lemma stored_keys_spec (m : gmap string string) (k : string) :
  In k (List.map fst (map_to_list m)) <-> exists v, m !! k = Some v.
Proof.
  rewrite List.in_map_iff. split.
  - intros ([k' v] & <- & Hin). exists v.
    apply elem_of_map_to_list. now apply list_elem_of_In.
  - intros [v Hv]. exists (k, v). split; [reflexivity|].
    apply list_elem_of_In. now apply elem_of_map_to_list.
Qed.

Lemma stored_keys_NoDup (m : gmap string string) :
  List.NoDup (List.map fst (map_to_list m)).
Proof. apply NoDup_ListNoDup. apply NoDup_fst_map_to_list. Qed.

Lemma prefix_append (a b : string) : startsWith (a +:+ b) a = true.
Proof.
  unfold startsWith. induction a as [|c a IH]; [destruct b; reflexivity|].
  rewrite append_String. simpl. destruct (ascii_dec c c); [exact IH | contradiction].
Qed.

Lemma codeUnitCompare_refl (a : string) : codeUnitCompare a a <= 0.
Proof.
  unfold codeUnitCompare. pose proof (String.compare_antisym a a) as Hself.
  destruct (String.compare a a); simpl in Hself; (lia || discriminate Hself).
Qed.

Lemma codeUnitCompare_antisym (a b : string) :
  codeUnitCompare a b <= 0 -> codeUnitCompare b a <= 0 -> a = b.
Proof.
  unfold codeUnitCompare. rewrite (String.compare_antisym b a).
  destruct (String.compare a b) eqn:Hab; simpl; try lia.
  intros _ _. now apply String.compare_eq_iff.
Qed.

Lemma strongly_sorted_last {A} (R : A -> A -> Prop) (l : list A) (y : A) :
  StronglySorted R (l ++ [y]) -> forall x, In x l -> R x y.
Proof.
  induction l as [|z l IH]; simpl; intros Hsorted x Hin; [contradiction|].
  apply StronglySorted_inv in Hsorted as [Hl Hz].
  destruct Hin as [<-|Hin]; [|now apply IH].
  rewrite List.Forall_forall in Hz. apply Hz. apply List.in_or_app. right. now left.
Qed.

(** The greatest of the keys stands first in [keys.sort().reverse()], so
    [slice(3)] leaves it out. *)
Lemma greatest_key_not_pruned (l : list string) (x : string) :
  List.NoDup l -> In x l ->
  (forall k, In k l -> codeUnitCompare k x <= 0) ->
  ~ In x (slice 3 (List.rev (sortStrings l))).
Proof.
  intros Hnodup Hx Hmax.
  assert (Hsorted : StronglySorted (fun a b => codeUnitCompare a b <= 0) (sortStrings l))
    by apply arraySort_sorted, codeUnitCompare_consistent.
  assert (Hnodup' : List.NoDup (List.rev (sortStrings l))).
  { apply (Permutation_NoDup (l := l)); [|exact Hnodup].
    rewrite <- (Permutation_rev (sortStrings l)). symmetry. apply arraySort_perm. }
  assert (Hin : In x (List.rev (sortStrings l))).
  { rewrite <- List.in_rev. now apply arraySort_In. }
  assert (Hall : forall k, In k (List.rev (sortStrings l)) -> In k l).
  { intros k Hk. rewrite <- List.in_rev in Hk. now apply arraySort_In in Hk. }
  rewrite <- (List.rev_involutive (sortStrings l)) in Hsorted.
  destruct (List.rev (sortStrings l)) as [|y r]; [contradiction|].
  simpl in Hsorted.
  assert (Hy : x = y).
  { destruct Hin as [Hy|Hr]; [now symmetry|].
    apply codeUnitCompare_antisym.
    - apply (strongly_sorted_last _ _ _ Hsorted). now rewrite <- List.in_rev.
    - apply Hmax, Hall. now left. }
  subst y. apply List.NoDup_cons_iff in Hnodup' as [Hfresh _].
  intros Hpruned. apply Hfresh. unfold slice in Hpruned. simpl in Hpruned.
  eapply In_slice. exact Hpruned.
Qed.

(** When the snapshot fits and is the most recent of its key,
    [createBackup] leaves it in the store. *)
Lemma createBackup_stores (key : string) (data : json) (clock : Clock) (w w' : World) :
  (storageSize (<[backupKeyAt key clock := JSON_stringify (backupSnapshot key data clock)]>
                  (ls_entries w)) <= ls_quota w)%N ->
  newestSnapshot key clock w = true ->
  createBackup key data clock w = (Returned tt, w') ->
  ls_entries w' !! backupKeyAt key clock
  = Some (JSON_stringify (backupSnapshot key data clock)).
Proof.
  intros Hfits Hnewest. apply N.leb_le in Hfits.
  unfold createBackup, tryCatch, bind. fold (backupSnapshot key data clock).
  fold (backupKeyAt key clock).
  unfold localStorage_setItem at 1. rewrite Hfits.
  unfold Object_keys at 1. cbv beta iota.
  match goal with
  | |- context [forEach localStorage_removeItem ?pruned ?w1] =>
      destruct (forEach_removeItem_effect pruned w1) as (w2 & -> & _ & _ & Hk);
      set (gone := pruned) in *
  end.
  intros Hw. assert (Hw' : w' = w2) by congruence. subst w'.
  rewrite Hk. simpl ls_entries.
  destruct (arrayIncludes gone (backupKeyAt key clock)) eqn:Hgone;
    [|apply lookup_insert_eq].
  exfalso. apply arrayIncludes_In in Hgone. revert Hgone.
  apply greatest_key_not_pruned.
  - apply List.NoDup_filter, stored_keys_NoDup.
  - apply List.filter_In. split.
    + apply stored_keys_spec. eexists. apply lookup_insert_eq.
    + apply prefix_append.
  - intros k Hin. apply List.filter_In in Hin as [Hstored Hprefix].
    destruct (String.eqb_spec k (backupKeyAt key clock)) as [->|Hne].
    + apply codeUnitCompare_refl.
    + unfold newestSnapshot in Hnewest. rewrite List.forallb_forall in Hnewest.
      apply Z.leb_le. apply Hnewest. apply List.filter_In. split; [|exact Hprefix].
      apply stored_keys_spec in Hstored as [v Hv].
      cbn [ls_entries] in Hv. rewrite lookup_insert_ne in Hv by congruence.
      apply stored_keys_spec. eauto.
Qed.

Lemma newestSnapshot_fewer_keys (key : string) (clock : Clock) (w w' : World) :
  (forall k v, ls_entries w' !! k = Some v -> ls_entries w !! k = Some v) ->
  newestSnapshot key clock w = true -> newestSnapshot key clock w' = true.
Proof.
  unfold newestSnapshot. rewrite !List.forallb_forall. intros Hkeys Hnewest k Hin.
  apply Hnewest. apply List.filter_In in Hin as [Hstored Hprefix].
  apply List.filter_In. split; [|exact Hprefix].
  apply stored_keys_spec in Hstored as [v Hv]. apply stored_keys_spec. eauto.
Qed.

(** The clean-up before a save only removes keys. *)
Lemma cleanup_adds_no_key (percentage : N) (w w' : World) :
  (if (80 <? percentage)%N then
     if (90 <? percentage)%N then
       let* allKeys := Object_keys in
       let backupKeys :=
         List.filter (fun k => startsWith k STORAGE_KEYS.BACKUP_PREFIX) allKeys in
       forEach localStorage_removeItem backupKeys
     else ret tt
   else ret tt) w = (Returned tt, w') ->
  forall k v, ls_entries w' !! k = Some v -> ls_entries w !! k = Some v.
Proof.
  destruct (80 <? percentage)%N;
    [destruct (90 <? percentage)%N|];
    try (intros Hw k v Hv; assert (Hsame : w' = w) by (unfold ret in Hw; congruence);
         subst w'; exact Hv).
  unfold bind, Object_keys. cbv beta iota zeta.
  match goal with
  | |- forEach localStorage_removeItem ?keys w = _ -> _ =>
      destruct (forEach_removeItem_effect keys w) as (w2 & -> & _ & _ & Hk)
  end.
  intros Hw k v Hv. assert (Hsame : w' = w2) by congruence. subst w'.
  rewrite Hk in Hv. destruct (arrayIncludes _ k); [discriminate Hv | exact Hv].
Qed.

(** With room in the store, [saveToLocalStorage] writes the value and the
    metadata record, whatever the key held before; for the notes and the
    tags it has first written a snapshot of the value, which is still stored
    when it is the most recent snapshot of the key. *)
Lemma saveToLocalStorage_writes (key : string) (data : json) (clock : Clock) (w : World) :
  key = STORAGE_KEYS.NOTES \/ key = STORAGE_KEYS.TAGS \/ key = STORAGE_KEYS.PREFERENCES ->
  (storageSize (ls_entries w) + saveCost key data clock <= ls_quota w)%N ->
  exists w',
    saveToLocalStorage key data clock w = (Returned true, w') /\
    ls_entries w' !! key = Some (JSON_stringify data) /\
    ls_entries w' !! STORAGE_KEYS.METADATA
    = Some (JSON_stringify (metadataOf clock (JSON_stringify data))) /\
    dispatched w' = dispatched w /\
    (key <> STORAGE_KEYS.PREFERENCES -> newestSnapshot key clock w = true ->
     ls_entries w' !! backupKeyAt key clock
     = Some (JSON_stringify (backupSnapshot key data clock))) /\
    (key = STORAGE_KEYS.PREFERENCES ->
     forall k v, startsWith k STORAGE_KEYS.BACKUP_PREFIX = true ->
                 ls_entries w' !! k = Some v -> ls_entries w !! k = Some v).
Proof.
  intros Hkey Hroom. unfold saveCost in Hroom.
  assert (Hplain : startsWith key STORAGE_KEYS.BACKUP_PREFIX = false
                   /\ key <> STORAGE_KEYS.METADATA).
  { destruct Hkey as [-> | [-> | ->]]; split; (reflexivity || discriminate). }
  destruct Hplain as [Hnotbackup Hnotmeta].
  destruct (getStorageUsage w) as [usage w0] eqn:Husage.
  assert (Hw0 : w0 = w) by (unfold getStorageUsage in Husage; congruence).
  destruct usage as [[[used total] percentage]|e];
    [|unfold getStorageUsage in Husage; discriminate Husage].
  subst w0.
  destruct (cleanup_effect percentage w) as (wa & Hclean & (Hqa & Hda & Hsa & Hka)).
  destruct (backup_step_effect
              (String.eqb key STORAGE_KEYS.NOTES || String.eqb key STORAGE_KEYS.TAGS)
              key data clock wa) as (wb & Hbackup & (Hqb & Hdb & Hsb & Hkb)).
  set (wc := {| ls_entries := <[key := JSON_stringify data]> (ls_entries wb);
                ls_quota := ls_quota wb; dispatched := dispatched wb |}).
  set (metadata := JSON_stringify (metadataOf clock (JSON_stringify data))).
  set (wd := {| ls_entries := <[STORAGE_KEYS.METADATA := metadata]> (ls_entries wc);
                ls_quota := ls_quota wc; dispatched := dispatched wc |}).
  pose proof (storageSize_insert_le (ls_entries wb) key (JSON_stringify data)) as Hsc.
  exists wd. split; [|split; [|split; [|split; [|split]]]].
  - unfold saveToLocalStorage. apply tryCatch_returned.
    eapply bind_returned; [exact Husage|].
    eapply bind_returned; [exact Hclean|].
    eapply bind_returned; [exact Hbackup|].
    eapply bind_returned; [apply localStorage_setItem_fits; lia|].
    eapply bind_returned; [apply localStorage_setItem_fits; simpl; lia|].
    reflexivity.
  - simpl. rewrite lookup_insert_ne by congruence. apply lookup_insert_eq.
  - simpl. apply lookup_insert_eq.
  - simpl. congruence.
  - intros Hsnapshots Hnewest.
    assert (Hdo : String.eqb key STORAGE_KEYS.NOTES || String.eqb key STORAGE_KEYS.TAGS
                  = true).
    { destruct Hkey as [-> | [-> | ->]]; [reflexivity | reflexivity | contradiction]. }
    rewrite Hdo in Hbackup.
    assert (Hother : backupKeyAt key clock <> key
                     /\ backupKeyAt key clock <> STORAGE_KEYS.METADATA).
    { split; intros Heq.
      - rewrite <- Heq in Hnotbackup. unfold backupKeyAt in Hnotbackup.
        rewrite backup_key_has_prefix in Hnotbackup. discriminate Hnotbackup.
      - assert (Hmeta : startsWith STORAGE_KEYS.METADATA STORAGE_KEYS.BACKUP_PREFIX = false)
          by reflexivity.
        rewrite <- Heq in Hmeta. unfold backupKeyAt in Hmeta.
        rewrite backup_key_has_prefix in Hmeta. discriminate Hmeta. }
    destruct Hother as [Hnotkey Hnotmetadata].
    simpl. rewrite !lookup_insert_ne by congruence.
    apply (createBackup_stores key data clock wa wb); [| |exact Hbackup].
    + pose proof (storageSize_insert_le (ls_entries wa) (backupKeyAt key clock)
                    (JSON_stringify (backupSnapshot key data clock))) as Hsize.
      unfold backupKeyAt in *. lia.
    + apply (newestSnapshot_fewer_keys key clock w wa); [|exact Hnewest].
      now apply (cleanup_adds_no_key percentage).
  - intros Hprefs k v Hprefix Hv. subst key.
    change (ret tt wa = (Returned tt, wb)) in Hbackup.
    assert (Hsame : wb = wa) by (unfold ret in Hbackup; congruence). subst wb.
    simpl in Hv.
    rewrite !lookup_insert_ne in Hv by (intros <-; discriminate Hprefix).
    now apply (cleanup_adds_no_key percentage w wa).
Qed.

(** C9, amended.  The scheduled save makes no comparison with what the key
    holds: when the timer fires and the store has room, the value is written
    under its key and the metadata record is rewritten with the time of the
    save, also when the key already held the same serialized value.  For
    the notes and the tags a snapshot of the value has been written before
    that, under the backup key of the moment; it is in the store afterwards
    when no stored snapshot of the key has a later key.  For the
    preferences no snapshot is written. *)
Theorem debounced_save_always_writes (key : string) (data : json) (provider : Provider)
    (clock : Clock) (w : World) :
  key = STORAGE_KEYS.NOTES \/ key = STORAGE_KEYS.TAGS \/ key = STORAGE_KEYS.PREFERENCES ->
  (storageSize (ls_entries w) + saveCost key data clock <= ls_quota w)%N ->
  exists w',
    timerFires clock (debouncedSave key data provider) w
    = (Returned {| saveTimeout := None |}, w') /\
    ls_entries w' !! key = Some (JSON_stringify data) /\
    ls_entries w' !! STORAGE_KEYS.METADATA
    = Some (JSON_stringify (metadataOf clock (JSON_stringify data))) /\
    dispatched w' = dispatched w /\
    (key <> STORAGE_KEYS.PREFERENCES -> newestSnapshot key clock w = true ->
     ls_entries w' !! backupKeyAt key clock
     = Some (JSON_stringify (backupSnapshot key data clock))) /\
    (key = STORAGE_KEYS.PREFERENCES ->
     forall k v, startsWith k STORAGE_KEYS.BACKUP_PREFIX = true ->
                 ls_entries w' !! k = Some v -> ls_entries w !! k = Some v).
Proof.
  intros Hkey Hroom.
  destruct (saveToLocalStorage_writes key data clock w Hkey Hroom)
    as (w' & Hsave & Hvalue & Hmeta & Hevents & Hsnapshot & Hnone).
  exists w'. split; [|auto 6].
  unfold timerFires, debouncedSave, bind. simpl. rewrite Hsave. reflexivity.
Qed.

(** The notes are saved again over the store that already holds them and
    one snapshot: the value, the metadata record and a second snapshot are
    written. *)
Lemma debounced_save_always_writes_witness :
  exists w',
    timerFires laterClock
      (debouncedSave STORAGE_KEYS.NOTES (JArray [sampleNoteJson]) (mkProvider None))
      savedWorld
    = (Returned {| saveTimeout := None |}, w') /\
    ls_entries w' !! STORAGE_KEYS.NOTES = Some (JSON_stringify (JArray [sampleNoteJson])) /\
    ls_entries w' !! STORAGE_KEYS.METADATA
    = Some (JSON_stringify
              (metadataOf laterClock (JSON_stringify (JArray [sampleNoteJson])))) /\
    dispatched w' = dispatched savedWorld /\
    ls_entries w' !! backupKeyAt STORAGE_KEYS.NOTES laterClock
    = Some (JSON_stringify
              (backupSnapshot STORAGE_KEYS.NOTES (JArray [sampleNoteJson]) laterClock)).
Proof.
  destruct (debounced_save_always_writes STORAGE_KEYS.NOTES (JArray [sampleNoteJson])
              (mkProvider None) laterClock savedWorld)
    as (w' & Hfire & Hvalue & Hmeta & Hevents & Hsnapshot & _).
  - left. reflexivity.
  - vm_compute. discriminate.
  - exists w'. split; [exact Hfire|]. split; [exact Hvalue|]. split; [exact Hmeta|].
    split; [exact Hevents|]. apply Hsnapshot; [discriminate | vm_compute; reflexivity].
Defined.

(** C9, as written, fails: saving again the value the notes key already
    holds adds a backup snapshot and rewrites the metadata record. *)
Lemma equal_value_save_still_writes : ~ equal_value_save_is_skipped.
Proof.
  intros Hclaim.
  destruct (timerFires laterClock
              (debouncedSave STORAGE_KEYS.NOTES (JArray [sampleNoteJson]) (mkProvider None))
              savedWorld) as [[provider'|e] w'] eqn:Hfire.
  - assert (Hheld : ls_entries savedWorld !! STORAGE_KEYS.NOTES
                    = Some (JSON_stringify (JArray [sampleNoteJson])))
      by (vm_compute; reflexivity).
    assert (Hsame := Hclaim STORAGE_KEYS.NOTES (JArray [sampleNoteJson]) (mkProvider None)
                       laterClock savedWorld provider' w' Hheld Hfire).
    assert (Hbackup : ls_entries w'
                      !! (backupKeyPrefix STORAGE_KEYS.NOTES +:+ decimal (now_ms laterClock))
                      = Some (JSON_stringify
                                (backupSnapshot STORAGE_KEYS.NOTES (JArray [sampleNoteJson])
                                   laterClock))).
    { vm_compute in Hfire. apply (f_equal snd) in Hfire. simpl in Hfire. subst w'.
      vm_compute. reflexivity. }
    rewrite Hsame in Hbackup. vm_compute in Hbackup. discriminate Hbackup.
  - vm_compute in Hfire. discriminate Hfire.
Qed.

(** ** Recovery *)

Lemma filter_none {A} (f : A -> bool) (l : list A) :
  (forall x, In x l -> f x = false) -> List.filter f l = [].
Proof.
  induction l as [|x l IH]; intros H; simpl; [reflexivity|].
  rewrite (H x) by (now left). apply IH. intros y Hy. apply H. now right.
Qed.

(** When no stored key carries the prefix [attemptDataRecovery] searches,
    recovery gives back the caller's default and writes nothing. *)
Lemma recovery_without_matching_keys (key : string) (defaultValue : json) (clock : Clock)
    (w : World) :
  (forall k, is_Some (ls_entries w !! k) -> startsWith k (recoveryPrefix key) = false) ->
  attemptDataRecovery key defaultValue clock w = (Returned defaultValue, w).
Proof.
  intros Hnone. unfold attemptDataRecovery, tryCatch, bind, Object_keys.
  rewrite filter_none; [reflexivity|].
  intros k Hin. apply Hnone.
  apply List.in_map_iff in Hin as ([k' v] & <- & Hin). simpl.
  exists v. apply elem_of_map_to_list, list_elem_of_In. exact Hin.
Qed.

(** The search itself works: a valid snapshot under the searched prefix is
    returned and written back under the notes key. *)
Lemma recovery_under_searched_prefix :
  exists w',
    loadFromLocalStorage STORAGE_KEYS.NOTES (JArray []) laterClock recoverableWorld
    = (Returned (JArray [sampleNoteJson]), w') /\
    ls_entries w' !! STORAGE_KEYS.NOTES = Some (JSON_stringify (JArray [sampleNoteJson])).
Proof.
  eexists. split.
  - vm_compute. reflexivity.
  - vm_compute. reflexivity.
Qed.

(** ** [StorageUtils.importData] *)

(** The import of [StorageUtils] does not look at the version and saves what
    it finds: here the notes of a version-2 export, while the ill-typed tags
    are skipped. *)
Lemma StorageUtils_import_ignores_version :
  exists w',
    StorageUtils.importData wrappedPayload laterClock (emptyWorld 5000000)
    = (Returned true, w') /\
    ls_entries w' !! STORAGE_KEYS.NOTES = Some (JSON_stringify (JArray [sampleNoteJson])) /\
    ls_entries w' !! STORAGE_KEYS.TAGS = None.
Proof.
  eexists. split; [|split].
  - vm_compute. reflexivity.
  - vm_compute. reflexivity.
  - vm_compute. reflexivity.
Qed.

(** * Further properties *)

(** ** The reducer *)

Lemma map_id_conditional (f : Note -> Note) (id : string) (l : list Note) :
  (forall note, note_id (f note) = note_id note) ->
  List.map note_id
    (List.map (fun note => if String.eqb (note_id note) id then f note else note) l)
  = List.map note_id l.
Proof.
  intros Hf. apply map_ids_preserved.
  intros note. destruct (String.eqb (note_id note) id); [apply Hf | reflexivity].
Qed.

(** X1.  No action other than an import removes or reorders notes: the ids
    of the notes stay as they are, with the id of the new note put in front
    by [ADD_NOTE]; an import replaces them by the ids it brings. *)
Theorem reducer_keeps_notes (env : Env) (state : AppState) (action : AppAction) :
  List.map note_id (notes (appReducer env state action))
  = match action with
    | ADD_NOTE _ => env_uuid env :: List.map note_id (notes state)
    | IMPORT_DATA notes' _ _ => List.map note_id notes'
    | _ => List.map note_id (notes state)
    end.
Proof.
  destruct action; simpl; try reflexivity.
  - destruct (List.find _ (notes state)); [|reflexivity].
    destruct (hasChanges n changes); simpl; [|reflexivity].
    now apply map_id_conditional.
  - now apply map_id_conditional.
  - now apply map_id_conditional.
  - now apply mapAlloc_ids.
Qed.

(** ** The list of notes *)

Lemma filter_when (b : bool) {A} (f : A -> bool) (l : list A) :
  (if b then List.filter f l else l) = List.filter (fun x => negb b || f x) l.
Proof.
  destruct b; simpl; [reflexivity|].
  induction l as [|x l IH]; simpl; [reflexivity | now rewrite <- IH].
Qed.

Lemma filter_twice {A} (f g : A -> bool) (l : list A) :
  List.filter g (List.filter f l) = List.filter (fun x => f x && g x) l.
Proof.
  induction l as [|x l IH]; simpl; [reflexivity|].
  destruct (f x); simpl; [destruct (g x)|]; now rewrite IH.
Qed.

Lemma partition_perm {A} (p : A -> bool) (l : list A) :
  Permutation (List.filter p l ++ List.filter (fun x => negb (p x)) l) l.
Proof.
  induction l as [|x l IH]; simpl; [reflexivity|].
  destruct (p x); simpl.
  - now constructor.
  - rewrite <- Permutation_middle. now constructor.
Qed.

(** The notes before sorting: one filter. *)
Lemma getFilteredNotes_perm_sorted (localeCompare : string -> string -> Z)
    (state : AppState) :
  getFilteredNotes localeCompare (withShowPinned false state)
  = arraySort (sortCompare (compareNotes localeCompare (filters (withShowPinned false state))))
              (List.filter (isListed state) (notes state)).
Proof.
  unfold getFilteredNotes. simpl.
  f_equal.
  rewrite !filter_when, !filter_twice.
  apply List.filter_ext. intros note. unfold isListed.
  destruct (filter_tags (filters state)) as [|t ts]; simpl;
    destruct (truthy (note_deletedAt note)), (showArchived (filters state)),
             (note_archived note), (showUntagged (filters state)),
             (String.eqb (search (filters state)) "");
    simpl; rewrite ?andb_true_r, ?andb_false_r, ?orb_true_r, ?orb_false_r;
    try reflexivity;
    repeat match goal with
           | |- context [matchesTags ?m ?l ?n] => destruct (matchesTags m l n)
           | |- context [matchesSearch ?q ?n] => destruct (matchesSearch q n)
           | |- context [(?a =? 0)%nat] => destruct (a =? 0)%nat
           end; reflexivity.
Qed.

Lemma filtered_notes_pinned_split (localeCompare : string -> string -> Z)
    (state : AppState) :
  showPinned (filters state) = true ->
  getFilteredNotes localeCompare state
  = List.filter (fun note => note_pinned note)
      (getFilteredNotes localeCompare (withShowPinned false state))
    ++ List.filter (fun note => negb (note_pinned note))
         (getFilteredNotes localeCompare (withShowPinned false state)).
Proof.
  intros Hpin. unfold getFilteredNotes. simpl. rewrite Hpin. reflexivity.
Qed.

Lemma filtered_notes_perm (localeCompare : string -> string -> Z)
    (state : AppState) :
  Permutation (getFilteredNotes localeCompare state)
              (List.filter (isListed state) (notes state)).
Proof.
  assert (Hsorted := getFilteredNotes_perm_sorted localeCompare state).
  assert (Hperm : Permutation (getFilteredNotes localeCompare (withShowPinned false state))
                              (List.filter (isListed state) (notes state))).
  { rewrite Hsorted. apply arraySort_perm. }
  destruct (showPinned (filters state)) eqn:Hpin.
  - assert (Hsplit := filtered_notes_pinned_split localeCompare state Hpin).
    rewrite Hsplit. rewrite partition_perm. exact Hperm.
  - assert (Hsame : getFilteredNotes localeCompare state
                    = getFilteredNotes localeCompare (withShowPinned false state)).
    { unfold getFilteredNotes. simpl. now rewrite Hpin. }
    now rewrite Hsame.
Qed.

(** X2.  Whatever the filters, the sort and the pinning, [getFilteredNotes]
    returns the notes that pass the tests of all its stages, each as often
    as it occurs in the state: it drops and reorders notes but neither
    invents nor repeats one. *)
Theorem filtered_notes_are_the_listed_notes (localeCompare : string -> string -> Z)
    (state : AppState) :
  Permutation (getFilteredNotes localeCompare state)
              (List.filter (isListed state) (notes state)).
Proof.
  assert (Hsorted := getFilteredNotes_perm_sorted localeCompare state).
  assert (Hperm : Permutation (getFilteredNotes localeCompare (withShowPinned false state))
                              (List.filter (isListed state) (notes state))).
  { rewrite Hsorted. apply arraySort_perm. }
  destruct (showPinned (filters state)) eqn:Hpin.
  - assert (Hsplit := filtered_notes_pinned_split localeCompare state Hpin).
    rewrite Hsplit. rewrite partition_perm. exact Hperm.
  - assert (Hsame : getFilteredNotes localeCompare state
                    = getFilteredNotes localeCompare (withShowPinned false state)).
    { unfold getFilteredNotes. simpl. now rewrite Hpin. }
    now rewrite Hsame.
Qed.

Lemma listed_note_facts (localeCompare : string -> string -> Z) (state : AppState)
    (note : Note) :
  In note (getFilteredNotes localeCompare state) <->
  In note (notes state) /\ isListed state note = true.
Proof.
  rewrite <- List.filter_In. split; apply Permutation_in;
    [|symmetry]; apply filtered_notes_perm.
Qed.

Lemma find_by_id_some (id : string) (l : list Note) (note : Note) :
  List.find (fun n => String.eqb (note_id n) id) l = Some note ->
  In note l /\ note_id note = id.
Proof.
  intros H. apply List.find_some in H as [Hin Hid]. split; [exact Hin|].
  now apply String.eqb_eq.
Qed.

(** X3.  After [DELETE_NOTE] no note with the deleted id is listed by
    [getFilteredNotes], whatever the filters, none is the selected note,
    and [isNoteSelected] answers [false] for the id. *)
Theorem deleted_note_is_hidden (localeCompare : string -> string -> Z) (env : Env)
    (state : AppState) (id : string) :
  let state' := appReducer env state (DELETE_NOTE id) in
  (forall note, In note (getFilteredNotes localeCompare state') -> note_id note <> id) /\
  (forall note, getSelectedNote state' = Some note -> note_id note <> id) /\
  isNoteSelected state' id = false.
Proof.
  split; [|split].
  - intros note Hin Hid. apply listed_note_facts in Hin as [Hin Hlisted].
    simpl in Hin. apply List.in_map_iff in Hin as (original & Heq & _).
    destruct (String.eqb_spec (note_id original) id) as [_|Hne].
    + subst note. unfold isListed in Hlisted. simpl in Hlisted. discriminate Hlisted.
    + subst note. contradiction.
  - intros note. unfold getSelectedNote. simpl.
    destruct (selectedNoteId state) as [sel|]; [|discriminate].
    destruct (String.eqb_spec sel id) as [_|Hne]; [discriminate|].
    intros Hfind. apply find_by_id_some in Hfind as [_ Hid]. congruence.
  - unfold isNoteSelected. simpl.
    destruct (selectedNoteId state) as [sel|]; [|reflexivity].
    destruct (String.eqb sel id) eqn:Hsel; [reflexivity | exact Hsel].
Qed.

(** X4.  Restoring after deleting gives the notes that restoring alone
    gives: deletion loses nothing but the deletion mark, and neither step
    moves [updatedAt]. *)
Theorem restore_undoes_delete (env1 env2 : Env) (state : AppState) (id : string) :
  let restored := appReducer env2 (appReducer env1 state (DELETE_NOTE id)) (RESTORE_NOTE id) in
  notes restored = notes (appReducer env2 state (RESTORE_NOTE id)) /\
  List.map note_updatedAt (notes restored) = List.map note_updatedAt (notes state) /\
  (forall note, In note (notes restored) -> note_id note = id ->
                note_deletedAt note = null).
Proof.
  simpl. split; [|split].
  - rewrite List.map_map. apply List.map_ext. intros note.
    destruct (String.eqb (note_id note) id) eqn:Hid; simpl; now rewrite Hid.
  - rewrite !List.map_map. apply List.map_ext. intros note.
    destruct (String.eqb (note_id note) id) eqn:Hid; simpl; now rewrite Hid.
  - intros note Hin Hid. rewrite List.map_map in Hin.
    apply List.in_map_iff in Hin as (original & <- & _).
    destruct (String.eqb (note_id original) id) eqn:Horig; simpl in *.
    + rewrite Horig. reflexivity.
    + rewrite Horig in *. apply String.eqb_neq in Horig. contradiction.
Qed.

(** ** Sorting by date *)

Lemma insertSorted_ext {A} (compare compare' : A -> A -> Z) (x : A) (l : list A) :
  (forall y, In y l -> compare x y = compare' x y) ->
  insertSorted compare x l = insertSorted compare' x l.
Proof.
  induction l as [|y l IH]; intros Hsame; simpl; [reflexivity|].
  rewrite (Hsame y) by (now left).
  destruct (compare' x y <=? 0); [reflexivity|].
  f_equal. apply IH. intros z Hz. apply Hsame. now right.
Qed.

(** Sorting reads the comparison function on the elements of the list
    only. *)
Lemma arraySort_ext {A} (compare compare' : A -> A -> Z) (l : list A) :
  (forall x y, In x l -> In y l -> compare x y = compare' x y) ->
  arraySort compare l = arraySort compare' l.
Proof.
  induction l as [|x l IH]; intros Hsame; [reflexivity|].
  unfold arraySort in *. simpl.
  rewrite IH by (intros a b Ha Hb; apply Hsame; now right).
  apply insertSorted_ext. intros y Hy. apply Hsame; [now left|].
  right. now apply (arraySort_In compare' l y).
Qed.

Lemma strongly_sorted_weaken_in {A} (R R' : A -> A -> Prop) (l : list A) :
  (forall a b, In a l -> In b l -> R a b -> R' a b) ->
  StronglySorted R l -> StronglySorted R' l.
Proof.
  intros Himpl Hsorted. induction Hsorted as [|x l Hl IH Hx]; [constructor|].
  constructor.
  - apply IH. intros a b Ha Hb. apply Himpl; now right.
  - apply List.Forall_forall. intros y Hy.
    rewrite List.Forall_forall in Hx. apply Himpl; [now left | now right | auto].
Qed.

(** X5.  Sorted by a date field, the notes come out in the order of that
    date, ascending or descending as asked, provided the field is a date in
    every note: a text that is no date makes the comparison function
    inconsistent and leaves the order to the implementation.  (Shown on
    the sequence before pinned notes are moved, and on each of the two
    groups.) *)
Theorem filtered_notes_sorted_by_date (localeCompare : string -> string -> Z)
    (state : AppState) :
  sortBy (filters state) <> sortTitle ->
  sortDates_valid state ->
  let sorted := getFilteredNotes localeCompare (withShowPinned false state) in
  StronglySorted (dateOrder (filters state)) sorted /\
  StronglySorted (dateOrder (filters state))
                 (List.filter (fun note => note_pinned note) sorted) /\
  StronglySorted (dateOrder (filters state))
                 (List.filter (fun note => negb (note_pinned note)) sorted).
Proof.
  intros Hby Hvalid sorted.
  set (f := filters state) in *.
  set (time := fun note : Note => match sortDate (sortBy f) note with
                                  | Some t => t
                                  | None => 0
                                  end).
  set (byTime := fun a b : Note => match sortDirection f with
                                   | asc => time a - time b
                                   | desc => time b - time a
                                   end).
  assert (Hconsistent : Consistent byTime).
  { split; intros; unfold byTime in *; destruct (sortDirection f); lia. }
  unfold sortDates_valid in Hvalid. rewrite List.Forall_forall in Hvalid.
  assert (Hlisted : forall note, In note (List.filter (isListed state) (notes state)) ->
                                 sortDate (sortBy f) note <> None).
  { intros note Hin. apply List.filter_In in Hin as [Hin _]. now apply Hvalid. }
  assert (Heq : sorted = arraySort byTime (List.filter (isListed state) (notes state))).
  { unfold sorted. rewrite getFilteredNotes_perm_sorted. apply arraySort_ext.
    intros x y Hx Hy. apply Hlisted in Hx, Hy.
    unfold sortCompare, compareNotes, byTime, time, minus.
    change (sortBy (filters (withShowPinned false state))) with (sortBy f).
    change (sortDirection (filters (withShowPinned false state))) with (sortDirection f).
    destruct (sortBy f); [| |contradiction];
      match goal with
      | |- context [sortDate ?field x] =>
          destruct (sortDate field x), (sortDate field y), (sortDirection f);
          congruence
      end. }
  assert (Hsorted : StronglySorted (dateOrder f) sorted).
  { rewrite Heq.
    apply (strongly_sorted_weaken_in (fun a b => byTime a b <= 0)).
    - intros a b Ha Hb. apply arraySort_In in Ha, Hb. apply Hlisted in Ha, Hb.
      unfold byTime, time, dateOrder.
      destruct (sortDate (sortBy f) a), (sortDate (sortBy f) b), (sortDirection f);
        try congruence; lia.
    - now apply arraySort_sorted. }
  repeat split; [exact Hsorted | |]; now apply filter_strongly_sorted.
Qed.

Lemma filtered_notes_sorted_by_date_witness :
  StronglySorted (dateOrder (filters (dateExample sortUpdatedAt desc)))
    (getFilteredNotes codeUnitCompare (withShowPinned false (dateExample sortUpdatedAt desc))).
Proof.
  apply (filtered_notes_sorted_by_date codeUnitCompare (dateExample sortUpdatedAt desc)).
  - discriminate.
  - unfold sortDates_valid. simpl. repeat constructor; discriminate.
Defined.

(** With a field that is no date the comparison function is not
    consistent: the note without a date compares as equal to an earlier and
    to a later note. *)
Lemma undated_note_breaks_consistency (localeCompare : string -> string -> Z) :
  ~ Consistent (sortCompare
                  (compareNotes localeCompare (filters (dateExample sortUpdatedAt asc)))).
Proof.
  intros [_ Htrans].
  specialize (Htrans (sampleNote "2" "y" (mkStrArray 2 []) 30) undatedNote
                (sampleNote "3" "z" (mkStrArray 3 []) 10)).
  unfold sortCompare, compareNotes in Htrans. simpl in Htrans. lia.
Qed.

(** Most recently updated first. *)
Lemma sort_by_date_example localeCompare :
  List.map note_id (getFilteredNotes localeCompare (dateExample sortUpdatedAt desc))
  = ["2"; "1"; "3"].
Proof. reflexivity. Qed.

(** X6.  The untagged filter and a tag filter do not go together: with
    filter tags chosen and [showUntagged] set, no note is listed. *)
Theorem untagged_with_tag_filter_lists_nothing (localeCompare : string -> string -> Z)
    (state : AppState) :
  filter_tags (filters state) <> [] ->
  showUntagged (filters state) = true ->
  getFilteredNotes localeCompare state = [].
Proof.
  intros Htags Hunt. apply Permutation_nil. symmetry.
  rewrite filtered_notes_perm.
  rewrite filter_none; [reflexivity|].
  intros note _. unfold isListed. rewrite Hunt.
  destruct (filter_tags (filters state)) as [|t ts] eqn:Hft; [contradiction|].
  destruct (arr_items (note_tagIds note)) as [|x xs] eqn:Hitems; simpl.
  - assert (Hno : matchesTags (tagFilterMode (preferences state)) (t :: ts) note = false).
    { unfold matchesTags. rewrite Hitems. destruct (tagFilterMode (preferences state));
        reflexivity. }
    rewrite Hno. now rewrite !andb_false_r.
  - now rewrite !andb_false_r.
Qed.

Lemma untagged_with_tag_filter_lists_nothing_witness :
  getFilteredNotes codeUnitCompare
    (appReducer (mkEnv 1 "u" 9) (tagExample ANY ["x"])
       (UPDATE_FILTERS
          {| fch_search := None; fch_tags := None; fch_showArchived := None;
             fch_showPinned := None; fch_showUntagged := Some true; fch_sortBy := None;
             fch_sortDirection := None |}))
  = [].
Proof.
  apply untagged_with_tag_filter_lists_nothing; [discriminate | reflexivity].
Defined.

(** ** Tags of the store *)

Lemma in_tag_ids_after_map (f : Tag -> Tag) (l : list Tag) :
  (forall tag, tag_id (f tag) = tag_id tag) ->
  List.map tag_id (List.map f l) = List.map tag_id l.
Proof.
  intros Hf. rewrite List.map_map. apply List.map_ext. exact Hf.
Qed.

Lemma update_tag_keeps_ids (now : Timestamp) (id : string) (changes : TagChanges)
    (l : list Tag) :
  List.map tag_id
    (List.map (fun tag => if String.eqb (tag_id tag) id
                          then applyTagChanges now tag changes else tag) l)
  = List.map tag_id l.
Proof.
  apply in_tag_ids_after_map. intros tag. now destruct (String.eqb (tag_id tag) id).
Qed.

(** X7.  Referential integrity of tag ids: when every tag id carried by a
    note names a tag of the store, and the dispatched action brings in only
    ids of tags of the store, the same holds after the action.  Deleting a
    tag keeps it by removing the id from the notes. *)
Theorem reducer_keeps_tags_resolved (env : Env) (state : AppState) (action : AppAction) :
  tags_resolved state ->
  action_tags_resolved state action ->
  tags_resolved (appReducer env state action).
Proof.
  intros Hres Hact. unfold tags_resolved in *.
  destruct action as [payload|id changes|id|id|payload|id changes|id|payload|payload|id|e|ns ts ps];
    simpl in *; try exact Hres.
  - intros note tagId [<-|Hin] Htag; simpl in *; eauto.
  - destruct (List.find _ (notes state)) as [target|]; [|exact Hres].
    destruct (hasChanges target changes); simpl; [|exact Hres].
    intros note tagId Hin Htag. apply List.in_map_iff in Hin as (original & <- & Hin).
    destruct (String.eqb (note_id original) id); [|eauto].
    simpl in Htag. destruct (ch_tagIds changes) as [a|] eqn:Ha; simpl in Htag; eauto.
  - intros note tagId Hin Htag. apply List.in_map_iff in Hin as (original & <- & Hin).
    destruct (String.eqb (note_id original) id); simpl in Htag; eauto.
  - intros note tagId Hin Htag. apply List.in_map_iff in Hin as (original & <- & Hin).
    destruct (String.eqb (note_id original) id); simpl in Htag; eauto.
  - intros note tagId Hin Htag. rewrite List.map_app. apply List.in_or_app. left. eauto.
  - intros note tagId Hin Htag. rewrite update_tag_keeps_ids. eauto.
  - intros note tagId Hin Htag.
    apply mapAlloc_elem in Hin as (r & original & Hin & ->). simpl in Htag.
    apply List.filter_In in Htag as [Htag Hne].
    specialize (Hres _ _ Hin Htag).
    apply List.in_map_iff in Hres as (tag & Hid & Htagin).
    apply List.in_map_iff. exists tag. split; [exact Hid|].
    apply List.filter_In. split; [exact Htagin|]. now rewrite Hid.
  - exact Hact.
Qed.

Lemma reducer_keeps_tags_resolved_witness :
  tags_resolved (appReducer (mkEnv 9 "u" 7) taggedState (DELETE_TAG "x")).
Proof.
  apply reducer_keeps_tags_resolved.
  - intros note tagId Hin Htag. simpl in *.
    repeat match goal with
           | H : _ \/ _ |- _ => destruct H as [H|H]
           | H : False |- _ => destruct H
           | H : _ = note |- _ => subst note; simpl in *
           end; subst; tauto.
  - exact I.
Defined.

(** X8.  Tag ids stay pairwise distinct under every action but an import,
    as long as the generator hands out an id no tag has. *)
Theorem reducer_keeps_tag_ids_unique (env : Env) (state : AppState) (action : AppAction) :
  tag_ids_unique state ->
  uuid_fresh_for_tags env state ->
  (forall ns ts ps, action = IMPORT_DATA ns ts ps -> List.NoDup (List.map tag_id ts)) ->
  tag_ids_unique (appReducer env state action).
Proof.
  unfold tag_ids_unique, uuid_fresh_for_tags. intros Huniq Hfresh Himport.
  destruct action as [payload|id changes|id|id|payload|id changes|id|payload|payload|id|e|ns ts ps];
    simpl; try exact Huniq.
  - destruct (List.find _ (notes state)) as [target|]; [|exact Huniq].
    now destruct (hasChanges target changes).
  - rewrite List.map_app. simpl.
    apply List.NoDup_app_remove_l with (l := []). simpl.
    apply Permutation_NoDup with (l := env_uuid env :: List.map tag_id (tags state)).
    + apply Permutation_cons_append.
    + now constructor.
  - now rewrite update_tag_keeps_ids.
  - induction (tags state) as [|tag l IH]; simpl; [constructor|].
    inversion Huniq as [|? ? Hnotin Hrest]; subst.
    assert (Hsub : forall x, In x (List.map tag_id
                     (List.filter (fun tag => negb (String.eqb (tag_id tag) id)) l)) ->
                   In x (List.map tag_id l)).
    { intros x Hx. apply List.in_map_iff in Hx as (t & <- & Ht).
      apply List.filter_In in Ht as [Ht _]. now apply List.in_map. }
    destruct (String.eqb (tag_id tag) id); simpl.
    + apply IH; [exact Hrest|]. intros Hin. apply Hfresh. now right.
    + constructor; [intros Hin; apply Hnotin; now apply Hsub|].
      apply IH; [exact Hrest|]. intros Hin. apply Hfresh. now right.
  - eapply Himport. reflexivity.
Qed.

Lemma reducer_keeps_tag_ids_unique_witness :
  tag_ids_unique
    (appReducer (mkEnv 9 "u" 7) taggedState
       (ADD_TAG {| nt_name := "Errands"; nt_color := None |})).
Proof.
  apply reducer_keeps_tag_ids_unique.
  - unfold tag_ids_unique. simpl. repeat constructor; simpl; intuition discriminate.
  - unfold uuid_fresh_for_tags. simpl. intuition discriminate.
  - intros ns ts ps Heq. discriminate Heq.
Defined.

Lemma find_mapAlloc (f : nat -> Note -> Note) (id : string) (ref : nat) (l : list Note) :
  (forall r note, note_id (f r note) = note_id note) ->
  match List.find (fun n => String.eqb (note_id n) id) l with
  | None => List.find (fun n => String.eqb (note_id n) id) (mapAlloc f ref l) = None
  | Some note =>
      exists r, List.find (fun n => String.eqb (note_id n) id) (mapAlloc f ref l)
                = Some (f r note)
  end.
Proof.
  intros Hf. revert ref. induction l as [|x l IH]; intros ref; simpl; [reflexivity|].
  rewrite Hf. destruct (String.eqb (note_id x) id); [now exists ref|]. apply IH.
Qed.

(** X9.  After [DELETE_TAG] the tags of every note are its former tags
    without the deleted one; nothing else about them changes. *)
Theorem tags_for_note_after_delete_tag (env : Env) (state : AppState)
    (id noteId : string) :
  getTagsForNote (appReducer env state (DELETE_TAG id)) noteId
  = List.filter (fun tag => negb (String.eqb (tag_id tag) id))
                (getTagsForNote state noteId).
Proof.
  unfold getTagsForNote. simpl.
  pose proof (find_mapAlloc (removeTagId id) noteId (env_heap env) (notes state)
                (fun _ _ => eq_refl)) as Hfind.
  destruct (List.find _ (notes state)) as [note|].
  - destruct Hfind as [r ->]. simpl. rewrite !filter_twice.
    apply List.filter_ext. intros tag.
    destruct (String.eqb (tag_id tag) id) eqn:Hid; simpl.
    + now rewrite andb_false_r.
    + rewrite andb_true_r. apply String.eqb_neq in Hid.
      destruct (arrayIncludes (arr_items (note_tagIds note)) (tag_id tag)) eqn:Hinc.
      * apply arrayIncludes_In. apply List.filter_In. split.
        -- now apply arrayIncludes_In.
        -- now apply negb_true_iff, String.eqb_neq.
      * destruct (arrayIncludes (List.filter _ _) (tag_id tag)) eqn:Hinc'; [|reflexivity].
        apply arrayIncludes_In, List.filter_In in Hinc' as [Hin _].
        apply arrayIncludes_In in Hin. congruence.
  - rewrite Hfind. reflexivity.
Qed.

(** ** The handlers of the components *)

Lemma toggled_present (ids : list string) (id : string) :
  In id ids -> toggled ids id = List.filter (fun x => negb (String.eqb x id)) ids.
Proof.
  intros Hin. unfold toggled. apply arrayIncludes_In in Hin. now rewrite Hin.
Qed.

Lemma toggled_absent (ids : list string) (id : string) :
  ~ In id ids -> toggled ids id = ids ++ [id].
Proof.
  intros Hin. unfold toggled.
  destruct (arrayIncludes ids id) eqn:Hinc; [|reflexivity].
  apply arrayIncludes_In in Hinc. contradiction.
Qed.

Lemma filter_other_ids (ids : list string) (id : string) :
  ~ In id ids -> List.filter (fun x => negb (String.eqb x id)) ids = ids.
Proof.
  induction ids as [|x ids IH]; simpl; intros Hin; [reflexivity|].
  destruct (String.eqb_spec x id) as [->|_]; simpl; [tauto|].
  rewrite IH; tauto.
Qed.

Lemma toggled_spec (ids : list string) (id x : string) :
  (In x (toggled ids id) <-> if String.eqb x id then ~ In id ids else In x ids) /\
  toggled (toggled ids id) id
  = if arrayIncludes ids id
    then List.filter (fun y => negb (String.eqb y id)) ids ++ [id]
    else ids.
Proof.
  split.
  - destruct (List.in_dec string_dec id ids) as [Hin|Hout].
    + rewrite toggled_present by exact Hin. rewrite List.filter_In.
      destruct (String.eqb_spec x id) as [->|Hne]; simpl; intuition congruence.
    + rewrite toggled_absent by exact Hout. rewrite List.in_app_iff. simpl.
      destruct (String.eqb_spec x id) as [->|Hne]; intuition congruence.
  - destruct (List.in_dec string_dec id ids) as [Hin|Hout].
    + rewrite (toggled_present _ _ Hin).
      pose proof Hin as Hinc. apply arrayIncludes_In in Hinc. rewrite Hinc.
      apply toggled_absent. rewrite List.filter_In, negb_true_iff, String.eqb_neq. tauto.
    + rewrite (toggled_absent _ _ Hout).
      assert (Hinc : arrayIncludes ids id = false).
      { destruct (arrayIncludes ids id) eqn:H; [|reflexivity].
        apply arrayIncludes_In in H. contradiction. }
      rewrite Hinc. rewrite toggled_present by (apply List.in_or_app; right; now left).
      rewrite List.filter_app. simpl. rewrite String.eqb_refl. simpl.
      rewrite List.app_nil_r. now apply filter_other_ids.
Qed.

(** X10.  A click on a tag in the tag filter flips the membership of that
    tag id in the filter and of no other: an id other than the clicked one
    is selected afterwards exactly when it was before, and the clicked one
    exactly when it was not.  Two clicks do not always give the filter
    back: when the id was selected, every occurrence is removed by the
    first click and one is appended by the second, so the id moves to the
    end.  The notes are not touched. *)
Theorem tag_click_flips_one_membership (env env' : Env) (state : AppState)
    (id x : string) :
  let state' := appReducer env state (handleTagClick (filters state) id) in
  let state'' := appReducer env' state' (handleTagClick (filters state') id) in
  (In x (filter_tags (filters state'))
   <-> if String.eqb x id then ~ In id (filter_tags (filters state))
       else In x (filter_tags (filters state))) /\
  filter_tags (filters state'')
  = (if arrayIncludes (filter_tags (filters state)) id
     then List.filter (fun y => negb (String.eqb y id)) (filter_tags (filters state)) ++ [id]
     else filter_tags (filters state)) /\
  notes state'' = notes state.
Proof.
  simpl. destruct (toggled_spec (filter_tags (filters state)) id x) as [Hflip Htwice].
  split; [exact Hflip|]. split; [exact Htwice | reflexivity].
Qed.

Lemma find_map_by_id (f : Note -> Note) (id : string) (l : list Note) :
  (forall note, note_id (f note) = note_id note) ->
  List.find (fun n => String.eqb (note_id n) id) (List.map f l)
  = option_map f (List.find (fun n => String.eqb (note_id n) id) l).
Proof.
  intros Hf. induction l as [|x l IH]; simpl; [reflexivity|].
  rewrite Hf. now destruct (String.eqb (note_id x) id).
Qed.

(** X11.  [toggleTag] always changes the selected note: the toggled list
    is a new array, which the reducer's comparison never finds identical
    to the current one, so the note gets the toggled tag ids and the time
    of the call as [updatedAt], and stays the selected note. *)
Theorem toggle_tag_updates_selected_note (env : Env) (state : AppState)
    (selectedNote : Note) (tagId : string) (ref : nat) :
  getSelectedNote state = Some selectedNote ->
  ref <> arr_ref (note_tagIds selectedNote) ->
  exists note,
    getSelectedNote (appReducer env state (toggleTag selectedNote tagId ref)) = Some note /\
    arr_items (note_tagIds note) = toggled (arr_items (note_tagIds selectedNote)) tagId /\
    note_updatedAt note = iso (env_now env) /\
    note_title note = note_title selectedNote /\
    note_body note = note_body selectedNote.
Proof.
  unfold getSelectedNote. intros Hsel Hfresh.
  destruct (selectedNoteId state) as [sel|] eqn:Hid; [|discriminate].
  pose proof Hsel as Hfound. apply find_by_id_some in Hfound as [_ Hsame].
  subst sel. simpl. rewrite Hsel.
  assert (Hchanged : hasChanges selectedNote
            {| ch_title := None; ch_body := None;
               ch_tagIds := Some {| arr_ref := ref;
                                    arr_items := toggled (arr_items (note_tagIds selectedNote)) tagId |};
               ch_pinned := None; ch_archived := None; ch_createdAt := None;
               ch_updatedAt := None; ch_deletedAt := None |} = true).
  { unfold hasChanges, differs, array_same. simpl.
    assert (Hne : Nat.eqb (arr_ref (note_tagIds selectedNote)) ref = false)
      by (apply Nat.eqb_neq; congruence).
    rewrite Hne. reflexivity. }
  rewrite Hchanged. simpl. rewrite Hid.
  rewrite find_map_by_id
    by (intros note; now destruct (String.eqb (note_id note) (note_id selectedNote))).
  rewrite Hsel. simpl. rewrite String.eqb_refl.
  eexists. split; [reflexivity|]. simpl. auto.
Qed.

Lemma toggle_tag_updates_selected_note_witness :
  exists note,
    getSelectedNote (appReducer (mkEnv 9 "u" 7) taggedState (toggleTag noteA "y" 8))
    = Some note /\
    arr_items (note_tagIds note) = toggled (arr_items (note_tagIds noteA)) "y" /\
    note_updatedAt note = iso 9 /\
    note_title note = note_title noteA /\
    note_body note = note_body noteA.
Proof.
  apply (toggle_tag_updates_selected_note (mkEnv 9 "u" 7) taggedState noteA "y" 8).
  - reflexivity.
  - simpl. lia.
Defined.

Lemma existsb_lower_name (name : string) (l : list Tag) :
  existsb (fun tag => String.eqb (toLowerCase (tag_name tag)) (toLowerCase name)) l = false ->
  ~ In (toLowerCase name) (List.map (fun tag => toLowerCase (tag_name tag)) l).
Proof.
  intros Hex Hin. apply List.in_map_iff in Hin as (tag & Heq & Hin).
  assert (Htrue : existsb (fun tag => String.eqb (toLowerCase (tag_name tag))
                                                 (toLowerCase name)) l = true).
  { apply List.existsb_exists. exists tag. split; [exact Hin|]. now apply String.eqb_eq. }
  congruence.
Qed.

(** X12.  [handleCreateTag] keeps tag names distinct up to case: the tag
    it adds carries the trimmed input as its name, which is not empty and
    is not, ignoring case, the name of an existing tag; for a blank or
    taken name it dispatches nothing. *)
Theorem create_tag_keeps_names_distinct (env : Env) (state : AppState)
    (newTagName : string) (hue : N) (action : AppAction) :
  tag_names_distinct state ->
  handleCreateTag (tags state) newTagName hue = Some action ->
  tag_names_distinct (appReducer env state action) /\
  exists tag,
    tags (appReducer env state action) = tags state ++ [tag] /\
    tag_name tag = trim newTagName /\ tag_name tag <> "" /\
    notes (appReducer env state action) = notes state.
Proof.
  unfold handleCreateTag, tag_names_distinct. intros Hdistinct Hcreate.
  destruct (String.eqb_spec (trim newTagName) "") as [|Hnonempty]; [discriminate|].
  destruct (existsb _ (tags state)) eqn:Hex; [discriminate|].
  injection Hcreate as <-. simpl. split.
  - rewrite List.map_app. simpl.
    apply Permutation_NoDup
      with (l := toLowerCase (trim newTagName)
                 :: List.map (fun tag => toLowerCase (tag_name tag)) (tags state)).
    + apply Permutation_cons_append.
    + constructor; [now apply existsb_lower_name | exact Hdistinct].
  - eexists. split; [reflexivity|]. simpl. auto.
Qed.

Lemma create_tag_keeps_names_distinct_witness :
  tag_names_distinct
    (appReducer (mkEnv 9 "u" 7) taggedState
       (ADD_TAG {| nt_name := "Errands"; nt_color := Some (generateRandomColor 200) |})) /\
  exists tag,
    tags (appReducer (mkEnv 9 "u" 7) taggedState
            (ADD_TAG {| nt_name := "Errands";
                        nt_color := Some (generateRandomColor 200) |}))
    = tags taggedState ++ [tag] /\
    tag_name tag = trim "  Errands " /\ tag_name tag <> "" /\
    notes (appReducer (mkEnv 9 "u" 7) taggedState
             (ADD_TAG {| nt_name := "Errands";
                         nt_color := Some (generateRandomColor 200) |}))
    = notes taggedState.
Proof.
  apply (create_tag_keeps_names_distinct (mkEnv 9 "u" 7) taggedState "  Errands " 200).
  - unfold tag_names_distinct. simpl. repeat constructor; simpl; intuition discriminate.
  - reflexivity.
Defined.

(** A name that differs only in case and surrounding blanks is refused. *)
Lemma create_tag_refuses_taken_name (hue : N) :
  handleCreateTag (tags taggedState) " HOME " hue = None.
Proof. reflexivity. Qed.

Lemma find_in_unique (l : list Note) (note : Note) :
  List.NoDup (List.map note_id l) -> In note l ->
  List.find (fun n => String.eqb (note_id n) (note_id note)) l = Some note.
Proof.
  induction l as [|x l IH]; simpl; intros Huniq Hin; [contradiction|].
  inversion Huniq as [|? ? Hnotin Hrest]; subst.
  destruct Hin as [->|Hin]; [now rewrite String.eqb_refl|].
  destruct (String.eqb_spec (note_id x) (note_id note)) as [Heq|_]; [|now apply IH].
  exfalso. apply Hnotin. rewrite Heq. now apply List.in_map.
Qed.

(** X13.  Archiving hides: when note ids are distinct and archived notes
    are not shown, the action [handleToggleArchive] dispatches for a note
    of the store that is not archived leaves no note with its id in the
    list. *)
Theorem archived_note_is_hidden (localeCompare : string -> string -> Z) (env : Env)
    (state : AppState) (note listed : Note) :
  ids_unique state ->
  In note (notes state) ->
  note_archived note = false ->
  showArchived (filters state) = false ->
  In listed (getFilteredNotes localeCompare
               (appReducer env state (handleToggleArchive note))) ->
  note_id listed <> note_id note.
Proof.
  intros Huniq Hin Harch Hshow Hlisted Hid.
  apply listed_note_facts in Hlisted as [Hmember Htest].
  unfold handleToggleArchive in *. simpl in *.
  rewrite (find_in_unique _ _ Huniq Hin) in *.
  assert (Hchanged : hasChanges note
            {| ch_title := None; ch_body := None; ch_tagIds := None; ch_pinned := None;
               ch_archived := Some (negb (note_archived note)); ch_createdAt := None;
               ch_updatedAt := None; ch_deletedAt := None |} = true).
  { unfold hasChanges, differs. simpl. rewrite Harch. reflexivity. }
  rewrite Hchanged in *. simpl in *.
  apply List.in_map_iff in Hmember as (original & Heq & _).
  destruct (String.eqb_spec (note_id original) (note_id note)) as [_|Hne].
  - subst listed. unfold isListed in Htest. simpl in Htest.
    rewrite Hshow, Harch in Htest. simpl in Htest.
    rewrite andb_false_r in Htest. discriminate Htest.
  - subst listed. contradiction.
Qed.

Lemma archived_note_is_hidden_witness : note_id noteA <> note_id noteB.
Proof.
  apply (archived_note_is_hidden codeUnitCompare (mkEnv 9 "u" 7) taggedState noteB noteA).
  - unfold ids_unique. simpl. repeat constructor; simpl; intuition discriminate.
  - simpl. tauto.
  - reflexivity.
  - reflexivity.
  - simpl. tauto.
Defined.

(** ** Tag filter modes and deleted tags *)

Lemma all_mode_implies_any (filterTags : list string) (note : Note) :
  filterTags <> [] ->
  matchesTags ALL filterTags note = true -> matchesTags ANY filterTags note = true.
Proof.
  intros Hne Hall. destruct filterTags as [|t ts]; [contradiction|].
  simpl in *. apply andb_true_iff in Hall as [Ht _].
  apply arrayIncludes_In in Ht. apply List.existsb_exists.
  exists t. split; [exact Ht|]. apply (arrayIncludes_In (t :: ts) t). now left.
Qed.

Lemma isListed_stricter_mode (strict loose : AppState) (note : Note) :
  filters strict = filters loose ->
  tagFilterMode (preferences strict) = ALL ->
  tagFilterMode (preferences loose) = ANY ->
  isListed strict note = true -> isListed loose note = true.
Proof.
  unfold isListed. intros -> -> ->.
  destruct (filter_tags (filters loose)) as [|t ts] eqn:Htags; [trivial|].
  destruct (matchesTags ALL (t :: ts) note) eqn:Hall.
  - rewrite (all_mode_implies_any (t :: ts) note) by (discriminate || exact Hall).
    trivial.
  - rewrite andb_false_r. simpl. discriminate.
Qed.

(** X14.  Matching all selected tags is the stricter mode: switching from
    ANY to ALL with [handleModeToggle] never brings a note into the list
    that was not listed before. *)
Theorem all_mode_lists_no_more (localeCompare : string -> string -> Z) (env : Env)
    (state : AppState) (note : Note) :
  tagFilterMode (preferences state) = ANY ->
  In note (getFilteredNotes localeCompare
             (appReducer env state (handleModeToggle (preferences state)))) ->
  In note (getFilteredNotes localeCompare state).
Proof.
  intros Hmode Hin. apply listed_note_facts in Hin as [Hmember Htest].
  apply listed_note_facts. split; [exact Hmember|].
  revert Htest. apply isListed_stricter_mode.
  - reflexivity.
  - simpl. now rewrite Hmode.
  - exact Hmode.
Qed.

Lemma all_mode_lists_no_more_witness :
  In noteC (getFilteredNotes codeUnitCompare (tagExample ANY ["x"; "y"])).
Proof.
  apply (all_mode_lists_no_more codeUnitCompare (mkEnv 9 "u" 7) (tagExample ANY ["x"; "y"])).
  - reflexivity.
  - simpl. tauto.
Defined.

(** X15.  [DELETE_TAG] does not touch the filter: a deleted tag that was
    selected in the tag filter stays selected, and since no note carries
    its id any more, the list is empty when all selected tags must match,
    or when it was the only selected tag. *)
Theorem deleted_tag_stays_in_filter (localeCompare : string -> string -> Z) (env : Env)
    (state : AppState) (id : string) :
  In id (filter_tags (filters state)) ->
  tagFilterMode (preferences state) = ALL \/ filter_tags (filters state) = [id] ->
  let state' := appReducer env state (DELETE_TAG id) in
  filter_tags (filters state') = filter_tags (filters state) /\
  getFilteredNotes localeCompare state' = [].
Proof.
  intros Hin Hcase state'. split; [reflexivity|].
  apply Permutation_nil. symmetry. rewrite filtered_notes_perm.
  rewrite filter_none; [reflexivity|].
  intros note Hnote. unfold state' in Hnote. simpl in Hnote.
  apply mapAlloc_elem in Hnote as (r & original & _ & ->).
  unfold isListed, state'. simpl.
  assert (Hgone : arrayIncludes
                    (List.filter (fun tagId => negb (String.eqb tagId id))
                                 (arr_items (note_tagIds original))) id = false).
  { destruct (arrayIncludes _ id) eqn:Hinc; [|reflexivity].
    apply arrayIncludes_In, List.filter_In in Hinc as [_ Hne].
    rewrite String.eqb_refl in Hne. discriminate Hne. }
  assert (Hno : matchesTags (tagFilterMode (preferences state))
                            (filter_tags (filters state))
                            (removeTagId id r original) = false).
  { unfold matchesTags, removeTagId. cbn [note_tagIds arr_items].
    destruct Hcase as [-> | ->].
    - destruct (forallb _ (filter_tags (filters state))) eqn:Hall; [|reflexivity].
      rewrite List.forallb_forall in Hall. specialize (Hall id Hin). congruence.
    - destruct (tagFilterMode (preferences state)).
      + destruct (existsb _ _) eqn:Hex; [|reflexivity].
        apply List.existsb_exists in Hex as (x & Hx & Hinc).
        apply List.filter_In in Hx as [_ Hne].
        apply (arrayIncludes_In [id] x) in Hinc. destruct Hinc as [<-|[]].
        rewrite String.eqb_refl in Hne. discriminate Hne.
      + cbn [forallb]. now rewrite Hgone. }
  destruct (filter_tags (filters state)) as [|t ts] eqn:Htags; [contradiction|].
  rewrite Hno. now rewrite !andb_false_r.
Qed.

Lemma deleted_tag_stays_in_filter_witness :
  let state' := appReducer (mkEnv 9 "u" 7) (tagExample ANY ["x"]) (DELETE_TAG "x") in
  filter_tags (filters state') = filter_tags (filters (tagExample ANY ["x"])) /\
  getFilteredNotes codeUnitCompare state' = [].
Proof.
  apply (deleted_tag_stays_in_filter codeUnitCompare (mkEnv 9 "u" 7)
           (tagExample ANY ["x"]) "x").
  - simpl. tauto.
  - right. reflexivity.
Defined.

(** ** The persistence manager *)

Lemma storageSize_insert_delete (m : gmap string string) (k k' v : string) :
  (storageSize (<[k' := v]> (delete k m)) <= storageSize (<[k' := v]> m))%N.
Proof.
  destruct (decide (k = k')) as [->|Hne].
  - rewrite insert_delete_eq. lia.
  - rewrite <- delete_insert_ne by exact Hne. apply storageSize_delete_le.
Qed.

Lemma pruned_refl (w : World) : pruned w w.
Proof. repeat split; auto. Qed.

Lemma pruned_trans (w1 w2 w3 : World) : pruned w1 w2 -> pruned w2 w3 -> pruned w1 w3.
Proof.
  intros (Hq1 & Hd1 & Hk1 & Hs1) (Hq2 & Hd2 & Hk2 & Hs2). repeat split.
  - congruence.
  - congruence.
  - intros k Hk. rewrite Hk2, Hk1 by exact Hk. reflexivity.
  - intros k v. specialize (Hs1 k v). specialize (Hs2 k v). lia.
Qed.

Lemma removeItem_pruned (k : string) (w : World) :
  expendable k = true ->
  exists w', localStorage_removeItem k w = (Returned tt, w') /\ pruned w w'.
Proof.
  intros Hk. eexists. split; [reflexivity|]. repeat split; simpl.
  - intros k' Hk'. apply lookup_delete_ne. congruence.
  - intros k' v. apply storageSize_insert_delete.
Qed.

Lemma forEach_pruned {A} (f : A -> Effect unit) (l : list A) :
  (forall x w, In x l -> exists w', f x w = (Returned tt, w') /\ pruned w w') ->
  forall w, exists w', forEach f l w = (Returned tt, w') /\ pruned w w'.
Proof.
  induction l as [|x l IH]; intros Hf w.
  - exists w. split; [reflexivity | apply pruned_refl].
  - destruct (Hf x w (or_introl eq_refl)) as (w1 & Hx & H1).
    destruct (IH (fun y w0 Hy => Hf y w0 (or_intror Hy)) w1) as (w2 & Hrest & H2).
    exists w2. split.
    + simpl. unfold bind. rewrite Hx. exact Hrest.
    + eapply pruned_trans; eassumption.
Qed.

Lemma pushBackup_keys (baseKey backupKey : string) (groups : list (string * list string))
    (group : string * list string) (k : string) :
  In group (pushBackup baseKey backupKey groups) -> In k (snd group) ->
  k = backupKey \/ exists g, In g groups /\ In k (snd g).
Proof.
  induction groups as [|[base keys] rest IH]; simpl.
  - intros [<-|[]] Hk. simpl in Hk. destruct Hk as [<-|[]]. now left.
  - destruct (String.eqb base baseKey).
    + intros [<-|Hin] Hk.
      * simpl in Hk. apply List.in_app_iff in Hk as [Hk|[<-|[]]]; [|now left].
        right. exists (base, keys). split; [now left | exact Hk].
      * right. exists group. split; [now right | exact Hk].
    + intros [<-|Hin] Hk.
      * right. exists (base, keys). split; [now left | exact Hk].
      * destruct (IH Hin Hk) as [->|(g & Hg & Hkg)]; [now left|].
        right. exists g. split; [now right | exact Hkg].
Qed.

Lemma groupBackups_keys (backupKeys : list string) (group : string * list string)
    (k : string) :
  In group (groupBackups backupKeys) -> In k (snd group) -> In k backupKeys.
Proof.
  unfold groupBackups.
  assert (Hgen : forall groups,
             In group (List.fold_left
                         (fun groups backupKey =>
                            pushBackup (baseKeyOf backupKey) backupKey groups)
                         backupKeys groups) ->
             In k (snd group) ->
             In k backupKeys \/ exists g, In g groups /\ In k (snd g)).
  { induction backupKeys as [|b rest IH]; simpl; intros groups Hin Hk.
    - right. exists group. auto.
    - destruct (IH _ Hin Hk) as [Hrest|(g & Hg & Hkg)]; [left; now right|].
      destruct (pushBackup_keys _ _ _ _ _ Hg Hkg) as [->|Hold]; [left; now left|].
      now right. }
  intros Hin Hk. destruct (Hgen [] Hin Hk) as [H|(g & [] & _)]. exact H.
Qed.

Lemma tryCatch_threw {A} (body : Effect A) (handler : Exception -> Effect A)
    (w w' : World) (r : Outcome A * World) :
  body w = (Threw QuotaExceededError, w') ->
  handler QuotaExceededError w' = r ->
  tryCatch body handler w = r.
Proof. intros Hbody Hr. unfold tryCatch. now rewrite Hbody. Qed.

Lemma backup_prefix_expendable (k : string) :
  startsWith k STORAGE_KEYS.BACKUP_PREFIX = true -> expendable k = true.
Proof. intros Hk. unfold expendable. now rewrite Hk. Qed.

(** What [handleQuotaExceeded] does: it removes expendable keys, then
    tries the write once more. *)
Lemma handleQuotaExceeded_effect (key : string) (data : json) (w : World) :
  exists w1,
    pruned w w1 /\
    handleQuotaExceeded key data w
    = if (storageSize (<[key := JSON_stringify data]> (ls_entries w1)) <=? ls_quota w1)%N
      then (Returned true, putJson key data w1)
      else (Returned false, withEvent (StorageQuotaEvent key) w1).
Proof.
  unfold handleQuotaExceeded.
  match goal with
  | |- context [bind (forEach ?f ?l) _] =>
      destruct (forEach_pruned f l) with (w := w) as (wa & Hstep1 & Ha)
  end.
  { intros oldKey w0 Hold. unfold bind, localStorage_getItem.
    destruct (ls_entries w0 !! oldKey) as [text|];
      [|exists w0; split; [reflexivity | apply pruned_refl]].
    destruct (negb (String.eqb text ""));
      [|exists w0; split; [reflexivity | apply pruned_refl]].
    apply removeItem_pruned. unfold expendable.
    assert (Hinc : arrayIncludes oldVersionedKeys oldKey = true)
      by (apply arrayIncludes_In; exact Hold).
    rewrite Hinc. apply orb_true_r. }
  set (backupKeys := List.filter (fun k => startsWith k STORAGE_KEYS.BACKUP_PREFIX)
                                 (List.map fst (map_to_list (ls_entries wa)))).
  destruct (forEach_pruned
              (fun group : string * list string =>
                 forEach localStorage_removeItem
                         (slice 1 (List.rev (sortStrings (snd group)))))
              (groupBackups backupKeys)) with (w := wa) as (wb & Hstep2 & Hb).
  { intros group w0 Hgroup. apply forEach_pruned. intros k w1 Hk.
    apply removeItem_pruned, backup_prefix_expendable.
    apply In_slice, List.in_rev in Hk. apply arraySort_In in Hk.
    apply (groupBackups_keys _ _ _ Hgroup) in Hk.
    unfold backupKeys in Hk. now apply List.filter_In in Hk as [_ Hk]. }
  exists wb. split; [eapply pruned_trans; eassumption|].
  destruct (N.leb_spec (storageSize (<[key := JSON_stringify data]> (ls_entries wb)))
                       (ls_quota wb)) as [Hfits|Hfull].
  - apply tryCatch_returned.
    eapply bind_returned; [exact Hstep1|].
    eapply bind_returned; [reflexivity|].
    eapply bind_returned; [exact Hstep2|].
    eapply bind_returned; [|reflexivity].
    unfold localStorage_setItem.
    apply N.leb_le in Hfits. rewrite Hfits. reflexivity.
  - eapply tryCatch_threw; [|reflexivity].
    eapply bind_returned; [exact Hstep1|].
    eapply bind_returned; [reflexivity|].
    eapply bind_returned; [exact Hstep2|].
    unfold bind, localStorage_setItem.
    apply N.leb_gt in Hfull. rewrite Hfull. reflexivity.
Qed.

Lemma data_key_plain (key : string) :
  isDataKey key ->
  startsWith key STORAGE_KEYS.BACKUP_PREFIX = false /\
  key <> STORAGE_KEYS.METADATA /\ expendable key = false.
Proof.
  intros [-> | [-> | ->]]; repeat split; (reflexivity || discriminate).
Qed.

Lemma metadata_key_plain :
  startsWith STORAGE_KEYS.METADATA STORAGE_KEYS.BACKUP_PREFIX = false /\
  expendable STORAGE_KEYS.METADATA = false.
Proof. split; reflexivity. Qed.

Lemma expendable_not_backup (k : string) :
  expendable k = false -> startsWith k STORAGE_KEYS.BACKUP_PREFIX = false.
Proof. unfold expendable. intros H. now apply orb_false_iff in H as [H _]. Qed.

(** Every way a save can go.  The value is written and the metadata
    rewritten; or the metadata write is refused, and the second attempt
    finds the value already in place; or the write of the value is refused
    and tried again after expendable keys were given up. *)
Lemma saveToLocalStorage_effect (key : string) (data : json) (clock : Clock) (w : World) :
  isDataKey key ->
  exists success w',
    saveToLocalStorage key data clock w = (Returned success, w') /\
    ls_quota w' = ls_quota w /\
    (forall k, k <> key -> k <> STORAGE_KEYS.METADATA -> expendable k = false ->
               ls_entries w' !! k = ls_entries w !! k) /\
    (if success
     then ls_entries w' !! key = Some (JSON_stringify data) /\
          dispatched w' = dispatched w
     else ls_entries w' !! key = ls_entries w !! key /\
          ls_entries w' !! STORAGE_KEYS.METADATA = ls_entries w !! STORAGE_KEYS.METADATA /\
          dispatched w' = StorageQuotaEvent key :: dispatched w).
Proof.
  intros Hkey.
  destruct (data_key_plain key Hkey) as (Hnotbackup & Hnotmeta & Hkeep).
  destruct metadata_key_plain as [Hmetabackup Hmetakeep].
  destruct (getStorageUsage w) as [usage w0] eqn:Husage.
  assert (Hw0 : w0 = w) by (unfold getStorageUsage in Husage; congruence).
  destruct usage as [[[used total] percentage]|e];
    [|unfold getStorageUsage in Husage; discriminate Husage].
  subst w0.
  destruct (cleanup_effect percentage w) as (wa & Hclean & (Hqa & Hda & _ & Hka)).
  destruct (backup_step_effect
              (String.eqb key STORAGE_KEYS.NOTES || String.eqb key STORAGE_KEYS.TAGS)
              key data clock wa) as (wb & Hbackup & (Hqb & Hdb & _ & Hkb)).
  set (value := JSON_stringify data).
  set (metadata := JSON_stringify (metadataOf clock value)).
  destruct (N.leb_spec (storageSize (<[key := value]> (ls_entries wb))) (ls_quota wb))
    as [Hfits|Hfull].
  - (* the value is written *)
    set (wc := putJson key data wb).
    assert (Hwrite : localStorage_setItem key value wb = (Returned tt, wc)).
    { unfold localStorage_setItem. apply N.leb_le in Hfits. fold value in Hfits.
      rewrite Hfits. reflexivity. }
    destruct (N.leb_spec (storageSize (<[STORAGE_KEYS.METADATA := metadata]> (ls_entries wc)))
                         (ls_quota wc)) as [Hmfits|Hmfull].
    + (* and so is the metadata *)
      exists true. eexists. split; [|split; [|split]].
      * unfold saveToLocalStorage. apply tryCatch_returned.
        eapply bind_returned; [exact Husage|].
        eapply bind_returned; [exact Hclean|].
        eapply bind_returned; [exact Hbackup|].
        eapply bind_returned; [exact Hwrite|].
        eapply bind_returned; [|reflexivity].
        unfold localStorage_setItem. apply N.leb_le in Hmfits.
        fold value. fold metadata. rewrite Hmfits. reflexivity.
      * simpl. congruence.
      * intros k Hk Hmeta Hexp. simpl.
        rewrite !lookup_insert_ne by congruence.
        rewrite Hkb, Hka by (now apply expendable_not_backup). reflexivity.
      * simpl. split; [|congruence].
        rewrite lookup_insert_ne by congruence. apply lookup_insert_eq.
    + (* the metadata write is refused: the handler finds the value in place *)
      destruct (handleQuotaExceeded_effect key data wc) as (w1 & (Hq1 & Hd1 & Hk1 & Hs1) & Hhandler).
      assert (Hagain : (storageSize (<[key := value]> (ls_entries w1)) <=? ls_quota w1)%N
                       = true).
      { apply N.leb_le. specialize (Hs1 key value). rewrite Hq1.
        unfold wc in Hs1. simpl in Hs1. fold value in Hs1.
        rewrite insert_insert_eq in Hs1. unfold wc. simpl. lia. }
      fold value in Hhandler. rewrite Hagain in Hhandler.
      exists true, (putJson key data w1). split; [|split; [|split]].
      * unfold saveToLocalStorage. eapply tryCatch_threw.
        { eapply bind_returned; [exact Husage|].
          eapply bind_returned; [exact Hclean|].
          eapply bind_returned; [exact Hbackup|].
          eapply bind_returned; [exact Hwrite|].
          unfold bind, localStorage_setItem. apply N.leb_gt in Hmfull.
          fold value. fold metadata. rewrite Hmfull. reflexivity. }
        exact Hhandler.
      * simpl. unfold wc in Hq1. simpl in Hq1. congruence.
      * intros k Hk Hmeta Hexp. simpl.
        rewrite lookup_insert_ne by congruence. rewrite Hk1 by exact Hexp.
        unfold wc. simpl. rewrite lookup_insert_ne by congruence.
        rewrite Hkb, Hka by (now apply expendable_not_backup). reflexivity.
      * simpl. split; [apply lookup_insert_eq|].
        unfold wc in Hd1. simpl in Hd1. congruence.
  - (* the write of the value is refused *)
    destruct (handleQuotaExceeded_effect key data wb) as (w1 & (Hq1 & Hd1 & Hk1 & Hs1) & Hhandler).
    assert (Hbody : forall handler,
               tryCatch
                 (let serialized := JSON_stringify data in
                  let* usage := getStorageUsage in
                  let percentage := snd usage in
                  let* _ :=
                    if (80 <? percentage)%N then
                      if (90 <? percentage)%N then
                        let* allKeys := Object_keys in
                        let backupKeys :=
                          List.filter (fun k => startsWith k STORAGE_KEYS.BACKUP_PREFIX)
                                      allKeys in
                        forEach localStorage_removeItem backupKeys
                      else ret tt
                    else ret tt in
                  let* _ :=
                    if String.eqb key STORAGE_KEYS.NOTES || String.eqb key STORAGE_KEYS.TAGS
                    then createBackup key data clock
                    else ret tt in
                  let* _ := localStorage_setItem key serialized in
                  let metadata := metadataOf clock serialized in
                  let* _ := localStorage_setItem STORAGE_KEYS.METADATA
                              (JSON_stringify metadata) in
                  ret true)
                 handler w
               = handler QuotaExceededError wb).
    { intros handler. eapply tryCatch_threw.
      - eapply bind_returned; [exact Husage|].
        eapply bind_returned; [exact Hclean|].
        eapply bind_returned; [exact Hbackup|].
        unfold bind, localStorage_setItem. apply N.leb_gt in Hfull.
        fold value. rewrite Hfull. reflexivity.
      - reflexivity. }
    unfold saveToLocalStorage. rewrite Hbody, Hhandler. fold value.
    destruct (storageSize (<[key := value]> (ls_entries w1)) <=? ls_quota w1)%N.
    + exists true. eexists. split; [reflexivity|]. split; [|split].
      * simpl. congruence.
      * intros k Hk Hmeta Hexp. simpl.
        rewrite lookup_insert_ne by congruence. rewrite Hk1 by exact Hexp.
        rewrite Hkb, Hka by (now apply expendable_not_backup). reflexivity.
      * simpl. split; [apply lookup_insert_eq | congruence].
    + exists false. eexists. split; [reflexivity|]. split; [|split].
      * simpl. congruence.
      * intros k Hk Hmeta Hexp. simpl. rewrite Hk1 by exact Hexp.
        rewrite Hkb, Hka by (now apply expendable_not_backup). reflexivity.
      * simpl. split; [|split].
        -- rewrite Hk1, Hkb, Hka by assumption. reflexivity.
        -- rewrite Hk1, Hkb, Hka by assumption. reflexivity.
        -- congruence.
Qed.

(** [saveToLocalStorage] returns for every key: what its body throws is
    the refusal of a write, which the handler answers. *)
Lemma saveToLocalStorage_returns (key : string) (data : json) (clock : Clock) (w : World) :
  exists success w', saveToLocalStorage key data clock w = (Returned success, w').
Proof.
  destruct (getStorageUsage w) as [usage w0] eqn:Husage.
  assert (Hw0 : w0 = w) by (unfold getStorageUsage in Husage; congruence).
  destruct usage as [[[used total] percentage]|e];
    [|unfold getStorageUsage in Husage; discriminate Husage].
  subst w0.
  destruct (cleanup_effect percentage w) as (wa & Hclean & _).
  destruct (backup_step_effect
              (String.eqb key STORAGE_KEYS.NOTES || String.eqb key STORAGE_KEYS.TAGS)
              key data clock wa) as (wb & Hbackup & _).
  set (value := JSON_stringify data).
  assert (Hhandled : forall w0, exists success w',
             handleQuotaExceeded key data w0 = (Returned success, w')).
  { intros w0. destruct (handleQuotaExceeded_effect key data w0) as (w1 & _ & ->).
    destruct (_ <=? _)%N; eauto. }
  destruct (localStorage_setItem key value wb) as [[[]|e] wc] eqn:Hwrite.
  - destruct (localStorage_setItem STORAGE_KEYS.METADATA
                (JSON_stringify (metadataOf clock value)) wc) as [[[]|e] wd] eqn:Hmeta.
    + exists true, wd. unfold saveToLocalStorage. apply tryCatch_returned.
      eapply bind_returned; [exact Husage|].
      eapply bind_returned; [exact Hclean|].
      eapply bind_returned; [exact Hbackup|].
      eapply bind_returned; [exact Hwrite|].
      eapply bind_returned; [exact Hmeta|]. reflexivity.
    + assert (He : e = QuotaExceededError /\ wd = wc).
      { unfold localStorage_setItem in Hmeta. destruct (_ <=? _)%N; [discriminate|].
        split; congruence. }
      destruct He as [-> ->]. destruct (Hhandled wc) as (success & w' & Hh).
      exists success, w'. unfold saveToLocalStorage. eapply tryCatch_threw.
      { eapply bind_returned; [exact Husage|].
        eapply bind_returned; [exact Hclean|].
        eapply bind_returned; [exact Hbackup|].
        eapply bind_returned; [exact Hwrite|].
        unfold bind. fold value. rewrite Hmeta. reflexivity. }
      exact Hh.
  - assert (He : e = QuotaExceededError /\ wc = wb).
    { unfold localStorage_setItem in Hwrite. destruct (_ <=? _)%N; [discriminate|].
      split; congruence. }
    destruct He as [-> ->]. destruct (Hhandled wb) as (success & w' & Hh).
    exists success, w'. unfold saveToLocalStorage. eapply tryCatch_threw.
    { eapply bind_returned; [exact Husage|].
      eapply bind_returned; [exact Hclean|].
      eapply bind_returned; [exact Hbackup|].
      unfold bind. fold value. rewrite Hwrite. reflexivity. }
    exact Hh.
Qed.

(** X16.  A save under one of the three data keys never throws and
    reports what happened: when it returns [true] the key holds the
    serialized value and no event was dispatched; when it returns [false]
    the key and the metadata record hold what they held before and a
    quota event for the key was dispatched.  A failed save never leaves a
    half-written value. *)
Theorem save_reports_its_outcome (key : string) (data : json) (clock : Clock) (w : World) :
  isDataKey key ->
  exists success w',
    saveToLocalStorage key data clock w = (Returned success, w') /\
    ls_quota w' = ls_quota w /\
    (if success
     then ls_entries w' !! key = Some (JSON_stringify data) /\
          dispatched w' = dispatched w
     else ls_entries w' !! key = ls_entries w !! key /\
          ls_entries w' !! STORAGE_KEYS.METADATA = ls_entries w !! STORAGE_KEYS.METADATA /\
          dispatched w' = StorageQuotaEvent key :: dispatched w).
Proof.
  intros Hkey.
  destruct (saveToLocalStorage_effect key data clock w Hkey)
    as (success & w' & Hsave & Hquota & _ & Hout).
  exists success, w'. auto.
Qed.

Lemma save_reports_its_outcome_witness :
  exists success w',
    saveToLocalStorage STORAGE_KEYS.NOTES (JArray [sampleNoteJson]) firstClock
                       (emptyWorld 100)
    = (Returned success, w') /\
    ls_quota w' = ls_quota (emptyWorld 100) /\
    (if success
     then ls_entries w' !! STORAGE_KEYS.NOTES
          = Some (JSON_stringify (JArray [sampleNoteJson])) /\
          dispatched w' = dispatched (emptyWorld 100)
     else ls_entries w' !! STORAGE_KEYS.NOTES
          = ls_entries (emptyWorld 100) !! STORAGE_KEYS.NOTES /\
          ls_entries w' !! STORAGE_KEYS.METADATA
          = ls_entries (emptyWorld 100) !! STORAGE_KEYS.METADATA /\
          dispatched w'
          = StorageQuotaEvent STORAGE_KEYS.NOTES :: dispatched (emptyWorld 100)).
Proof.
  apply (save_reports_its_outcome STORAGE_KEYS.NOTES (JArray [sampleNoteJson]) firstClock
           (emptyWorld 100)).
  left. reflexivity.
Defined.

(** In a store of 100 code units the note does not fit: the save answers
    [false] and the quota event is the only trace. *)
Lemma save_refused_example :
  saveToLocalStorage STORAGE_KEYS.NOTES (JArray [sampleNoteJson]) firstClock (emptyWorld 100)
  = (Returned false, withEvent (StorageQuotaEvent STORAGE_KEYS.NOTES) (emptyWorld 100)).
Proof. vm_compute. reflexivity. Qed.

(** X17.  What a save leaves alone: apart from its own key, the metadata
    record, the backup snapshots and the keys of the earlier layout, every
    stored key keeps its value, whether the save succeeds or not. *)
Theorem save_touches_only_its_keys (key : string) (data : json) (clock : Clock)
    (w : World) (k : string) :
  isDataKey key ->
  k <> key -> k <> STORAGE_KEYS.METADATA -> expendable k = false ->
  ls_entries (snd (saveToLocalStorage key data clock w)) !! k = ls_entries w !! k.
Proof.
  intros Hkey Hk Hmeta Hexp.
  destruct (saveToLocalStorage_effect key data clock w Hkey)
    as (success & w' & -> & _ & Hframe & _).
  simpl. now apply Hframe.
Qed.

Lemma save_touches_only_its_keys_witness :
  ls_entries (snd (saveToLocalStorage STORAGE_KEYS.TAGS (JArray []) laterClock savedWorld))
    !! STORAGE_KEYS.NOTES
  = ls_entries savedWorld !! STORAGE_KEYS.NOTES.
Proof.
  apply save_touches_only_its_keys.
  - right. left. reflexivity.
  - discriminate.
  - discriminate.
  - reflexivity.
Defined.

Lemma burst_last (calls : list (string * json)) (key : string) (data : json)
    (provider : Provider) :
  saveTimeout (burst (calls ++ [(key, data)]) provider) = Some (key, data).
Proof.
  unfold burst. rewrite List.fold_left_app. reflexivity.
Qed.

(** X18.  The provider has one timer for its three keys.  Of the calls of
    [debouncedSave] that follow each other within the delay, only the last
    is carried out: when the timer fires, every other data key holds what
    it held before, whatever was to be saved under it. *)
Theorem burst_saves_last_key_only (calls : list (string * json)) (key other : string)
    (data : json) (clock : Clock) (provider : Provider) (w : World) :
  isDataKey key -> isDataKey other -> other <> key ->
  exists provider' w',
    timerFires clock (burst (calls ++ [(key, data)]) provider) w = (Returned provider', w') /\
    saveTimeout provider' = None /\
    ls_entries w' !! other = ls_entries w !! other.
Proof.
  intros Hkey Hother Hne.
  destruct (data_key_plain other Hother) as (_ & Hmeta & Hexp).
  destruct (saveToLocalStorage_effect key data clock w Hkey)
    as (success & w' & Hsave & _ & Hframe & _).
  unfold timerFires. rewrite burst_last.
  destruct success.
  - exists {| saveTimeout := None |}, w'. split; [|split].
    + eapply bind_returned; [exact Hsave|]. reflexivity.
    + reflexivity.
    + now apply Hframe.
  - exists {| saveTimeout := None |}, (withEvent (StorageSaveFailedEvent key data) w').
    split; [|split].
    + eapply bind_returned; [exact Hsave|]. reflexivity.
    + reflexivity.
    + simpl. now apply Hframe.
Qed.

Lemma burst_saves_last_key_only_witness :
  exists provider' w',
    timerFires laterClock
      (burst ([(STORAGE_KEYS.NOTES, JArray [sampleNoteJson])]
              ++ [(STORAGE_KEYS.PREFERENCES, Storage.defaultPreferencesJson)])
             {| saveTimeout := None |})
      (emptyWorld 5000000)
    = (Returned provider', w') /\
    saveTimeout provider' = None /\
    ls_entries w' !! STORAGE_KEYS.NOTES = ls_entries (emptyWorld 5000000) !! STORAGE_KEYS.NOTES.
Proof.
  apply burst_saves_last_key_only.
  - right. right. reflexivity.
  - left. reflexivity.
  - discriminate.
Defined.

(** X19.  The quota handler never throws.  It gives up nothing but backup
    snapshots and keys of the earlier layout; when it returns [true] the
    key holds the value, and when it returns [false] it has dispatched the
    quota event for the key and left the key as it was. *)
Theorem quota_handler_outcome (key : string) (data : json) (w : World) :
  exists success w',
    handleQuotaExceeded key data w = (Returned success, w') /\
    ls_quota w' = ls_quota w /\
    (forall k, k <> key -> expendable k = false ->
               ls_entries w' !! k = ls_entries w !! k) /\
    (if success
     then ls_entries w' !! key = Some (JSON_stringify data) /\
          dispatched w' = dispatched w
     else dispatched w' = StorageQuotaEvent key :: dispatched w /\
          (expendable key = false -> ls_entries w' !! key = ls_entries w !! key)).
Proof.
  destruct (handleQuotaExceeded_effect key data w) as (w1 & (Hq & Hd & Hk & _) & ->).
  destruct (_ <=? _)%N.
  - exists true. eexists. split; [reflexivity|]. simpl. split; [exact Hq|]. split.
    + intros k Hne Hexp. rewrite lookup_insert_ne by congruence. now apply Hk.
    + split; [apply lookup_insert_eq | exact Hd].
  - exists false. eexists. split; [reflexivity|]. simpl. split; [exact Hq|]. split.
    + intros k _ Hexp. now apply Hk.
    + split; [now rewrite Hd | apply Hk].
Qed.

(** X20.  What was saved loads back: after a save that returned [true],
    loading the key gives the saved value, as long as the value is one the
    loader's validation accepts, and reads without writing. *)
Theorem saved_value_loads_back (key : string) (data defaultValue : json)
    (clock clock' : Clock) (w : World) :
  isDataKey key ->
  validateData data key = true ->
  fst (saveToLocalStorage key data clock w) = Returned true ->
  let w' := snd (saveToLocalStorage key data clock w) in
  loadFromLocalStorage key defaultValue clock' w' = (Returned data, w').
Proof.
  intros Hkey Hvalid Hsaved.
  destruct (saveToLocalStorage_effect key data clock w Hkey)
    as (success & w' & Hsave & _ & _ & Hout).
  rewrite Hsave in *. simpl in *.
  assert (success = true) by congruence. subst success.
  destruct Hout as [Hheld _].
  unfold loadFromLocalStorage, tryCatch, bind, localStorage_getItem.
  rewrite Hheld, JSON_stringify_nonempty, parse_stringify, Hvalid. reflexivity.
Qed.

Lemma saved_value_loads_back_witness :
  let w' := snd (saveToLocalStorage STORAGE_KEYS.NOTES (JArray [sampleNoteJson]) firstClock
                   (emptyWorld 5000000)) in
  loadFromLocalStorage STORAGE_KEYS.NOTES (JArray []) laterClock w'
  = (Returned (JArray [sampleNoteJson]), w').
Proof.
  apply saved_value_loads_back.
  - left. reflexivity.
  - reflexivity.
  - vm_compute. reflexivity.
Defined.

Lemma readable_lookup (w : World) (key text : string) :
  readable w -> ls_entries w !! key = Some text -> JSON_parse text <> Unsupported.
Proof.
  unfold readable. rewrite List.forallb_forall. intros Hall Hkey Hparse.
  specialize (Hall (key, text)). unfold supported in Hall. simpl in Hall.
  rewrite Hparse in Hall. discriminate Hall.
  apply list_elem_of_In. now apply elem_of_map_to_list.
Qed.

Lemma tryBackup_effect (key backupKey : string) (clock : Clock) (w : World) :
  readable w ->
  tryBackup key backupKey clock w = (Returned None, w) \/
  exists d success w',
    tryBackup key backupKey clock w = (Returned (Some d), w') /\
    validateData d key = true /\
    saveToLocalStorage key d clock w = (Returned success, w').
Proof.
  intros Hreadable.
  unfold tryBackup, tryCatch, bind, localStorage_getItem. rewrite parse_effect.
  match goal with
  | |- context [JSON_parse ?text] =>
      assert (Hsupported : JSON_parse text <> Unsupported)
  end.
  { destruct (ls_entries w !! backupKey) as [text|] eqn:Hitem.
    - now apply (readable_lookup w backupKey).
    - discriminate. }
  destruct (JSON_parse _) as [backup| |]; [|now left|contradiction].
  destruct backup; try (now left);
    (destruct (getField _ "data") as [d|] eqn:Hdata; [|now left];
     destruct (isTruthy (Some d) && validateData d key) eqn:Hok; [|now left];
     apply andb_true_iff in Hok as [_ Hvalid];
     destruct (saveToLocalStorage_returns key d clock w) as (success & w' & Hsave);
     right; exists d, success, w'; rewrite Hsave; auto).
Qed.

Lemma firstValidBackup_effect (key : string) (backupKeys : list string) (clock : Clock)
    (defaultValue : json) (w : World) :
  readable w ->
  firstValidBackup key backupKeys clock defaultValue w = (Returned defaultValue, w) \/
  exists d success w',
    firstValidBackup key backupKeys clock defaultValue w = (Returned d, w') /\
    validateData d key = true /\
    saveToLocalStorage key d clock w = (Returned success, w').
Proof.
  intros Hreadable.
  induction backupKeys as [|backupKey rest IH]; simpl; [now left|].
  unfold bind.
  destruct (tryBackup_effect key backupKey clock w Hreadable)
    as [->|(d & success & w' & -> & Hvalid & Hsave)].
  - exact IH.
  - right. exists d, success, w'. auto.
Qed.

Lemma attemptDataRecovery_effect (key : string) (defaultValue : json) (clock : Clock)
    (w : World) :
  readable w ->
  attemptDataRecovery key defaultValue clock w = (Returned defaultValue, w) \/
  exists d success w',
    attemptDataRecovery key defaultValue clock w = (Returned d, w') /\
    validateData d key = true /\
    saveToLocalStorage key d clock w = (Returned success, w').
Proof.
  intros Hreadable.
  unfold attemptDataRecovery, tryCatch, bind, Object_keys.
  match goal with
  | |- context [firstValidBackup key ?keys clock defaultValue w] =>
      destruct (firstValidBackup_effect key keys clock defaultValue w Hreadable)
        as [->|(d & success & w' & -> & Hvalid & Hsave)]
  end.
  - now left.
  - right. exists d, success, w'. auto.
Qed.

(** X21.  On a store whose texts the model can read, the loader never
    throws, and what it returns has passed [validateData] for the key
    unless it is the caller's default.  It leaves the store untouched,
    except when it returns a value recovered from a backup: then it has
    made one save, of that value under the key. *)
Theorem load_returns_default_or_valid (key : string) (defaultValue : json) (clock : Clock)
    (w : World) :
  readable w ->
  exists loaded w',
    loadFromLocalStorage key defaultValue clock w = (Returned loaded, w') /\
    ((w' = w /\ (loaded = defaultValue \/ validateData loaded key = true)) \/
     (validateData loaded key = true /\
      exists success, saveToLocalStorage key loaded clock w = (Returned success, w'))).
Proof.
  intros Hreadable.
  assert (Hrecover : exists loaded w',
            attemptDataRecovery key defaultValue clock w = (Returned loaded, w') /\
            ((w' = w /\ (loaded = defaultValue \/ validateData loaded key = true)) \/
             (validateData loaded key = true /\
              exists success,
                saveToLocalStorage key loaded clock w = (Returned success, w')))).
  { destruct (attemptDataRecovery_effect key defaultValue clock w Hreadable)
      as [Hdefault|(d & success & w' & Hfound & Hvalid & Hsave)].
    - exists defaultValue, w. split; [exact Hdefault|]. left. auto.
    - exists d, w'. split; [exact Hfound|]. right. eauto. }
  unfold loadFromLocalStorage, tryCatch, bind, localStorage_getItem.
  destruct (ls_entries w !! key) as [text|] eqn:Hitem;
    [|exists defaultValue, w; split; [reflexivity | left; auto]].
  destruct (String.eqb text "");
    [exists defaultValue, w; split; [reflexivity | left; auto]|].
  rewrite parse_effect.
  pose proof (readable_lookup w key text Hreadable Hitem) as Hsupported.
  destruct (JSON_parse text) as [parsed| |]; [|exact Hrecover|contradiction].
  destruct (validateData parsed key) eqn:Hvalid; simpl.
  - exists parsed, w. split; [reflexivity | left; auto].
  - destruct Hrecover as (loaded & w' & Hrec & Hcases).
    exists loaded, w'. rewrite Hrec. auto.
Qed.

(** A damaged value under the notes key and a snapshot under the prefix
    that recovery searches: the loader returns the snapshot's notes and has
    saved them. *)
Lemma load_returns_default_or_valid_witness :
  readable recoverableWorld /\
  exists loaded w',
    loadFromLocalStorage STORAGE_KEYS.NOTES (JArray []) laterClock recoverableWorld
    = (Returned loaded, w') /\
    ((w' = recoverableWorld /\
      (loaded = JArray [] \/ validateData loaded STORAGE_KEYS.NOTES = true)) \/
     (validateData loaded STORAGE_KEYS.NOTES = true /\
      exists success,
        saveToLocalStorage STORAGE_KEYS.NOTES loaded laterClock recoverableWorld
        = (Returned success, w'))).
Proof.
  split; [vm_compute; reflexivity|].
  apply load_returns_default_or_valid. vm_compute. reflexivity.
Defined.

(** X22.  A snapshot that is stored leaves at most three snapshots of its
    key: after [createBackup] has written, no more than three stored keys
    carry the backup prefix of the key. *)
Theorem backups_kept_to_three (key : string) (data : json) (clock : Clock) (w : World) :
  (storageSize (<[backupKeyPrefix key +:+ decimal (now_ms clock)
                  := JSON_stringify (backupSnapshot key data clock)]> (ls_entries w))
   <= ls_quota w)%N ->
  (length (backupsOf key (snd (createBackup key data clock w))) <= 3)%nat.
Proof.
  intros Hfits. apply N.leb_le in Hfits.
  unfold createBackup, tryCatch, bind. fold (backupSnapshot key data clock).
  unfold localStorage_setItem at 1. rewrite Hfits.
  unfold Object_keys at 1. cbv beta iota.
  match goal with
  | |- context [forEach localStorage_removeItem (slice 3 ?sorted) ?w1] =>
      set (newest := sorted);
      destruct (forEach_removeItem_effect (slice 3 newest) w1)
        as (w2 & -> & _ & _ & Hk);
      set (w1' := w1) in *
  end.
  simpl snd. unfold backupsOf.
  transitivity (length (List.firstn 3 newest)); [|apply List.firstn_le_length].
  apply List.NoDup_incl_length.
  - apply List.NoDup_filter, stored_keys_NoDup.
  - intros k Hin. apply List.filter_In in Hin as [Hstored Hprefix].
    apply stored_keys_spec in Hstored as [v Hv]. rewrite Hk in Hv.
    destruct (arrayIncludes (slice 3 newest) k) eqn:Hpruned; [discriminate|].
    assert (Hnewest : In k newest).
    { unfold newest. rewrite <- List.in_rev. apply arraySort_In.
      apply List.filter_In. split; [|exact Hprefix].
      apply stored_keys_spec. eauto. }
    rewrite <- (List.firstn_skipn 3 newest) in Hnewest.
    apply List.in_app_iff in Hnewest as [Hkept|Hgone]; [exact Hkept|].
    apply arrayIncludes_In in Hgone. unfold slice in Hpruned. congruence.
Qed.

Lemma backups_kept_to_three_witness :
  (length (backupsOf STORAGE_KEYS.NOTES
             (snd (createBackup STORAGE_KEYS.NOTES (JArray []) laterClock savedWorld)))
   <= 3)%nat.
Proof.
  apply backups_kept_to_three. vm_compute. discriminate.
Defined.

(** X23.  [clearData] never throws and removes exactly the five keys of
    the persistence manager and every key that carries the backup prefix;
    any other stored key, such as the keys of the versioned layout,
    survives the clearing. *)
Theorem clear_data_removes_manager_keys (w : World) :
  exists w',
    StorageUtils.clearData w = (Returned tt, w') /\
    ls_quota w' = ls_quota w /\ dispatched w' = dispatched w /\
    forall k, ls_entries w' !! k
              = if arrayIncludes managerKeys k || startsWith k STORAGE_KEYS.BACKUP_PREFIX
                then None else ls_entries w !! k.
Proof.
  unfold StorageUtils.clearData.
  destruct (forEach_removeItem_effect managerKeys w) as (w1 & Hstep1 & Hq1 & Hd1 & Hk1).
  destruct (forEach_removeItem_effect
              (List.filter (fun key => startsWith key STORAGE_KEYS.BACKUP_PREFIX)
                           (List.map fst (map_to_list (ls_entries w1)))) w1)
    as (w2 & Hstep2 & Hq2 & Hd2 & Hk2).
  exists w2. split; [|split; [congruence | split; [congruence|]]].
  - eapply bind_returned; [exact Hstep1|].
    eapply bind_returned; [reflexivity|]. exact Hstep2.
  - intros k. rewrite Hk2, Hk1.
    destruct (arrayIncludes managerKeys k) eqn:Hm; simpl.
    + match goal with |- (if ?c then _ else _) = _ => destruct c end; reflexivity.
    + destruct (startsWith k STORAGE_KEYS.BACKUP_PREFIX) eqn:Hprefix.
      * destruct (ls_entries w !! k) as [v|] eqn:Hv;
          [|match goal with |- (if ?c then _ else _) = _ => destruct c end; reflexivity].
        assert (Hin : arrayIncludes
                        (List.filter (fun key => startsWith key STORAGE_KEYS.BACKUP_PREFIX)
                                     (List.map fst (map_to_list (ls_entries w1)))) k = true).
        { apply arrayIncludes_In, List.filter_In. split; [|exact Hprefix].
          apply stored_keys_spec. exists v. rewrite Hk1, Hm. exact Hv. }
        now rewrite Hin.
      * match goal with
        | |- (if ?c then _ else _) = _ => destruct c eqn:Hin; [|reflexivity]
        end.
        apply arrayIncludes_In, List.filter_In in Hin as [_ Hin]. congruence.
Qed.

(** ** The storage adapter and the versioned import and export *)

Lemma Storage_setItem_effect (key : string) (value : json) (w : World) :
  Storage.setStorageItem key value w
  = if (storageSize (<[key := JSON_stringify value]> (ls_entries w)) <=? ls_quota w)%N
    then (Returned tt, putJson key value w)
    else (Threw (ThrownStorageError {| se_type := quota_exceeded; se_key := Some key |}), w).
Proof.
  unfold Storage.setStorageItem, Storage.setItem, tryCatch, localStorage_setItem.
  now destruct (_ <=? _)%N.
Qed.


(** A write through the adapter either stores the value, and a read of the
    key then gives the value back, or it is refused for lack of room,
    throws a [quota_exceeded] storage error naming the key, and leaves the
    store as it was. *)
Lemma adapter_write_then_read (key : string) (value : json) (w : World) :
  (Storage.setItem key value w = (Returned tt, putJson key value w) /\
   Storage.getItem key (putJson key value w) = (Returned value, putJson key value w)) \/
  Storage.setItem key value w
  = (Threw (ThrownStorageError {| se_type := quota_exceeded; se_key := Some key |}), w).
Proof.
  pose proof (Storage_setItem_effect key value w) as Hset.
  unfold Storage.setStorageItem in Hset. rewrite Hset.
  destruct (_ <=? _)%N; [left | now right].
  split; [reflexivity|].
  apply (Storage_getItem_stored key value). simpl. apply lookup_insert_eq.
Qed.

(** X24.  Every outcome of [importData] on a payload the model can
    follow [JSON.parse] on: it throws the parse error, or it returns [true]
    for an envelope of version 1 that [isValidAppData] accepts.  In that
    case reading the three keys gives the imported collection, the
    metadata key holds the import record, and no other key has changed.
    It never returns [false]. *)
Theorem import_outcome (json : string) (clock : Clock) (w : World) :
  supported json = true ->
  (exists w', Storage.importData json clock w = (Threw parseError, w')) \/
  (exists data w',
     JSON_parse json = Parsed data /\
     Storage.isValidAppData data = true /\
     getField data "version" = Some (JNumber 1) /\
     Storage.importData json clock w = (Returned true, w') /\
     holds w' (field data "notes") (field data "tags") (field data "preferences") /\
     Storage.getStorageItem Storage.STORAGE_KEYS.META w' = (Returned (importStamp clock), w') /\
     forall k,
       k <> Storage.STORAGE_KEYS.NOTES -> k <> Storage.STORAGE_KEYS.TAGS ->
       k <> Storage.STORAGE_KEYS.PREFERENCES -> k <> Storage.STORAGE_KEYS.META ->
       ls_entries w' !! k = ls_entries w !! k).
Proof.
  unfold supported. intros Hsupported.
  unfold Storage.importData, tryCatch, bind. rewrite parse_effect.
  destruct (JSON_parse json) as [data| |];
    [|left; eexists; reflexivity|discriminate Hsupported].
  destruct (Storage.isValidAppData data) eqn:Hvalid; [|left; eexists; reflexivity].
  cbv beta iota delta [negb].
  destruct (getField data "version") as [[| b | n | s | items | members]|] eqn:Hversion;
    try (left; eexists; reflexivity).
  destruct n as [|[p|p|]|p]; try (left; eexists; reflexivity).
  fold (importStamp clock).
  rewrite (Storage_setItem_effect Storage.STORAGE_KEYS.NOTES).
  destruct (_ <=? _)%N; [|left; eexists; reflexivity].
  rewrite (Storage_setItem_effect Storage.STORAGE_KEYS.TAGS).
  destruct (_ <=? _)%N; [|left; eexists; reflexivity].
  rewrite (Storage_setItem_effect Storage.STORAGE_KEYS.PREFERENCES).
  destruct (_ <=? _)%N; [|left; eexists; reflexivity].
  rewrite (Storage_setItem_effect Storage.STORAGE_KEYS.META).
  destruct (_ <=? _)%N; [|left; eexists; reflexivity].
  right. exists data. eexists.
  split; [reflexivity|]. split; [exact Hvalid|]. split; [exact Hversion|].
  split; [reflexivity|]. split; [|split].
  - split; [|split]; apply Storage_getItem_stored; simpl.
    + rewrite !lookup_insert_ne by discriminate. apply lookup_insert_eq.
    + rewrite !lookup_insert_ne by discriminate. apply lookup_insert_eq.
    + rewrite !lookup_insert_ne by discriminate. apply lookup_insert_eq.
  - apply Storage_getItem_stored; simpl. apply lookup_insert_eq.
  - intros k Hnotes Htags Hprefs Hmeta. simpl.
    rewrite !lookup_insert_ne by congruence. reflexivity.
Qed.

(** The version-1 sample payload, imported into an empty store. *)
Lemma import_outcome_witness :
  supported (samplePayload 1) = true /\
  ((exists w',
      Storage.importData (samplePayload 1) laterClock (emptyWorld 5000)
      = (Threw parseError, w')) \/
   (exists data w',
      JSON_parse (samplePayload 1) = Parsed data /\
      Storage.isValidAppData data = true /\
      getField data "version" = Some (JNumber 1) /\
      Storage.importData (samplePayload 1) laterClock (emptyWorld 5000)
      = (Returned true, w') /\
      holds w' (field data "notes") (field data "tags") (field data "preferences") /\
      Storage.getStorageItem Storage.STORAGE_KEYS.META w'
      = (Returned (importStamp laterClock), w') /\
      forall k,
        k <> Storage.STORAGE_KEYS.NOTES -> k <> Storage.STORAGE_KEYS.TAGS ->
        k <> Storage.STORAGE_KEYS.PREFERENCES -> k <> Storage.STORAGE_KEYS.META ->
        ls_entries w' !! k = ls_entries (emptyWorld 5000) !! k)).
Proof.
  split; [vm_compute; reflexivity|].
  apply import_outcome. vm_compute. reflexivity.
Defined.



(** ** The validators of the three files *)

Lemma isString_hasKey (value : json) (key : string) :
  isString (getField value key) = true -> hasKey value key = true.
Proof. unfold hasKey. now destruct (getField value key). Qed.

Lemma isBoolean_hasKey (value : json) (key : string) :
  isBoolean (getField value key) = true -> hasKey value key = true.
Proof. unfold hasKey. now destruct (getField value key). Qed.

Lemma isArray_hasKey (value : json) (key : string) :
  isArray (getField value key) = true -> hasKey value key = true.
Proof. unfold hasKey. now destruct (getField value key). Qed.

Lemma oneOf_isString (options : list string) (value : option json) :
  Storage.oneOf options value = true -> isString value = true.
Proof. destruct value as [[]|]; simpl; congruence. Qed.

Lemma isValidNote_others (note : json) :
  Storage.isValidNote note = true -> looksLikeNote note = true /\ isNote note = true.
Proof.
  unfold Storage.isValidNote, looksLikeNote, isNote.
  destruct (negb (isTruthy (Some note)) || negb (isObject (Some note))) eqn:Hobj;
    [discriminate|].
  apply orb_false_iff in Hobj as [Htruthy Hobject].
  apply negb_false_iff in Htruthy, Hobject.
  intros H. repeat (apply andb_true_iff in H as [H ?]).
  assert (Htype : typeofObject note && negb (isNull note) = true)
    by (destruct note; simpl in *; congruence).
  rewrite Htruthy, Htype.
  repeat match goal with
         | Hs : isString (getField note ?k) = true |- _ =>
             rewrite Hs; rewrite (isString_hasKey note k Hs); clear Hs
         | Hs : isBoolean (getField note ?k) = true |- _ =>
             rewrite (isBoolean_hasKey note k Hs); clear Hs
         | Hs : isArray (getField note ?k) = true |- _ =>
             rewrite Hs; rewrite (isArray_hasKey note k Hs); clear Hs
         end.
  split; reflexivity.
Qed.

Lemma isValidTag_others (tag : json) :
  Storage.isValidTag tag = true -> looksLikeTag tag = true /\ isTag tag = true.
Proof.
  unfold Storage.isValidTag, looksLikeTag, isTag.
  destruct (negb (isTruthy (Some tag)) || negb (isObject (Some tag))) eqn:Hobj;
    [discriminate|].
  apply orb_false_iff in Hobj as [Htruthy Hobject].
  apply negb_false_iff in Htruthy, Hobject.
  intros H. repeat (apply andb_true_iff in H as [H ?]).
  assert (Htype : typeofObject tag && negb (isNull tag) = true)
    by (destruct tag; simpl in *; congruence).
  rewrite Htruthy, Htype.
  repeat match goal with
         | Hs : isString (getField tag ?k) = true |- _ =>
             rewrite Hs; rewrite (isString_hasKey tag k Hs); clear Hs
         end.
  split; reflexivity.
Qed.

Lemma isValidPreferences_others (prefs : json) :
  Storage.isValidPreferences (Some prefs) = true ->
  validateData prefs STORAGE_KEYS.PREFERENCES = true /\ isPreferences prefs = true.
Proof.
  unfold Storage.isValidPreferences, isPreferences.
  destruct (negb (isTruthy (Some prefs)) || negb (isObject (Some prefs))) eqn:Hobj;
    [discriminate|].
  apply orb_false_iff in Hobj as [Htruthy Hobject].
  apply negb_false_iff in Htruthy, Hobject.
  intros H. repeat (apply andb_true_iff in H as [H ?]).
  assert (Htype : typeofObject prefs && negb (isNull prefs) = true)
    by (destruct prefs; simpl in *; congruence).
  repeat match goal with
         | Hs : Storage.oneOf _ _ = true |- _ => apply oneOf_isString in Hs
         end.
  change (validateData prefs STORAGE_KEYS.PREFERENCES)
    with (isTruthy (Some prefs) && isObject (Some prefs) &&
          isString (getField prefs "theme") && isString (getField prefs "density") &&
          isString (getField prefs "tagFilterMode")).
  rewrite Htruthy, Hobject, Htype.
  repeat match goal with
         | Hs : isString (getField prefs ?k) = true |- _ =>
             rewrite Hs; rewrite (isString_hasKey prefs k Hs); clear Hs
         end.
  split; reflexivity.
Qed.

Lemma forallb_weaken {A} (f g : A -> bool) (l : list A) :
  (forall x, f x = true -> g x = true) -> forallb f l = true -> forallb g l = true.
Proof.
  intros Hfg. rewrite !List.forallb_forall. auto.
Qed.

(** X26.  The validator of the versioned import is the strictest of the
    three: what [isValidAppData] accepts, [validateData] of the
    persistence manager accepts for each of its keys, and so do the type
    guards of the hook. *)
Theorem accepted_envelope_passes_other_validators (data : json) :
  Storage.isValidAppData data = true ->
  validateData (field data "notes") STORAGE_KEYS.NOTES = true /\
  validateData (field data "tags") STORAGE_KEYS.TAGS = true /\
  validateData (field data "preferences") STORAGE_KEYS.PREFERENCES = true /\
  Storage.everyElement isNote (getField data "notes") = true /\
  Storage.everyElement isTag (getField data "tags") = true /\
  isPreferences (field data "preferences") = true.
Proof.
  unfold Storage.isValidAppData.
  destruct (negb (isTruthy (Some data)) || negb (isObject (Some data))); [discriminate|].
  intros H. repeat (apply andb_true_iff in H as [H ?]).
  unfold field.
  destruct (getField data "notes") as [[| | | |notes|]|]; try discriminate.
  destruct (getField data "tags") as [[| | | |tags|]|]; try discriminate.
  destruct (getField data "preferences") as [prefs|]; [|discriminate].
  simpl in *.
  destruct (isValidPreferences_others prefs) as [Hp1 Hp2]; [assumption|].
  change (validateData (JArray notes) STORAGE_KEYS.NOTES) with (forallb looksLikeNote notes).
  change (validateData (JArray tags) STORAGE_KEYS.TAGS) with (forallb looksLikeTag tags).
  repeat split; try assumption.
  - eapply forallb_weaken; [|eassumption]. intros x Hx. now apply isValidNote_others.
  - eapply forallb_weaken; [|eassumption]. intros x Hx. now apply isValidTag_others.
  - eapply forallb_weaken; [|eassumption]. intros x Hx. now apply isValidNote_others.
  - eapply forallb_weaken; [|eassumption]. intros x Hx. now apply isValidTag_others.
Qed.

Lemma accepted_envelope_passes_other_validators_witness :
  validateData (field sampleEnvelope "notes") STORAGE_KEYS.NOTES = true /\
  validateData (field sampleEnvelope "tags") STORAGE_KEYS.TAGS = true /\
  validateData (field sampleEnvelope "preferences") STORAGE_KEYS.PREFERENCES = true /\
  Storage.everyElement isNote (getField sampleEnvelope "notes") = true /\
  Storage.everyElement isTag (getField sampleEnvelope "tags") = true /\
  isPreferences (field sampleEnvelope "preferences") = true.
Proof.
  apply accepted_envelope_passes_other_validators. reflexivity.
Defined.

(** ** The [useLocalStorage] hook *)

Lemma JSON_stringify_injective (a b : json) :
  JSON_stringify a = JSON_stringify b -> a = b.
Proof.
  intros Heq. pose proof (JSON_parse_stringify a) as Ha.
  rewrite Heq, JSON_parse_stringify in Ha. congruence.
Qed.

(** X27.  With the default options [setValue] skips exactly the values
    equal to the current state, these being the values with the same
    serialization: then the hook is as before, no save is scheduled and a
    pending one is left alone; every other value becomes the state and
    the value of the one pending save. *)
Theorem set_value_skips_exactly_equal_values (value : json) (hook : Hook) :
  (value = hk_state hook /\ setValue defaultOptions (inl value) hook = hook) \/
  (value <> hk_state hook /\
   setValue defaultOptions (inl value) hook
   = {| hk_state := value; hk_error := hk_error hook;
        debounceTimer := Some value; mounted := mounted hook |}).
Proof.
  unfold setValue. simpl.
  destruct (String.eqb_spec (JSON_stringify (hk_state hook)) (JSON_stringify value))
    as [Heq|Hne].
  - left. split; [|reflexivity]. symmetry. now apply JSON_stringify_injective.
  - right. split; [|reflexivity]. intros ->. now apply Hne.
Qed.

Lemma setValue_pending (options : Options) (value : json + (json -> json)) (hook : Hook) :
  mounted (setValue options value hook) = mounted hook /\
  ((debounceTimer (setValue options value hook) = debounceTimer hook /\
    hk_state (setValue options value hook) = hk_state hook) \/
   debounceTimer (setValue options value hook)
   = Some (hk_state (setValue options value hook))).
Proof.
  unfold setValue. destruct (skipEqual options && _); simpl; auto.
Qed.

Lemma setValues_pending (options : Options) (values : list (json + (json -> json)))
    (hook : Hook) :
  mounted (setValues options values hook) = mounted hook /\
  ((debounceTimer (setValues options values hook) = debounceTimer hook /\
    hk_state (setValues options values hook) = hk_state hook) \/
   debounceTimer (setValues options values hook)
   = Some (hk_state (setValues options values hook))).
Proof.
  unfold setValues. revert hook.
  induction values as [|value values IH]; intros hook; simpl; [auto|].
  destruct (IH (setValue options value hook)) as [Hm Hcases].
  destruct (setValue_pending options value hook) as [Hm1 Hcases1].
  split; [congruence|].
  destruct Hcases as [[Htimer Hstate]|Hpending]; [|now right].
  destruct Hcases1 as [[Htimer1 Hstate1]|Hpending1].
  - left. split; congruence.
  - right. congruence.
Qed.

Lemma saveOperation_effect (key : string) (newValue : json) (hook : Hook) (w : World) :
  mounted hook = true ->
  saveOperation key newValue hook w
  = if (storageSize (<[key := JSON_stringify newValue]> (ls_entries w)) <=? ls_quota w)%N
    then (Returned (setError None hook), putJson key newValue w)
    else (Returned (setError (Some FailedToSave) hook), w).
Proof.
  intros Hmounted. unfold saveOperation, tryCatch, bind.
  rewrite Hmounted. cbv beta iota delta [negb].
  rewrite Storage_setItem_effect. now destruct (_ <=? _)%N.
Qed.

(** X28.  The pending save of the hook is always for the latest state.
    After any calls of [setValue] on a mounted hook with no save pending,
    either every call was skipped, the state is as before and nothing is
    pending, or the pending value is the state; when the delay has passed
    that state is written under the key, or, if the store refuses it, the
    hook's error is set and the store is as before. *)
Theorem hook_saves_latest_state (options : Options) (values : list (json + (json -> json)))
    (key : string) (hook : Hook) (w : World) :
  debounceTimer hook = None ->
  mounted hook = true ->
  let hook' := setValues options values hook in
  match debounceTimer hook' with
  | None => hk_state hook' = hk_state hook
  | Some pending =>
      pending = hk_state hook' /\
      debounceElapsed key hook' w
      = if (storageSize (<[key := JSON_stringify pending]> (ls_entries w)) <=? ls_quota w)%N
        then (Returned (afterSave pending None), putJson key pending w)
        else (Returned (afterSave pending (Some FailedToSave)), w)
  end.
Proof.
  intros Htimer Hmounted hook'.
  destruct (setValues_pending options values hook) as [Hm Hcases].
  fold hook' in Hm, Hcases. rewrite Hmounted in Hm.
  destruct Hcases as [[Hsame Hstate]|Hpending].
  - rewrite Hsame, Htimer. exact Hstate.
  - rewrite Hpending. split; [reflexivity|].
    unfold debounceElapsed, bind. rewrite Hpending.
    rewrite (saveOperation_effect key (hk_state hook') hook' w Hm).
    destruct (_ <=? _)%N; simpl; unfold afterSave; now rewrite Hm.
Qed.

Lemma hook_saves_latest_state_witness :
  let hook' := setValues defaultOptions [inl (JNumber 1); inl (JNumber 2)]
                         (freshHook JNull) in
  match debounceTimer hook' with
  | None => hk_state hook' = hk_state (freshHook JNull)
  | Some pending =>
      pending = hk_state hook' /\
      debounceElapsed "counter" hook' (emptyWorld 100)
      = if (storageSize (<["counter" := JSON_stringify pending]>
                           (ls_entries (emptyWorld 100)))
            <=? ls_quota (emptyWorld 100))%N
        then (Returned (afterSave pending None), putJson "counter" pending (emptyWorld 100))
        else (Returned (afterSave pending (Some FailedToSave)), emptyWorld 100)
  end.
Proof.
  apply (hook_saves_latest_state defaultOptions [inl (JNumber 1); inl (JNumber 2)]
           "counter" (freshHook JNull) (emptyWorld 100)); reflexivity.
Defined.

Lemma isStorageAvailable_effect (w : World) :
  (storageSize (<["__storage_test__" := "__storage_test__"]> (ls_entries w))
   <= ls_quota w)%N ->
  exists w',
    Storage.isStorageAvailable w = (Returned true, w') /\
    forall k, k <> "__storage_test__" -> ls_entries w' !! k = ls_entries w !! k.
Proof.
  intros Hfits. apply N.leb_le in Hfits.
  unfold Storage.isStorageAvailable, tryCatch, bind, localStorage_setItem.
  rewrite Hfits. eexists. split; [reflexivity|].
  intros k Hk. simpl. rewrite lookup_delete_ne, lookup_insert_ne by congruence.
  reflexivity.
Qed.

(** X29.  The hook takes up what the versioned import stores: when the
    notes key holds a serialized array whose elements [isValidNote]
    accepts and the store has room for the availability probe, loading on
    a mounted hook makes that array the state and clears the error. *)
Theorem hook_loads_imported_notes (notes initialValue : json) (hook : Hook) (w : World) :
  ls_entries w !! Storage.STORAGE_KEYS.NOTES = Some (JSON_stringify notes) ->
  Storage.everyElement Storage.isValidNote (Some notes) = true ->
  mounted hook = true ->
  (storageSize (<["__storage_test__" := "__storage_test__"]> (ls_entries w))
   <= ls_quota w)%N ->
  exists w',
    loadInitialValue Storage.STORAGE_KEYS.NOTES initialValue defaultOptions hook w
    = (Returned (setError None (setState notes hook)), w').
Proof.
  intros Hstored Hvalid Hmounted Hfits.
  destruct (isStorageAvailable_effect w Hfits) as (w' & Havailable & Hkeys).
  exists w'. unfold loadInitialValue.
  eapply bind_returned; [exact Havailable|]. cbv beta iota delta [negb].
  unfold tryCatch, bind.
  rewrite (Storage_getItem_stored Storage.STORAGE_KEYS.NOTES notes w')
    by (rewrite Hkeys by discriminate; exact Hstored).
  rewrite Hmounted. cbv beta iota delta [negb].
  destruct notes as [| | | |items|]; try discriminate Hvalid.
  simpl in Hvalid. cbv beta iota delta [isNull].
  change (String.eqb Storage.STORAGE_KEYS.NOTES "app.notes.v1") with true.
  cbv beta iota zeta.
  assert (Hguard : Storage.everyElement isNote (Some (JArray items)) = true).
  { simpl. eapply forallb_weaken; [|exact Hvalid].
    intros x Hx. now apply isValidNote_others. }
  rewrite Hguard. reflexivity.
Qed.

Lemma hook_loads_imported_notes_witness :
  exists w',
    loadInitialValue Storage.STORAGE_KEYS.NOTES (JArray []) defaultOptions
                     (freshHook (JArray [])) versionedWorld
    = (Returned (setError None (setState (JArray [sampleNoteJson]) (freshHook (JArray [])))),
       w').
Proof.
  apply hook_loads_imported_notes.
  - vm_compute. reflexivity.
  - reflexivity.
  - reflexivity.
  - vm_compute. discriminate.
Defined.

(** X30.  A value synced from another tab does not cancel the pending
    save.  For a key without a type guard and the default options: with
    a save of [pending] waiting, a storage event for the key
    makes the stored value the state and leaves the timer as it is; when
    the delay has passed, [pending] is written over the value that was
    just taken up, and the state is not what the store holds. *)
Theorem pending_save_overwrites_synced_value (key text : string) (pending synced : json)
    (hook : Hook) (w : World) :
  key <> "app.notes.v1" -> key <> "app.tags.v1" -> key <> "app.preferences.v1" ->
  debounceTimer hook = Some pending ->
  mounted hook = true ->
  ls_entries w !! key = Some (JSON_stringify synced) ->
  synced <> JNull ->
  (storageSize (<[key := JSON_stringify pending]> (ls_entries w)) <= ls_quota w)%N ->
  exists hook1 hook2,
    handleStorageChange key defaultOptions (Some key) (Some text) hook w
    = (Returned hook1, w) /\
    hk_state hook1 = synced /\ debounceTimer hook1 = Some pending /\
    debounceElapsed key hook1 w = (Returned hook2, putJson key pending w) /\
    hk_state hook2 = synced /\
    Storage.getStorageItem key (putJson key pending w)
    = (Returned pending, putJson key pending w).
Proof.
  intros Hnotes Htags Hprefs Htimer Hmounted Hstored Hnonnull Hfits.
  apply String.eqb_neq in Hnotes, Htags, Hprefs. apply N.leb_le in Hfits.
  exists (setError None (setState synced hook)).
  exists {| hk_state := synced; hk_error := None; debounceTimer := None;
            mounted := mounted hook |}.
  split; [|split; [reflexivity | split; [exact Htimer | split; [|split]]]].
  - unfold handleStorageChange. rewrite String.eqb_refl, Hmounted.
    cbv beta iota delta [negb]. unfold tryCatch, bind.
    rewrite (Storage_getItem_stored key synced w Hstored).
    rewrite Hnotes, Htags, Hprefs. cbv beta iota delta [negb].
    destruct synced; try reflexivity. now contradiction Hnonnull.
  - unfold debounceElapsed, bind. simpl. rewrite Htimer.
    rewrite saveOperation_effect by exact Hmounted. rewrite Hfits. reflexivity.
  - reflexivity.
  - apply Storage_getItem_stored. simpl. apply lookup_insert_eq.
Qed.

Lemma pending_save_overwrites_synced_value_witness :
  exists hook1 hook2,
    handleStorageChange "counter" defaultOptions (Some "counter") (Some "2")
      (setValue defaultOptions (inl (JNumber 1)) (freshHook JNull))
      (putJson "counter" (JNumber 2) (emptyWorld 100))
    = (Returned hook1, putJson "counter" (JNumber 2) (emptyWorld 100)) /\
    hk_state hook1 = JNumber 2 /\ debounceTimer hook1 = Some (JNumber 1) /\
    debounceElapsed "counter" hook1 (putJson "counter" (JNumber 2) (emptyWorld 100))
    = (Returned hook2,
       putJson "counter" (JNumber 1) (putJson "counter" (JNumber 2) (emptyWorld 100))) /\
    hk_state hook2 = JNumber 2 /\
    Storage.getStorageItem "counter"
      (putJson "counter" (JNumber 1) (putJson "counter" (JNumber 2) (emptyWorld 100)))
    = (Returned (JNumber 1),
       putJson "counter" (JNumber 1) (putJson "counter" (JNumber 2) (emptyWorld 100))).
Proof.
  apply (pending_save_overwrites_synced_value "counter" "2" (JNumber 1) (JNumber 2)
           (setValue defaultOptions (inl (JNumber 1)) (freshHook JNull))
           (putJson "counter" (JNumber 2) (emptyWorld 100))).
  - discriminate.
  - discriminate.
  - discriminate.
  - reflexivity.
  - reflexivity.
  - vm_compute. reflexivity.
  - discriminate.
  - vm_compute. discriminate.
Defined.
